(** * DLT-perf-model: the dataset pipeline of [data/dataset.py]

    A shallow embedding of [MDataset], its two variants [OPDataset] and
    [SubgraphDataset], the batch collator and [DatasetFactory], with the
    properties the specification states about them.

    Python values are an inductive type, dictionaries are insertion-ordered
    association lists, exceptions are the [Raise] case of [result], and the
    class-level caches of [DatasetFactory] together with the [lru_cache]
    tables live in an explicit [state] threaded through a small monad. *)

From Stdlib Require Import String Ascii List ZArith Bool Lia PeanoNat.
Import ListNotations.

Set Warnings "-register-all".

Local Open Scope string_scope.
Local Open Scope list_scope.

(** ** Exceptions and results *)

Inductive exn : Type :=
| ValueError
| IndexError
| KeyError (k : string)
| TypeError
| AttributeError
| AssertionError.

Inductive result (A : Type) : Type :=
| Ok (a : A)
| Raise (e : exn).

Arguments Ok {A} a.
Arguments Raise {A} e.

Definition rbind {A B} (r : result A) (f : A -> result B) : result B :=
  match r with
  | Ok a => f a
  | Raise e => Raise e
  end.

(** ** Python dictionaries: insertion-ordered, keyed by strings *)

Module Dict.

Definition t (V : Type) : Type := list (string * V).

Definition keys {V} (d : t V) : list string := map fst d.

(** [k in d] / [d.get(k)] *)
Fixpoint get {V} (k : string) (d : t V) : option V :=
  match d with
  | [] => None
  | (k', v) :: r => if String.eqb k' k then Some v else get k r
  end.

(** [d[k] = v]: an existing key keeps its position *)
Fixpoint set {V} (k : string) (v : V) (d : t V) : t V :=
  match d with
  | [] => [(k, v)]
  | (k', v') :: r =>
      if String.eqb k' k then (k, v) :: r else (k', v') :: set k v r
  end.

(** [d.setdefault(k, v)], seen as the dictionary it leaves behind *)
Definition setdefault {V} (k : string) (v : V) (d : t V) : t V :=
  match get k d with
  | Some _ => d
  | None => set k v d
  end.

(** [d[k]] *)
Definition item {V} (k : string) (d : t V) : result V :=
  match get k d with
  | Some v => Ok v
  | None => Raise (KeyError k)
  end.

(** a Python dict never holds a key twice *)
Definition wf {V} (d : t V) : Prop := NoDup (keys d).

End Dict.

(** ** Python values held by feature and label dictionaries

    Numeric leaves carry an integer payload that stands for the number: the
    embedded code never computes on it (all arithmetic is inside the scalers
    and the tensor library, which stay outside). *)

Inductive pyval : Type :=
| PNone
| PNum (x : Z)
| PStr (s : string)
| PList (l : list pyval)
| PDict (d : list (string * pyval)).

Definition pydict : Type := Dict.t pyval.

Definition chars (s : string) : list pyval :=
  map (fun c => PStr (String c EmptyString)) (list_ascii_of_string s).

(** [for e in v]: the elements a [for] loop or [list.extend] sees *)
Definition py_iter (v : pyval) : result (list pyval) :=
  match v with
  | PList l => Ok l
  | PDict d => Ok (map PStr (Dict.keys d))
  | PStr s => Ok (chars s)
  | PNone | PNum _ => Raise TypeError
  end.

(** [l[index]] on a Python list: a negative index counts from the end *)
Definition list_index {A} (l : list A) (index : Z) : result A :=
  let n := Z.of_nat (length l) in
  let i := if (index <? 0)%Z then (index + n)%Z else index in
  if ((i <? 0) || (n <=? i))%Z then Raise IndexError
  else match nth_error l (Z.to_nat i) with
       | Some a => Ok a
       | None => Raise IndexError
       end.

(** [s.endswith(suffix)] *)
Definition endswith (s suffix : string) : bool :=
  let n := String.length s in
  let m := String.length suffix in
  (m <=? n)%nat && String.eqb (substring (n - m) m s) suffix.

(** ** The collaborators [dataset.py] imports

    [FeatureKeys] comes from [data/graph.py], [Environment] and
    [DatasetType] from [objects], the scalers from [sklearn.preprocessing]:
    none of them is part of this file, so their constants and functions are
    the fields of the records below. *)

Record FeatureKeys : Type := {
  X_OP_FEAT : string;
  X_SUBGRAPH_FEAT : string;
  Y_OP_FEAT : string;
  Y_SUBGRAPH_FEAT : string;
  FEAT_SUFFIX : string
}.

(** [preprocessing.StandardScaler] and [preprocessing.MinMaxScaler] *)
Inductive scaler_class : Type := StandardScaler | MinMaxScaler.

Inductive DatasetType : Type := OP | Grouping | Subgraph.

Record externals : Type := {
  keys_of : FeatureKeys;
  (** a fitted scaler, and [scaler_class().fit(data)] *)
  scaler : Type;
  fit : scaler_class -> list pyval -> result scaler;
  (** callables handed in as [normalization]: Python compares and hashes
      them by identity, tests them for truth, and calls them on [(x, y)] *)
  callable : Type;
  callable_eq_dec : forall a b : callable, {a = b} + {a <> b};
  callable_truth : callable -> bool;
  call : callable -> pydict -> pydict -> result (pydict * pyval);
  (** [np.array(values)] on a Python list and
      [torch.tensor(array, dtype=torch.float32)] on its result, the two
      library calls of the collator; each returns an object or raises *)
  ndarray : Type;
  np_array : list pyval -> result ndarray;
  tensor : Type;
  torch_tensor : ndarray -> result tensor;
  (** [objects.Environment]: hashable, and formatted by an f-string *)
  Environment : Type;
  env_eq_dec : forall a b : Environment, {a = b} + {a <> b};
  env_str : Environment -> string;
  datasets_path : string;
  (** [data.graph.Graph]: [from_data_dummy n] is the object made by the
      [n]-th allocation of the process, [Graph.from_data(None, dummy=True)] *)
  Graph : Type;
  from_data_dummy : nat -> Graph;
  node_features : Graph -> result (list pydict * list pydict);
  subgraph_features : Graph -> Z -> result (list pydict * list pydict);
  full_graph_feature : Graph -> Z -> result (pydict * pydict)
}.

(** ** The embedding proper *)

Section Pipeline.

Variable X : externals.

Abbreviation FK := (keys_of X).

(** *** Fitted transforms and the [Normalizer]

    The three shapes of entry the scaler dictionaries receive:
    [lambda item: item], a fitted scaler object, and
    [lambda Y: [scaler(y) for y in Y]]. *)
Inductive transform : Type :=
| TIdentity
| TScaler (s : scaler X)
| TMapCall (s : scaler X).

Record Normalizer : Type := {
  x_scaler_dict : Dict.t transform;
  y_scaler_dict : Dict.t transform
}.

(** the [normalization] argument: a plain value (a [str] when it is a
    [PStr]) or a callable *)
Inductive norm_arg : Type :=
| NormVal (v : pyval)
| NormCallable (c : callable X).

(** the concrete class of a dataset object *)
Inductive variant : Type := OPDataset | SubgraphDataset.

Record MDataset : Type := {
  oid : nat;
  klass : variant;
  graphs_cache_key : string;
  features : list pydict;
  labels : list pydict;
  normalizer : option (callable X)
}.

(** *** Process state

    Object identities are allocation numbers; [events] records the calls
    that leave this file (scaler fits, feature extraction, placeholder
    graphs, data directories). *)
Inductive event : Type :=
| EvFit (cls : scaler_class) (data : list pyval)
| EvFromData (n : nat)
| EvDataDir (path : string)
| EvExtract (kind : DatasetType) (g : Graph X).

(** a list of graphs, as an object *)
Record glist : Type := {
  glist_oid : nat;
  glist_items : list (Graph X)
}.

Definition load_key : Type := Environment X * string * bool.

(** what [lru_cache] hashes of a [normalization] argument *)
Inductive hkey : Type :=
| HNone
| HNum (x : Z)
| HStr (s : string)
| HCallable (c : callable X).

Definition kwargs : Type := list (string * Z).

Definition creator_key : Type := string * hkey * kwargs.

Record state : Type := {
  next_oid : nat;
  events : list event;
  graphs_cache : Dict.t glist;
  load_graphs_memo : list (load_key * glist);
  op_memo : list (creator_key * MDataset);
  grouping_memo : list (creator_key * MDataset);
  subgraph_memo : list (creator_key * MDataset)
}.

Definition initial_state : state :=
  {| next_oid := 0; events := []; graphs_cache := [];
     load_graphs_memo := []; op_memo := []; grouping_memo := [];
     subgraph_memo := [] |}.

Definition with_next_oid (n : nat) (st : state) : state :=
  {| next_oid := n; events := events st; graphs_cache := graphs_cache st;
     load_graphs_memo := load_graphs_memo st; op_memo := op_memo st;
     grouping_memo := grouping_memo st; subgraph_memo := subgraph_memo st |}.

Definition with_events (l : list event) (st : state) : state :=
  {| next_oid := next_oid st; events := l; graphs_cache := graphs_cache st;
     load_graphs_memo := load_graphs_memo st; op_memo := op_memo st;
     grouping_memo := grouping_memo st; subgraph_memo := subgraph_memo st |}.

Definition with_graphs_cache (c : Dict.t glist) (st : state) : state :=
  {| next_oid := next_oid st; events := events st; graphs_cache := c;
     load_graphs_memo := load_graphs_memo st; op_memo := op_memo st;
     grouping_memo := grouping_memo st; subgraph_memo := subgraph_memo st |}.

Definition with_load_graphs_memo (m : list (load_key * glist)) (st : state)
  : state :=
  {| next_oid := next_oid st; events := events st;
     graphs_cache := graphs_cache st;
     load_graphs_memo := m; op_memo := op_memo st;
     grouping_memo := grouping_memo st; subgraph_memo := subgraph_memo st |}.

Definition creator_memo (kind : DatasetType) (st : state)
  : list (creator_key * MDataset) :=
  match kind with
  | OP => op_memo st
  | Grouping => grouping_memo st
  | Subgraph => subgraph_memo st
  end.

Definition with_creator_memo (kind : DatasetType)
    (m : list (creator_key * MDataset)) (st : state) : state :=
  {| next_oid := next_oid st; events := events st;
     graphs_cache := graphs_cache st;
     load_graphs_memo := load_graphs_memo st;
     op_memo := match kind with OP => m | _ => op_memo st end;
     grouping_memo := match kind with Grouping => m | _ => grouping_memo st end;
     subgraph_memo := match kind with Subgraph => m | _ => subgraph_memo st end |}.

(** *** The monad: state that survives an exception *)
Definition M (A : Type) : Type := state -> result A * state.

Definition ret {A} (a : A) : M A := fun st => (Ok a, st).

Definition raise {A} (e : exn) : M A := fun st => (Raise e, st).

Definition bind {A B} (m : M A) (f : A -> M B) : M B :=
  fun st =>
    match m st with
    | (Ok a, st') => f a st'
    | (Raise e, st') => (Raise e, st')
    end.

Definition lift {A} (r : result A) : M A := fun st => (r, st).

Definition log (e : event) : M unit :=
  fun st => (Ok tt, with_events (events st ++ [e]) st).

Definition alloc : M nat :=
  fun st => (Ok (next_oid st), with_next_oid (S (next_oid st)) st).

(** [for a in l: acc = body(acc, a)] *)
Fixpoint for_each {A B} (l : list A) (body : B -> A -> M B) (acc : B) : M B :=
  match l with
  | [] => ret acc
  | a :: r => bind (body acc a) (for_each r body)
  end.

(** the same loop for bodies without effects on the state *)
Fixpoint rfold {A B} (l : list A) (body : B -> A -> result B) (acc : B)
  : result B :=
  match l with
  | [] => Ok acc
  | a :: r => rbind (body acc a) (rfold r body)
  end.

Declare Scope py_scope.
Delimit Scope py_scope with py.
Notation "x <- m ;; k" := (bind m (fun x => k))
  (at level 61, m at next level, right associativity) : py_scope.
Notation "' p <- m ;; k" := (bind m (fun y => let p := y in k))
  (at level 61, p pattern, m at next level, right associativity) : py_scope.
Local Open Scope py_scope.

(** *** [MDataset]: fitting the scalers *)

(** [scaler = scaler_class(); scaler.fit(data)] *)
Definition fit_scaler (cls : scaler_class) (data : list pyval)
  : M (scaler X) :=
  _ <- log (EvFit cls data) ;; lift (fit X cls data).

(** [list(y[key] for y in labels)] and the [append] loop of [OPDataset] *)
Definition pool_values (key : string) (samples : list pydict)
    (acc : list pyval) : result (list pyval) :=
  rfold samples
    (fun acc d => rbind (Dict.item key d) (fun v => Ok (acc ++ [v]))) acc.

(** the loops that pool the elements of [d[key]] over all samples
    ([extend], or a nested [for ... append]) *)
Definition pool_elements (key : string) (samples : list pydict)
    (acc : list pyval) : result (list pyval) :=
  rfold samples
    (fun acc d =>
       rbind (Dict.item key d) (fun v =>
       rbind (py_iter v) (fun es => Ok (acc ++ es)))) acc.

(** [MDataset._get_y_scaler_dict] *)
Definition get_y_scaler_dict (labels : list pydict) (cls : scaler_class)
  : M (Dict.t transform) :=
  y_sample <- lift (list_index labels 0) ;;
  for_each (Dict.keys y_sample)
    (fun y_scaler_dict key =>
       if negb (String.eqb key (Y_OP_FEAT FK)
                || String.eqb key (Y_SUBGRAPH_FEAT FK))
       then ret (Dict.set key TIdentity y_scaler_dict)
       else if String.eqb key (Y_SUBGRAPH_FEAT FK)
       then
         subgraph_feature <- lift (pool_values key labels []) ;;
         s <- fit_scaler cls subgraph_feature ;;
         ret (Dict.set key (TScaler s) y_scaler_dict)
       else if String.eqb key (Y_OP_FEAT FK)
       then
         y_op_features <- lift (pool_elements (Y_OP_FEAT FK) labels []) ;;
         s <- fit_scaler cls y_op_features ;;
         ret (Dict.set key (TMapCall s) y_scaler_dict)
       else raise AssertionError)
    [].

(** [SubgraphDataset._init_normalizer_impl]; [group_features] is created
    once, before the loop over the keys *)
Definition subgraph_init_normalizer_impl (features labels : list pydict)
    (cls : scaler_class) : M Normalizer :=
  x_sample <- lift (list_index features 0) ;;
  '(x_scaler_dict, _) <-
    for_each (Dict.keys x_sample)
      (fun '(x_scaler_dict, group_features) k =>
         if negb (String.eqb k (X_SUBGRAPH_FEAT FK))
         then ret (Dict.set k TIdentity x_scaler_dict, group_features)
         else
           group_features <-
             lift (pool_elements (X_SUBGRAPH_FEAT FK) features
                     group_features) ;;
           s <- fit_scaler cls group_features ;;
           ret (Dict.set (X_SUBGRAPH_FEAT FK) (TMapCall s) x_scaler_dict,
                group_features))
      ([], []) ;;
  y_scaler_dict <- get_y_scaler_dict labels cls ;;
  ret {| x_scaler_dict := x_scaler_dict; y_scaler_dict := y_scaler_dict |}.

(** [OPDataset._init_normalizer_impl]: the fitted scaler is stored under
    [FeatureKeys.X_SUBGRAPH_FEAT] (line 152) *)
Definition op_init_normalizer_impl (features labels : list pydict)
    (cls : scaler_class) : M Normalizer :=
  x_sample <- lift (list_index features 0) ;;
  '(x_scaler_dict, _) <-
    for_each (Dict.keys x_sample)
      (fun '(x_scaler_dict, x_op_features) k =>
         if negb (String.eqb k (X_OP_FEAT FK))
         then ret (Dict.set k TIdentity x_scaler_dict, x_op_features)
         else if String.eqb k (X_OP_FEAT FK)
         then
           x_op_features <-
             lift (pool_values (X_OP_FEAT FK) features x_op_features) ;;
           s <- fit_scaler cls x_op_features ;;
           ret (Dict.set (X_SUBGRAPH_FEAT FK) (TScaler s) x_scaler_dict,
                x_op_features)
         else raise AssertionError)
      ([], []) ;;
  y_scaler_dict <- get_y_scaler_dict labels cls ;;
  ret {| x_scaler_dict := x_scaler_dict; y_scaler_dict := y_scaler_dict |}.

(** dispatch of the abstract method on the concrete class *)
Definition init_normalizer_impl (v : variant) (features labels : list pydict)
    (cls : scaler_class) : M Normalizer :=
  match v with
  | OPDataset => op_init_normalizer_impl features labels cls
  | SubgraphDataset => subgraph_init_normalizer_impl features labels cls
  end.

(** [MDataset._init_normalizer]: the value [_init_normalizer_impl] returns
    is dropped, the method itself returns [None] *)
Definition init_normalizer (v : variant) (features labels : list pydict)
    (normalization : string) : M unit :=
  if String.eqb normalization "Standard"
  then _ <- init_normalizer_impl v features labels StandardScaler ;; ret tt
  else if String.eqb normalization "MinMax"
  then _ <- init_normalizer_impl v features labels MinMaxScaler ;; ret tt
  else raise ValueError.

(** [MDataset.__init__], run on a freshly allocated object of class [v] *)
Definition new_dataset (v : variant) (key : string)
    (features labels : list pydict) (normalization : norm_arg)
  : M MDataset :=
  o <- alloc ;;
  match normalization with
  | NormVal (PStr s) =>
      _ <- init_normalizer v features labels s ;;
      ret {| oid := o; klass := v; graphs_cache_key := key;
             features := features; labels := labels; normalizer := None |}
  | NormCallable c =>
      ret {| oid := o; klass := v; graphs_cache_key := key;
             features := features; labels := labels; normalizer := Some c |}
  | NormVal _ => raise ValueError
  end.

(** *** [MDataset]: access *)

(** [__len__] *)
Definition len (ds : MDataset) : nat := length (features ds).

(** [{key: val for key, val in x.items()}] *)
Definition dict_copy {V} (x : Dict.t V) : Dict.t V :=
  fold_left (fun item kv => Dict.set (fst kv) (snd kv) item) x [].

(** [__getitem__] *)
Definition getitem (ds : MDataset) (index : Z) : result pydict :=
  rbind (list_index (features ds) index) (fun x =>
  rbind (list_index (labels ds) index) (fun y =>
  rbind (match normalizer ds with
         | Some c => if callable_truth X c then call X c x y
                     else Ok (x, PDict y)
         | None => Ok (x, PDict y)
         end) (fun xy =>
  Ok (Dict.set "label" (snd xy) (dict_copy (fst xy)))))).

(** [get_normalizer] *)
Definition get_normalizer (ds : MDataset) : option (callable X) :=
  normalizer ds.

(** *** [MDataset.data_collator] *)

(** values of the batch dictionary while the first loop runs: the lists
    it appends to, and the nested dictionary under ["labels"] *)
Inductive bval : Type :=
| BList (l : list pyval)
| BDict (d : list (string * bval)).

(** values of the batch dictionary after [make_tensor] has replaced every
    list: the object [np.array] returned, or the object [torch.tensor]
    returned for it; a nested dictionary stays a dictionary *)
Inductive cval : Type :=
| CArray (a : ndarray X)
| CTensor (t : tensor X)
| CDict (d : list (string * cval)).

(** [batch[k].append(v)], after [batch.setdefault(k, list())] *)
Definition batch_append (k : string) (v : pyval) (batch : Dict.t bval)
  : result (Dict.t bval) :=
  let batch := Dict.setdefault k (BList []) batch in
  match Dict.get k batch with
  | Some (BList l) => Ok (Dict.set k (BList (l ++ [v])) batch)
  | _ => Raise AttributeError
  end.

(** the body of [for vk, vv in v.items()] *)
Definition labels_append (batch : Dict.t bval) (kv : string * pyval)
  : result (Dict.t bval) :=
  match Dict.get "labels" batch with
  | Some (BDict ld) =>
      rbind (batch_append (fst kv) (snd kv) ld) (fun ld' =>
      Ok (Dict.set "labels" (BDict ld') batch))
  | _ => Raise AttributeError
  end.

(** the body of [for k, v in sample.items()] *)
Definition collate_item (batch : Dict.t bval) (kv : string * pyval)
  : result (Dict.t bval) :=
  if String.eqb (fst kv) "label"
  then
    let batch := Dict.setdefault "labels" (BDict []) batch in
    match snd kv with
    | PDict v => rfold v labels_append batch
    | _ => Raise AttributeError
    end
  else batch_append (fst kv) (snd kv) batch.

Definition collate_sample (batch : Dict.t bval) (sample : pydict)
  : result (Dict.t bval) :=
  rfold sample collate_item batch.

(** the conversion of one list [v_] under key [k_]: [np.array(v_)] first,
    whatever the key; then [torch.tensor] when the key ends with the
    suffix, and the array itself when it does not *)
Definition convert (k_ : string) (v_ : list pyval) : result cval :=
  rbind (np_array X v_) (fun v_ =>
  if negb (endswith k_ (FEAT_SUFFIX FK))
  then Ok (CArray v_)
  else rbind (torch_tensor X v_) (fun t => Ok (CTensor t))).

(** the inner function [make_tensor], on the value stored under [k_]: a
    dict is walked entry by entry in its order, a list is converted; the
    first exception ends the walk *)
Fixpoint make_tensor_val (k_ : string) (v_ : bval) : result cval :=
  match v_ with
  | BDict d =>
      rbind
        ((fix each (d : list (string * bval))
            : result (list (string * cval)) :=
            match d with
            | [] => Ok []
            | (k', v') :: r =>
                rbind (make_tensor_val k' v') (fun c =>
                rbind (each r) (fun r' => Ok ((k', c) :: r')))
            end) d)
        (fun d' => Ok (CDict d'))
  | BList l => convert k_ l
  end.

(** [make_tensor(d)]: the dictionary [d] with every entry replaced in
    place *)
Fixpoint make_tensor (d : Dict.t bval) : result (Dict.t cval) :=
  match d with
  | [] => Ok []
  | (k_, v_) :: r =>
      rbind (make_tensor_val k_ v_) (fun c =>
      rbind (make_tensor r) (fun r' => Ok ((k_, c) :: r')))
  end.

Definition data_collator (samples : list pydict) : result (Dict.t cval) :=
  rbind (rfold samples collate_sample []) (fun batch =>
  make_tensor batch).

(** *** [functools.lru_cache(maxsize=None)] *)

Fixpoint assoc {K A} (eq_dec : forall a b : K, {a = b} + {a <> b})
    (k : K) (l : list (K * A)) : option A :=
  match l with
  | [] => None
  | (k', a) :: r => if eq_dec k' k then Some a else assoc eq_dec k r
  end.

(** a hit returns the stored object and runs nothing; a miss runs the
    body and stores its result, unless the body raised *)
Definition lru_cache {K A} (eq_dec : forall a b : K, {a = b} + {a <> b})
    (table : state -> list (K * A))
    (with_table : list (K * A) -> state -> state)
    (k : K) (body : M A) : M A :=
  fun st =>
    match assoc eq_dec k (table st) with
    | Some a => (Ok a, st)
    | None =>
        match body st with
        | (Ok a, st') => (Ok a, with_table ((k, a) :: table st') st')
        | (Raise e, st') => (Raise e, st')
        end
    end.

Definition load_key_eq_dec (a b : load_key) : {a = b} + {a <> b}.
Proof.
  decide equality; [apply Bool.bool_dec |].
  decide equality; [apply String.string_dec | apply env_eq_dec].
Defined.

Definition hkey_eq_dec (a b : hkey) : {a = b} + {a <> b}.
Proof.
  decide equality;
    [apply Z.eq_dec | apply String.string_dec | apply callable_eq_dec].
Defined.

Definition creator_key_eq_dec (a b : creator_key) : {a = b} + {a <> b}.
Proof.
  decide equality.
  - apply list_eq_dec. decide equality;
      [apply Z.eq_dec | apply String.string_dec].
  - decide equality; [apply hkey_eq_dec | apply String.string_dec].
Defined.

(** [hash(normalization)]: lists and dicts are unhashable *)
Definition hash_key (normalization : norm_arg) : result hkey :=
  match normalization with
  | NormCallable c => Ok (HCallable c)
  | NormVal PNone => Ok HNone
  | NormVal (PNum x) => Ok (HNum x)
  | NormVal (PStr s) => Ok (HStr s)
  | NormVal (PList _) | NormVal (PDict _) => Raise TypeError
  end.

(** *** [DatasetFactory] *)

(** [_graphs_cache_key]: the f-string [{environment}|{train_or_val}|{dummy}] *)
Definition _graphs_cache_key (environment : Environment X)
    (train_or_val : string) (dummy : bool) : string :=
  env_str X environment ++ "|" ++ train_or_val ++ "|"
    ++ (if dummy then "True" else "False").

(** [Graph.from_data(None, dummy=True)] *)
Definition new_dummy_graph : M (Graph X) :=
  n <- alloc ;;
  _ <- log (EvFromData n) ;;
  ret (from_data_dummy X n).

(** [list(gen() for _ in range(n))] *)
Fixpoint repeat_M {A} (n : nat) (gen : M A) : M (list A) :=
  match n with
  | O => ret []
  | S n' => a <- gen ;; r <- repeat_M n' gen ;; ret (a :: r)
  end.

Definition new_glist (items : list (Graph X)) : M glist :=
  o <- alloc ;;
  ret {| glist_oid := o; glist_items := items |}.

(** the body of [_load_graphs]; the directory is named and nothing is
    read from it *)
Definition load_graphs_body (environment : Environment X)
    (train_or_val : string) (dummy : bool) : M glist :=
  if dummy
  then graphs <- repeat_M 100 new_dummy_graph ;; new_glist graphs
  else
    _ <- log (EvDataDir (datasets_path X ++ "/" ++ env_str X environment)) ;;
    new_glist [].

Definition _load_graphs (environment : Environment X)
    (train_or_val : string) (dummy : bool) : M glist :=
  lru_cache load_key_eq_dec load_graphs_memo with_load_graphs_memo
    (environment, train_or_val, dummy)
    (load_graphs_body environment train_or_val dummy).

(** a keyword argument with its default *)
Definition kwarg (name : string) (default : Z) (kw : kwargs) : Z :=
  match Dict.get name kw with
  | Some z => z
  | None => default
  end.

(** binding [**kwargs] next to the two positional parameters *)
Definition bind_kwargs (kw : kwargs) : M unit :=
  match Dict.get "graphs_cache_key" kw, Dict.get "normalization" kw with
  | None, None => ret tt
  | _, _ => raise TypeError
  end.

(** the loops over the graphs that extend the sample lists; the local
    dict [data_idx_to_graph] they also fill is neither read nor returned,
    and is left out *)
Definition extract_all (kind : DatasetType)
    (extract : Graph X -> result (list pydict * list pydict))
    (graphs : list (Graph X)) : M (list pydict * list pydict) :=
  for_each graphs
    (fun acc graph =>
       _ <- log (EvExtract kind graph) ;;
       XY <- lift (extract graph) ;;
       ret (fst acc ++ fst XY, snd acc ++ snd XY))
    ([], []).

Definition cached_graphs (key : string) : M glist :=
  fun st => (Dict.item key (graphs_cache st), st).

Definition create_op_dataset_body (key : string) (normalization : norm_arg)
    (kw : kwargs) : M MDataset :=
  _ <- bind_kwargs kw ;;
  graphs <- cached_graphs key ;;
  XY <- extract_all OP (node_features X) (glist_items graphs) ;;
  new_dataset OPDataset key (fst XY) (snd XY) normalization.

Definition create_graph_grouping_dataset_body (key : string)
    (normalization : norm_arg) (kw : kwargs) : M MDataset :=
  _ <- bind_kwargs kw ;;
  let subgraph_count := kwarg "subgraph_count" 10 kw in
  graphs <- cached_graphs key ;;
  XY <- extract_all Grouping
          (fun g => rbind (full_graph_feature X g subgraph_count)
                      (fun xy => Ok ([fst xy], [snd xy])))
          (glist_items graphs) ;;
  new_dataset SubgraphDataset key (fst XY) (snd XY) normalization.

Definition create_subgraph_dataset_body (key : string)
    (normalization : norm_arg) (kw : kwargs) : M MDataset :=
  _ <- bind_kwargs kw ;;
  let subgraph_node_size := kwarg "subgraph_node_size" 10 kw in
  graphs <- cached_graphs key ;;
  XY <- extract_all Subgraph
          (fun g => subgraph_features X g subgraph_node_size)
          (glist_items graphs) ;;
  new_dataset SubgraphDataset key (fst XY) (snd XY) normalization.

Definition creator_body (kind : DatasetType)
  : string -> norm_arg -> kwargs -> M MDataset :=
  match kind with
  | OP => create_op_dataset_body
  | Grouping => create_graph_grouping_dataset_body
  | Subgraph => create_subgraph_dataset_body
  end.

(** [_create_op_dataset], [_create_graph_grouping_dataset] and
    [_create_subgraph_dataset]: the body of [kind] behind its own
    [lru_cache], keyed by all the arguments of the call *)
Definition creator (kind : DatasetType) (key : string)
    (normalization : norm_arg) (kw : kwargs) : M MDataset :=
  h <- lift (hash_key normalization) ;;
  lru_cache creator_key_eq_dec (creator_memo kind) (with_creator_memo kind)
    (key, h, kw) (creator_body kind key normalization kw).

Definition _create_op_dataset := creator OP.
Definition _create_graph_grouping_dataset := creator Grouping.
Definition _create_subgraph_dataset := creator Subgraph.

(** [graphs_cache[key] = graphs_cache.get(key, default)] *)
Definition cache_graphs (key : string) (default : glist) : M glist :=
  fun st =>
    let graphs := match Dict.get key (graphs_cache st) with
                  | Some g => g
                  | None => default
                  end in
    (Ok graphs, with_graphs_cache (Dict.set key graphs (graphs_cache st)) st).

(** [DatasetFactory.create_dataset]; the default of [.get] is an argument,
    so [_load_graphs] is called before the cache is looked at *)
Definition create_dataset (environment : Environment X)
    (normalization : norm_arg) (dataset_type : DatasetType) (dummy : bool)
    (kw : kwargs) : M (MDataset * MDataset) :=
  let train_graphs_cache_key := _graphs_cache_key environment "train" dummy in
  let val_graphs_cache_key := _graphs_cache_key environment "val" dummy in
  loaded <- _load_graphs environment "train" dummy ;;
  _ <- cache_graphs train_graphs_cache_key loaded ;;
  loaded <- _load_graphs environment "val" dummy ;;
  _ <- cache_graphs val_graphs_cache_key loaded ;;
  train <- creator dataset_type train_graphs_cache_key normalization kw ;;
  val <- creator dataset_type val_graphs_cache_key normalization kw ;;
  ret (train, val).

End Pipeline.

Arguments NormVal {X} v.
Arguments CArray {X} a.
Arguments CTensor {X} t.
Arguments CDict {X} d.
Arguments NormCallable {X} c.
Arguments oid {X} m.
Arguments klass {X} m.
Arguments graphs_cache_key {X} m.
Arguments features {X} m.
Arguments labels {X} m.
Arguments normalizer {X} m.
Arguments TScaler {X} s.
Arguments TMapCall {X} s.
Arguments x_scaler_dict {X} n.
Arguments y_scaler_dict {X} n.
Arguments glist_oid {X} g.
Arguments glist_items {X} g.
Arguments next_oid {X} s.
Arguments events {X} s.
Arguments graphs_cache {X} s.
Arguments load_graphs_memo {X} s.
Arguments op_memo {X} s.
Arguments grouping_memo {X} s.
Arguments subgraph_memo {X} s.
Arguments creator_memo {X} kind st.
Arguments with_next_oid {X} n st.
Arguments with_events {X} l st.
Arguments with_graphs_cache {X} c st.
Arguments with_load_graphs_memo {X} m st.
Arguments with_creator_memo {X} kind m st.
Arguments load_key_eq_dec {X} a b.
Arguments creator_key_eq_dec {X} a b.
Arguments len {X} ds.
Arguments getitem {X} ds index.
Arguments get_normalizer {X} ds.

(** ** A concrete instance of the collaborators

    Used to run the embedding on explicit inputs.  A fitted scaler is kept
    symbolically, as the class and the data it was fit on; fitting raises on
    an empty pool, as the scalers do on zero samples.  The key names are
    sample values: [FeatureKeys] is not among the sources. *)

Definition sample_keys : FeatureKeys :=
  {| X_OP_FEAT := "x_op_feat";
     X_SUBGRAPH_FEAT := "x_subgraph_feat";
     Y_OP_FEAT := "y_op_feat";
     Y_SUBGRAPH_FEAT := "y_subgraph_feat";
     FEAT_SUFFIX := "_feat" |}.

Definition symbolic_fit (cls : scaler_class) (data : list pyval)
  : result (scaler_class * list pyval) :=
  match data with
  | [] => Raise ValueError
  | _ => Ok (cls, data)
  end.

(** one operator sample: a feature dict and its label dict *)
Definition op_sample (i : Z) : pydict * pydict :=
  ([("x_op_feat", PList [PNum i; PNum (i + 1)]); ("op_id", PNum i)],
   [("y_op_feat", PList [PList [PNum (10 * i)]])]).

Definition op_samples (first : Z) (n : nat) : list pydict * list pydict :=
  split (map (fun k => op_sample (first + Z.of_nat k)) (seq 0 n)).

(** graph 0 yields 3 operator samples, every other graph 5 *)
Definition sample_node_features (g : nat) : result (list pydict * list pydict) :=
  match g with
  | O => Ok (op_samples 0 3)
  | _ => Ok (op_samples 100 5)
  end.

Definition sample_subgraph_features (g : nat) (size : Z)
  : result (list pydict * list pydict) :=
  Ok ([[("x_subgraph_feat", PList [PList [PNum size]; PList [PNum 0]]);
        ("graph_id", PNum (Z.of_nat g))]],
      [[("y_subgraph_feat", PList [PNum 5])]]).

Definition sample_full_graph_feature (g : nat) (count : Z)
  : result (pydict * pydict) :=
  Ok ([("x_subgraph_feat", PList [PList [PNum count]])],
      [("y_subgraph_feat", PList [PNum 7])]).

(** stand-ins for the two library calls: [np.array] rejects a list whose
    elements do not have one shape, [torch.tensor] an array that holds
    anything but numbers; an accepted list is kept as the content of the
    object *)
Definition same_shape (v w : pyval) : bool :=
  match v, w with
  | PList a, PList b => Nat.eqb (length a) (length b)
  | PList _, _ | _, PList _ => false
  | _, _ => true
  end.

Definition sample_np_array (l : list pyval) : result (list pyval) :=
  match l with
  | [] => Ok l
  | v :: r => if forallb (same_shape v) r then Ok l else Raise ValueError
  end.

Fixpoint numeric (v : pyval) : bool :=
  match v with
  | PNum _ => true
  | PList es => forallb numeric es
  | _ => false
  end.

Definition sample_torch_tensor (a : list pyval) : result (list pyval) :=
  if forallb numeric a then Ok a else Raise TypeError.

Definition sample_world : externals :=
  {| keys_of := sample_keys;
     scaler := scaler_class * list pyval;
     fit := symbolic_fit;
     callable := nat;
     callable_eq_dec := Nat.eq_dec;
     callable_truth := fun _ => true;
     call := fun _ x y => Ok (x, PDict y);
     ndarray := list pyval;
     np_array := sample_np_array;
     tensor := list pyval;
     torch_tensor := sample_torch_tensor;
     Environment := string;
     env_eq_dec := String.string_dec;
     env_str := fun e => e;
     datasets_path := "datasets";
     Graph := nat;
     from_data_dummy := fun n => n;
     node_features := sample_node_features;
     subgraph_features := sample_subgraph_features;
     full_graph_feature := sample_full_graph_feature |}.

Definition two_graphs_state : state sample_world :=
  with_graphs_cache
    [("two", Build_glist sample_world 2 [0%nat; 1%nat])]
    (with_next_oid 3 (initial_state sample_world)).

(** inputs of the examples: one subgraph sample, one operator sample *)
Definition subgraph_features_1 : list pydict :=
  [[("x_subgraph_feat", PList [PList [PNum 0]; PList [PNum 10]]);
    ("graph_id", PStr "g0")]].

Definition subgraph_labels_1 : list pydict :=
  [[("y_subgraph_feat", PList [PNum 5])]].

Definition op_features_1 : list pydict := fst (op_samples 0 1).

Definition op_labels_1 : list pydict := snd (op_samples 0 1).

(** * Properties *)

(** ** Dictionaries *)

Module DictFacts.

Lemma get_set_same {V} (k : string) (v : V) (d : Dict.t V) :
  Dict.get k (Dict.set k v d) = Some v.
Proof.
  induction d as [|[k' v'] r IH]; simpl.
  - now rewrite String.eqb_refl.
  - destruct (String.eqb k' k) eqn:E; simpl.
    + now rewrite String.eqb_refl.
    + now rewrite E.
Qed.

Lemma get_set_other {V} (k k' : string) (v : V) (d : Dict.t V) :
  k <> k' -> Dict.get k' (Dict.set k v d) = Dict.get k' d.
Proof.
  intros Hne. induction d as [|[k0 v0] r IH]; simpl.
  - destruct (String.eqb k k') eqn:E; [|reflexivity].
    apply String.eqb_eq in E. contradiction.
  - destruct (String.eqb k0 k) eqn:E; simpl.
    + apply String.eqb_eq in E. subst k0.
      destruct (String.eqb k k') eqn:E'; [|reflexivity].
      apply String.eqb_eq in E'. contradiction.
    + now rewrite IH.
Qed.

Lemma set_same_value {V} (k : string) (v : V) (d : Dict.t V) :
  Dict.get k d = Some v -> Dict.set k v d = d.
Proof.
  induction d as [|[k' v'] r IH]; simpl; [discriminate|].
  destruct (String.eqb k' k) eqn:E.
  - intros [= ->]. apply String.eqb_eq in E. now subst.
  - intros H. now rewrite IH.
Qed.

Lemma get_none_not_in {V} (k : string) (d : Dict.t V) :
  Dict.get k d = None <-> ~ In k (Dict.keys d).
Proof.
  induction d as [|[k' v'] r IH]; simpl.
  - tauto.
  - destruct (String.eqb k' k) eqn:E.
    + apply String.eqb_eq in E. split; [discriminate | intros H; tauto].
    + apply String.eqb_neq in E. rewrite IH. tauto.
Qed.

Lemma get_some_in {V} (k : string) (d : Dict.t V) :
  In k (Dict.keys d) <-> exists v, Dict.get k d = Some v.
Proof.
  destruct (Dict.get k d) eqn:E.
  - split; [eauto|]. intros _.
    destruct (in_dec String.string_dec k (Dict.keys d)) as [H|H]; [exact H|].
    apply get_none_not_in in H. congruence.
  - split; [|intros [v Hv]; discriminate].
    intros H. apply get_none_not_in in E. contradiction.
Qed.

Lemma set_not_in {V} (k : string) (v : V) (d : Dict.t V) :
  ~ In k (Dict.keys d) -> Dict.set k v d = d ++ [(k, v)].
Proof.
  induction d as [|[k' v'] r IH]; simpl; [reflexivity|].
  intros H. destruct (String.eqb k' k) eqn:E.
  - apply String.eqb_eq in E. tauto.
  - rewrite IH; tauto.
Qed.

Lemma keys_set {V} (k k' : string) (v : V) (d : Dict.t V) :
  In k' (Dict.keys (Dict.set k v d)) <-> k' = k \/ In k' (Dict.keys d).
Proof.
  induction d as [|[k0 v0] r IH]; simpl.
  - intuition congruence.
  - destruct (String.eqb k0 k) eqn:E; simpl.
    + apply String.eqb_eq in E. subst. intuition congruence.
    + rewrite IH. intuition congruence.
Qed.

End DictFacts.

(** the dict comprehension of [__getitem__] copies a dictionary *)
Lemma dict_copy_from {V} (x acc : Dict.t V) :
  NoDup (Dict.keys (acc ++ x)) ->
  fold_left (fun item kv => Dict.set (fst kv) (snd kv) item) x acc = acc ++ x.
Proof.
  revert acc. induction x as [|[k v] r IH]; intros acc Hnd; simpl.
  - now rewrite app_nil_r.
  - rewrite DictFacts.set_not_in.
    + rewrite IH; rewrite <- app_assoc; [reflexivity | exact Hnd].
    + unfold Dict.keys in *. rewrite map_app in Hnd. simpl in Hnd.
      apply NoDup_remove_2 in Hnd. rewrite in_app_iff in Hnd. tauto.
Qed.

Lemma dict_copy_wf {V} (x : Dict.t V) : Dict.wf x -> dict_copy x = x.
Proof. intros H. unfold dict_copy. now rewrite dict_copy_from. Qed.

(** ** Indexing *)

Lemma list_index_out_of_range {A} (l : list A) (index : Z) :
  (index < - Z.of_nat (length l) \/ Z.of_nat (length l) <= index)%Z ->
  list_index l index = Raise IndexError.
Proof.
  intros H. unfold list_index.
  destruct (index <? 0)%Z eqn:Hneg;
    [apply Z.ltb_lt in Hneg | apply Z.ltb_ge in Hneg].
  - replace (index + Z.of_nat (length l) <? 0)%Z with true; [reflexivity|].
    symmetry. apply Z.ltb_lt. lia.
  - replace (Z.of_nat (length l) <=? index)%Z with true;
      [now rewrite orb_true_r|].
    symmetry. apply Z.leb_le. lia.
Qed.

(** the position a valid index denotes *)
Definition position (n : nat) (index : Z) : nat :=
  Z.to_nat (if (index <? 0)%Z then index + Z.of_nat n else index)%Z.

Lemma list_index_in_range {A} (l : list A) (index : Z) :
  (- Z.of_nat (length l) <= index < Z.of_nat (length l))%Z ->
  exists a, nth_error l (position (length l) index) = Some a
            /\ list_index l index = Ok a.
Proof.
  intros H. unfold list_index, position.
  set (i := (if (index <? 0)%Z then (index + Z.of_nat (length l))%Z else index)).
  assert (Hi : (0 <= i < Z.of_nat (length l))%Z).
  { subst i. destruct (index <? 0)%Z eqn:Hneg;
      [apply Z.ltb_lt in Hneg | apply Z.ltb_ge in Hneg]; lia. }
  replace (i <? 0)%Z with false by (symmetry; apply Z.ltb_ge; lia).
  replace (Z.of_nat (length l) <=? i)%Z with false
    by (symmetry; apply Z.leb_gt; lia).
  simpl. destruct (nth_error l (Z.to_nat i)) eqn:E.
  - eauto.
  - apply nth_error_None in E. lia.
Qed.

(** ** Construction and access of a dataset *)

Section DatasetFacts.

Variable X : externals.

(** a dataset of class [v] as [__init__] leaves it for a [str] mode *)
Definition built (v : variant) (o : nat) (key : string)
    (f l : list pydict) : MDataset X :=
  {| oid := o; klass := v; graphs_cache_key := key;
     features := f; labels := l; normalizer := None |}.

Lemma new_dataset_str (v : variant) (key : string) (f l : list pydict)
    (s : string) (st : state X) :
  new_dataset X v key f l (NormVal (PStr s)) st =
  match init_normalizer X v f l s (with_next_oid (S (next_oid st)) st) with
  | (Ok _, st') => (Ok (built v (next_oid st) key f l), st')
  | (Raise e, st') => (Raise e, st')
  end.
Proof.
  unfold new_dataset, bind, alloc, ret. simpl.
  destruct (init_normalizer X v f l s _) as [[u|e] st']; reflexivity.
Qed.

(** whatever the mode string, a constructed dataset carries no
    normalizer: [_init_normalizer] never assigns [self.normalizer] *)
Lemma new_dataset_str_normalizer (v : variant) (key : string)
    (f l : list pydict) (s : string) (st st' : state X) (ds : MDataset X) :
  new_dataset X v key f l (NormVal (PStr s)) st = (Ok ds, st') ->
  ds = built v (next_oid st) key f l.
Proof.
  rewrite new_dataset_str.
  destruct (init_normalizer X v f l s _) as [[u|e] st0]; congruence.
Qed.

Lemma getitem_without_normalizer (ds : MDataset X) (index : Z)
    (x y : pydict) :
  normalizer ds = None ->
  list_index (features ds) index = Ok x ->
  list_index (labels ds) index = Ok y ->
  getitem ds index = Ok (Dict.set "label" (PDict y) (dict_copy x)).
Proof.
  intros Hn Hx Hy. unfold getitem. rewrite Hx, Hy, Hn. reflexivity.
Qed.

Lemma getitem_out_of_range (ds : MDataset X) (index : Z) :
  (index < - Z.of_nat (len ds) \/ Z.of_nat (len ds) <= index)%Z ->
  getitem ds index = Raise IndexError.
Proof.
  intros H. unfold getitem.
  now rewrite (list_index_out_of_range (features ds) index H).
Qed.

Lemma getitem_in_range (ds : MDataset X) (index : Z) :
  length (labels ds) = length (features ds) ->
  normalizer ds = None ->
  (- Z.of_nat (len ds) <= index < Z.of_nat (len ds))%Z ->
  exists x y,
    nth_error (features ds) (position (len ds) index) = Some x
    /\ nth_error (labels ds) (position (len ds) index) = Some y
    /\ getitem ds index = Ok (Dict.set "label" (PDict y) (dict_copy x)).
Proof.
  intros Hlen Hn Hr. unfold len in *.
  destruct (list_index_in_range (features ds) index Hr) as [x [Hx Hix]].
  rewrite <- Hlen in Hr.
  destruct (list_index_in_range (labels ds) index Hr) as [y [Hy Hiy]].
  rewrite Hlen in Hy. exists x, y.
  auto using getitem_without_normalizer.
Qed.

(** C4 (as amended).  For every dataset, whatever its labels and
    whatever normalizer is attached, [get(index)] raises [IndexError] for
    every index below [-n] or from [n] on, [n] being the length: nothing
    is clamped.  On a dataset with as many labels as features and no
    normalizer attached (the state every string mode leaves) each index
    in [[-n, n)] returns the sample at its position, negative indices
    counting from the end.  With 8 samples the length is 8, [get(8)]
    fails, and on such a dataset [get(0)] to [get(7)] succeed. *)
Theorem getitem_index_range (ds : MDataset X) :
  (forall index : Z,
      (index < - Z.of_nat (len ds) \/ Z.of_nat (len ds) <= index)%Z ->
      getitem ds index = Raise IndexError)
  /\ (length (labels ds) = length (features ds) ->
      normalizer ds = None ->
      forall index : Z,
        (- Z.of_nat (len ds) <= index < Z.of_nat (len ds))%Z ->
        exists x y,
          nth_error (features ds) (position (len ds) index) = Some x
          /\ nth_error (labels ds) (position (len ds) index) = Some y
          /\ getitem ds index
             = Ok (Dict.set "label" (PDict y) (dict_copy x)))
  /\ (len ds = 8%nat ->
      getitem ds 8 = Raise IndexError
      /\ (length (labels ds) = length (features ds) ->
          normalizer ds = None ->
          forall index : Z, (0 <= index <= 7)%Z ->
                            exists item, getitem ds index = Ok item)).
Proof.
  split; [|split].
  - intros index. apply getitem_out_of_range.
  - intros Hlen Hn index. now apply getitem_in_range.
  - intros H8. split.
    + apply getitem_out_of_range. rewrite H8. lia.
    + intros Hlen Hn index Hi.
      destruct (getitem_in_range ds index Hlen Hn) as [x [y [_ [_ H]]]].
      * rewrite H8. lia.
      * eauto.
Qed.

(** C9. A [normalization] argument that is neither a [str] nor a callable
    makes the constructor raise [ValueError]; the state it leaves differs
    from the one it started in by the allocation of the object alone, so
    no scaler was fitted, and no dataset is returned. *)
Theorem new_dataset_rejects_other_normalization (v : variant)
    (key : string) (f l : list pydict) (o : pyval) (st : state X) :
  (forall s, o <> PStr s) ->
  new_dataset X v key f l (NormVal o) st
  = (Raise ValueError, with_next_oid (S (next_oid st)) st)
  /\ events (snd (new_dataset X v key f l (NormVal o) st))
     = events st.
Proof.
  intros Ho.
  assert (H : new_dataset X v key f l (NormVal o) st
              = (Raise ValueError, with_next_oid (S (next_oid st)) st)).
  { destruct o; try reflexivity. now contradiction (Ho s). }
  split; [exact H | now rewrite H].
Qed.

(** C2 (as amended). The min-max mode goes by the string ["MinMax"]:
    with it the constructor runs the variant's fitting routine on
    [MinMaxScaler] and, when that routine returns, yields the dataset.
    Every mode string other than ["MinMax"] and the two spellings
    ["Standard"] and ["standard"] of the standard mode, so ["min-max"]
    too, raises [ValueError] before anything is fitted. *)
Theorem new_dataset_mode_strings (v : variant) (key : string)
    (f l : list pydict) (s : string) (st : state X) :
  (s = "MinMax" ->
   new_dataset X v key f l (NormVal (PStr s)) st
   = match init_normalizer_impl X v f l MinMaxScaler
             (with_next_oid (S (next_oid st)) st) with
     | (Ok _, st') => (Ok (built v (next_oid st) key f l), st')
     | (Raise e, st') => (Raise e, st')
     end)
  /\ (s <> "Standard" -> s <> "standard" -> s <> "MinMax" ->
      new_dataset X v key f l (NormVal (PStr s)) st
      = (Raise ValueError, with_next_oid (S (next_oid st)) st)).
Proof.
  split.
  - intros ->. rewrite new_dataset_str. unfold init_normalizer. simpl.
    unfold bind, ret.
    destruct (init_normalizer_impl X v f l MinMaxScaler _) as [[nz|e] st'];
      reflexivity.
  - intros H1 _ H2. rewrite new_dataset_str. unfold init_normalizer.
    apply String.eqb_neq in H1, H2. now rewrite H1, H2.
Qed.

(** C1. What the code does for a dataset constructed with a string mode:
    the object carries no normalizer, whatever [_init_normalizer_impl]
    built, and [get(i)] returns the sample as it was stored, the feature
    entries copied and the label dict put under ["label"]; no transform is
    applied to it. *)
Theorem getitem_string_mode_returns_raw_sample (v : variant) (key : string)
    (f l : list pydict) (s : string) (st st' : state X) (ds : MDataset X) :
  new_dataset X v key f l (NormVal (PStr s)) st = (Ok ds, st') ->
  get_normalizer ds = None
  /\ forall (index : Z) (x y : pydict),
      list_index f index = Ok x ->
      list_index l index = Ok y ->
      getitem ds index = Ok (Dict.set "label" (PDict y) (dict_copy x)).
Proof.
  intros H. apply new_dataset_str_normalizer in H. subst ds.
  split; [reflexivity|].
  intros index x y Hx Hy. now apply getitem_without_normalizer.
Qed.

(** the flat mapping [get] returns: the label under ["label"], every
    other entry of the feature dict under its own key *)
Lemma raw_item_entries (x y : pydict) (k : string) :
  Dict.wf x ->
  Dict.get k (Dict.set "label" (PDict y) (dict_copy x))
  = if String.eqb k "label" then Some (PDict y) else Dict.get k x.
Proof.
  intros Hwf. rewrite (dict_copy_wf x Hwf).
  destruct (String.eqb k "label") eqn:E.
  - apply String.eqb_eq in E. subst. apply DictFacts.get_set_same.
  - apply String.eqb_neq in E. apply DictFacts.get_set_other. congruence.
Qed.

(** *** Keys of the scaler dictionaries *)

Lemma for_each_invariant {A B} (P : B -> Prop) (body : B -> A -> M X B)
    (l : list A) :
  (forall b a st b' st', P b -> body b a st = (Ok b', st') -> P b') ->
  forall acc st r st',
    P acc -> for_each X l body acc st = (Ok r, st') -> P r.
Proof.
  intros Hstep. induction l as [|a l IH]; intros acc st r st' Hacc Hrun.
  - simpl in Hrun. unfold ret in Hrun. now inversion Hrun; subst.
  - simpl in Hrun. unfold bind in Hrun.
    destruct (body acc a st) as [[b|e] st1] eqn:Hb; [|discriminate].
    eapply IH; [|exact Hrun]. eapply Hstep; eauto.
Qed.

(** a loop whose body enters the key it visits, and drops no key, covers
    the whole list when it ends *)
Lemma for_each_covers {B} (covered : string -> B -> Prop)
    (body : B -> string -> M X B) (l : list string) :
  (forall b a st b' st',
      body b a st = (Ok b', st') ->
      covered a b' /\ forall k, covered k b -> covered k b') ->
  forall acc st r st',
    for_each X l body acc st = (Ok r, st') ->
    (forall k, In k l -> covered k r)
    /\ (forall k, covered k acc -> covered k r).
Proof.
  intros Hstep. induction l as [|a l IH]; intros acc st r st' Hrun.
  - simpl in Hrun. unfold ret in Hrun. inversion Hrun; subst.
    split; [intros k []|auto].
  - simpl in Hrun. unfold bind in Hrun.
    destruct (body acc a st) as [[b|e] st1] eqn:Hb; [|discriminate].
    destruct (Hstep _ _ _ _ _ Hb) as [Ha Hkeep].
    destruct (IH _ _ _ _ Hrun) as [Hl Hacc].
    split; [|now auto].
    intros k [<-|Hin]; auto.
Qed.

(** the label-side builder enters every key of the first label dict *)
Lemma y_scaler_dict_covers (l : list pydict) (cls : scaler_class)
    (st st' : state X) (d : Dict.t (transform X)) :
  get_y_scaler_dict X l cls st = (Ok d, st') ->
  exists y_sample,
    list_index l 0 = Ok y_sample
    /\ forall k, In k (Dict.keys y_sample) -> In k (Dict.keys d).
Proof.
  unfold get_y_scaler_dict. unfold bind at 1. unfold lift at 1.
  destruct (list_index l 0) as [y_sample|e]; [|discriminate].
  intros Hrun. exists y_sample. split; [reflexivity|].
  eapply (for_each_covers (fun k b => In k (Dict.keys b))) in Hrun;
    [exact (proj1 Hrun)|].
  clear. intros b a st b' st' H.
  destruct (negb _).
  { unfold ret in H. inversion H; subst.
    split; [|intros k Hk]; apply DictFacts.keys_set; auto. }
  destruct (String.eqb a (Y_SUBGRAPH_FEAT (keys_of X))).
  { unfold bind, lift, ret in H.
    destruct (pool_values _ _ _); [|discriminate].
    destruct (fit_scaler X cls a0 st) as [[s|e] st1]; [|discriminate].
    inversion H; subst.
    split; [|intros k Hk]; apply DictFacts.keys_set; auto. }
  destruct (String.eqb a (Y_OP_FEAT (keys_of X))); [|discriminate].
  unfold bind, lift, ret in H.
  destruct (pool_elements _ _ _); [|discriminate].
  destruct (fit_scaler X cls a0 st) as [[s|e] st1]; [|discriminate].
  inversion H; subst.
  split; [|intros k Hk]; apply DictFacts.keys_set; auto.
Qed.

(** the per-subgraph variant enters every key of the first feature dict *)
Lemma subgraph_x_scaler_dict_covers (f l : list pydict)
    (cls : scaler_class) (st st' : state X) (nz : Normalizer X) :
  subgraph_init_normalizer_impl X f l cls st = (Ok nz, st') ->
  exists x_sample,
    list_index f 0 = Ok x_sample
    /\ forall k, In k (Dict.keys x_sample) ->
                 In k (Dict.keys (x_scaler_dict nz)).
Proof.
  unfold subgraph_init_normalizer_impl. unfold bind at 1. unfold lift at 1.
  destruct (list_index f 0) as [x_sample|e]; [|discriminate].
  unfold bind at 1.
  destruct (for_each X _ _ _ st) as [[[xsd pool]|e] st1] eqn:Hloop;
    [|discriminate].
  unfold bind, ret.
  destruct (get_y_scaler_dict X l cls st1) as [[ysd|e] st2]; [|discriminate].
  intros H. inversion H; subst. simpl.
  exists x_sample. split; [reflexivity|].
  eapply (for_each_covers (fun k b => In k (Dict.keys (fst b)))) in Hloop;
    [exact (proj1 Hloop)|].
  clear. intros [b pool] a st b' st' H.
  destruct (String.eqb a (X_SUBGRAPH_FEAT (keys_of X))) eqn:Ea; simpl in H.
  - apply String.eqb_eq in Ea. subst a.
    unfold bind, lift, ret in H.
    destruct (pool_elements _ _ _); [|discriminate].
    destruct (fit_scaler X cls a st) as [[s|e] st1]; [|discriminate].
    inversion H; subst. simpl.
    split; [|intros k Hk]; apply DictFacts.keys_set; auto.
  - unfold ret in H. inversion H; subst. simpl.
    split; [|intros k Hk]; apply DictFacts.keys_set; auto.
Qed.

(** the per-operator variant enters every key of the first feature dict
    but [X_OP_FEAT], in whose place it enters [X_SUBGRAPH_FEAT] *)
Lemma op_x_scaler_dict_covers (f l : list pydict)
    (cls : scaler_class) (st st' : state X) (nz : Normalizer X) :
  op_init_normalizer_impl X f l cls st = (Ok nz, st') ->
  exists x_sample,
    list_index f 0 = Ok x_sample
    /\ forall k, In k (Dict.keys x_sample) ->
                 k <> X_OP_FEAT (keys_of X) ->
                 In k (Dict.keys (x_scaler_dict nz)).
Proof.
  unfold op_init_normalizer_impl. unfold bind at 1. unfold lift at 1.
  destruct (list_index f 0) as [x_sample|e]; [|discriminate].
  unfold bind at 1.
  destruct (for_each X _ _ _ st) as [[[xsd pool]|e] st1] eqn:Hloop;
    [|discriminate].
  unfold bind, ret.
  destruct (get_y_scaler_dict X l cls st1) as [[ysd|e] st2]; [|discriminate].
  intros H. inversion H; subst. simpl.
  exists x_sample. split; [reflexivity|].
  eapply (for_each_covers
            (fun k b => k <> X_OP_FEAT (keys_of X)
                        -> In k (Dict.keys (fst b)))) in Hloop;
    [exact (proj1 Hloop)|].
  clear. intros [b pool] a st b' st' H.
  destruct (String.eqb a (X_OP_FEAT (keys_of X))) eqn:Ea; simpl in H.
  - apply String.eqb_eq in Ea. subst a.
    unfold bind, lift, ret in H.
    destruct (pool_values _ _ _); [|discriminate].
    destruct (fit_scaler X cls a st) as [[s|e] st1]; [|discriminate].
    inversion H; subst. simpl.
    split; [congruence|].
    intros k Hk Hne. apply DictFacts.keys_set. auto.
  - unfold ret in H. inversion H; subst. simpl.
    split; [|intros k Hk]; intros Hne; apply DictFacts.keys_set; auto.
Qed.

(** C3. What the per-operator variant does with the operator-feature
    key: it stores the scaler fitted on the [X_OP_FEAT] values under
    [X_SUBGRAPH_FEAT], so that whenever the two keys differ the X
    mapping of the [Normalizer] it returns has no entry for
    [X_OP_FEAT]. *)
Theorem op_scaler_dict_lacks_operator_key (f l : list pydict)
    (cls : scaler_class) (st st' : state X) (nz : Normalizer X) :
  X_OP_FEAT (keys_of X) <> X_SUBGRAPH_FEAT (keys_of X) ->
  init_normalizer_impl X OPDataset f l cls st = (Ok nz, st') ->
  Dict.get (X_OP_FEAT (keys_of X)) (x_scaler_dict nz) = None.
Proof.
  intros Hkeys. simpl.
  unfold op_init_normalizer_impl. unfold bind at 1. unfold lift at 1.
  destruct (list_index f 0) as [x_sample|e]; [|discriminate].
  unfold bind at 1.
  destruct (for_each X _ _ _ st) as [[[xsd pool]|e] st1] eqn:Hloop;
    [|discriminate].
  unfold bind, ret.
  destruct (get_y_scaler_dict X l cls st1) as [[ysd|e] st2]; [|discriminate].
  intros H. inversion H; subst. simpl.
  eapply (for_each_invariant
            (fun b => Dict.get (X_OP_FEAT (keys_of X)) (fst b) = None))
    in Hloop; [exact Hloop| |reflexivity].
  clear - Hkeys. intros [b pool] a st [b' pool'] st' Hb H. simpl in *.
  destruct (String.eqb a (X_OP_FEAT (keys_of X))) eqn:Ea; simpl in H.
  - unfold bind, lift, ret in H.
    destruct (pool_values _ _ _); [|discriminate].
    destruct (fit_scaler X cls a0 st) as [[s|e] st1]; [|discriminate].
    inversion H; subst.
    rewrite DictFacts.get_set_other; [exact Hb | congruence].
  - unfold ret in H. inversion H; subst.
    apply String.eqb_neq in Ea.
    rewrite DictFacts.get_set_other; [exact Hb | exact Ea].
Qed.

End DatasetFacts.

(** ** The collator *)

(** the entries a batch dictionary holds under [k] so far *)
Definition entries (k : string) (d : Dict.t bval) : list pyval :=
  match Dict.get k d with
  | Some (BList l) => l
  | _ => []
  end.

(** a dictionary all of whose values are lists *)
Definition lists (d : Dict.t bval) : Prop :=
  forall k v, Dict.get k d = Some v -> exists l, v = BList l.

(** the nested dictionary a batch holds under ["labels"] so far *)
Definition labels_dict (b : Dict.t bval) : Dict.t bval :=
  match Dict.get "labels" b with
  | Some (BDict ld) => ld
  | _ => []
  end.

(** the shape of the batch while the first loop of the collator runs *)
Definition raw (b : Dict.t bval) : Prop :=
  (forall k v, Dict.get k b = Some v -> k <> "labels" -> exists l, v = BList l)
  /\ (forall v, Dict.get "labels" b = Some v ->
                exists ld, v = BDict ld /\ lists ld)
  /\ Dict.get "label" b = None.

(** a sample the collator accepts: a well-formed dict that does not use
    ["labels"] as a feature key and whose ["label"] entry is a dict *)
Definition sample_ok (s : pydict) : Prop :=
  Dict.wf s
  /\ Dict.get "labels" s = None
  /\ forall v, Dict.get "label" s = Some v ->
               exists ld, v = PDict ld /\ Dict.wf ld.

(** the label dict of a sample holds [v] under [vk] *)
Definition label_entry (vk : string) (s : pydict) (v : pyval) : Prop :=
  exists ld, Dict.get "label" s = Some (PDict ld) /\ Dict.get vk ld = Some v.

(** the values the samples that have the key [k] hold under it, in input
    order *)
Definition column (k : string) (samples : list pydict) : list pyval :=
  flat_map (fun s => match Dict.get k s with
                     | Some v => [v]
                     | None => []
                     end) samples.

(** the value the label dict of a sample holds under [vk], if any *)
Definition label_value (vk : string) (s : pydict) : option pyval :=
  match Dict.get "label" s with
  | Some (PDict ld) => Dict.get vk ld
  | _ => None
  end.

Definition label_column (vk : string) (samples : list pydict) : list pyval :=
  flat_map (fun s => match label_value vk s with
                     | Some v => [v]
                     | None => []
                     end) samples.

(** the dictionary a returned batch holds under ["labels"] *)
Definition batch_labels {X : externals} (batch : Dict.t (cval X))
  : Dict.t (cval X) :=
  match Dict.get "labels" batch with
  | Some (CDict ld) => ld
  | _ => []
  end.

Section CollatorFacts.

Variable X : externals.

Lemma set_set {V} (k : string) (v1 v2 : V) (d : Dict.t V) :
  Dict.set k v2 (Dict.set k v1 d) = Dict.set k v2 d.
Proof.
  induction d as [|[k' v'] r IH]; simpl.
  - now rewrite String.eqb_refl.
  - destruct (String.eqb k' k) eqn:E; simpl.
    + now rewrite String.eqb_refl.
    + now rewrite E, IH.
Qed.

Lemma batch_append_spec (k : string) (v : pyval) (d : Dict.t bval) :
  (forall x, Dict.get k d = Some x -> exists l, x = BList l) ->
  exists d',
    batch_append k v d = Ok d'
    /\ Dict.get k d' = Some (BList (entries k d ++ [v]))
    /\ forall k', k' <> k -> Dict.get k' d' = Dict.get k' d.
Proof.
  intros Hk. unfold batch_append, Dict.setdefault, entries.
  destruct (Dict.get k d) as [x|] eqn:E.
  - destruct (Hk x eq_refl) as [l ->]. rewrite E.
    eexists. split; [reflexivity|]. split.
    + apply DictFacts.get_set_same.
    + intros k' Hne. apply DictFacts.get_set_other. congruence.
  - rewrite DictFacts.get_set_same, set_set.
    eexists. split; [reflexivity|]. split.
    + apply DictFacts.get_set_same.
    + intros k' Hne. apply DictFacts.get_set_other. congruence.
Qed.

Lemma get_cons_other {V} (k k0 : string) (v0 : V) (r : Dict.t V) :
  k0 <> k -> Dict.get k ((k0, v0) :: r) = Dict.get k r.
Proof. intros H. simpl. apply String.eqb_neq in H. now rewrite H. Qed.

Lemma get_cons_same {V} (k : string) (v0 : V) (r : Dict.t V) :
  Dict.get k ((k, v0) :: r) = Some v0.
Proof. simpl. now rewrite String.eqb_refl. Qed.

(** the loop over the entries of one label dict, seen on the nested
    dictionary alone *)
Lemma append_all_spec (items : pydict) :
  forall d : Dict.t bval,
    Dict.wf items -> lists d ->
    exists d',
      rfold items (fun d kv => batch_append (fst kv) (snd kv) d) d = Ok d'
      /\ lists d'
      /\ forall k, Dict.get k d'
                   = match Dict.get k items with
                     | Some v => Some (BList (entries k d ++ [v]))
                     | None => Dict.get k d
                     end.
Proof.
  induction items as [|[k0 v0] r IH]; intros d Hwf Hl.
  - exists d. simpl. auto.
  - inversion Hwf as [|? ? Hnot Hwf']; subst.
    destruct (batch_append_spec k0 v0 d (Hl k0)) as [d1 [H1 [Hk0 Hoth]]].
    assert (Hl1 : lists d1).
    { intros k v Hv. destruct (String.string_dec k k0) as [->|Hne].
      - rewrite Hk0 in Hv. inversion Hv. eauto.
      - rewrite Hoth in Hv by exact Hne. eauto. }
    destruct (IH d1 Hwf' Hl1) as [d' [Hrun [Hl' Hget]]].
    exists d'. split; [simpl; rewrite H1; exact Hrun|].
    split; [exact Hl'|].
    intros k. rewrite Hget.
    destruct (String.string_dec k0 k) as [->|Hne].
    + rewrite get_cons_same.
      apply DictFacts.get_none_not_in in Hnot. now rewrite Hnot.
    + rewrite get_cons_other by exact Hne.
      unfold entries. rewrite Hoth by congruence. reflexivity.
Qed.

(** the same loop as the collator runs it, through [batch["labels"]] *)
Lemma labels_append_all (items : pydict) :
  forall (b ld : Dict.t bval),
    Dict.get "labels" b = Some (BDict ld) ->
    rfold items labels_append b
    = rbind (rfold items (fun d kv => batch_append (fst kv) (snd kv) d) ld)
        (fun ld' => Ok (Dict.set "labels" (BDict ld') b)).
Proof.
  induction items as [|kv r IH]; intros b ld Hb; simpl.
  - now rewrite DictFacts.set_same_value.
  - unfold labels_append at 1. rewrite Hb.
    destruct (batch_append (fst kv) (snd kv) ld) as [ld1|e]; simpl;
      [|reflexivity].
    rewrite (IH _ ld1) by apply DictFacts.get_set_same.
    destruct (rfold r _ ld1); simpl; [|reflexivity].
    now rewrite set_set.
Qed.

Lemma entries_eq (k : string) (b b' : Dict.t bval) :
  Dict.get k b' = Dict.get k b -> entries k b' = entries k b.
Proof. unfold entries. now intros ->. Qed.

Lemma labels_dict_eq (b b' : Dict.t bval) :
  Dict.get "labels" b' = Dict.get "labels" b ->
  labels_dict b' = labels_dict b.
Proof. unfold labels_dict. now intros ->. Qed.

(** what the ["label"] entry of a sample does to the batch *)
Lemma collate_label_spec (ld : pydict) (b : Dict.t bval) :
  Dict.wf ld -> raw b ->
  exists b' bl',
    collate_item b ("label", PDict ld) = Ok b'
    /\ raw b'
    /\ (forall k, k <> "labels" -> Dict.get k b' = Dict.get k b)
    /\ Dict.get "labels" b' = Some (BDict bl')
    /\ forall vk, Dict.get vk bl'
                  = match Dict.get vk ld with
                    | Some x => Some (BList (entries vk (labels_dict b) ++ [x]))
                    | None => Dict.get vk (labels_dict b)
                    end.
Proof.
  intros Hwf [Hlists [Hlab Hnone]].
  unfold collate_item. simpl fst. simpl snd.
  rewrite String.eqb_refl.
  set (b1 := Dict.setdefault "labels" (BDict []) b).
  assert (H1 : Dict.get "labels" b1 = Some (BDict (labels_dict b))
               /\ lists (labels_dict b)
               /\ forall k, k <> "labels" -> Dict.get k b1 = Dict.get k b).
  { subst b1. unfold Dict.setdefault, labels_dict.
    destruct (Dict.get "labels" b) as [v|] eqn:E.
    - destruct (Hlab v eq_refl) as [ld0 [-> Hl0]]. rewrite E. auto.
    - rewrite DictFacts.get_set_same. split; [reflexivity|].
      split; [intros k v Hv; discriminate|].
      intros k Hk. apply DictFacts.get_set_other. congruence. }
  destruct H1 as [Hb1 [Hl0 Hoth1]].
  rewrite (labels_append_all ld b1 _ Hb1).
  destruct (append_all_spec ld (labels_dict b) Hwf Hl0)
    as [bl' [Hrun [Hl' Hget]]].
  rewrite Hrun. simpl.
  exists (Dict.set "labels" (BDict bl') b1), bl'.
  split; [reflexivity|].
  assert (Hoth : forall k, k <> "labels" ->
                   Dict.get k (Dict.set "labels" (BDict bl') b1)
                   = Dict.get k b).
  { intros k Hk. rewrite DictFacts.get_set_other by congruence. auto. }
  split; [|split; [exact Hoth|split; [apply DictFacts.get_set_same|exact Hget]]].
  split; [|split].
  - intros k v Hv Hk. rewrite Hoth in Hv by exact Hk. eauto.
  - intros v Hv. rewrite DictFacts.get_set_same in Hv.
    inversion Hv; subst. eauto.
  - rewrite Hoth by discriminate. exact Hnone.
Qed.

(** what any other entry of a sample does to the batch *)
Lemma collate_feature_spec (k0 : string) (v0 : pyval) (b : Dict.t bval) :
  k0 <> "label" -> k0 <> "labels" -> raw b ->
  exists b',
    collate_item b (k0, v0) = Ok b'
    /\ raw b'
    /\ Dict.get k0 b' = Some (BList (entries k0 b ++ [v0]))
    /\ forall k, k <> k0 -> Dict.get k b' = Dict.get k b.
Proof.
  intros Hk0 Hk0' [Hlists [Hlab Hnone]].
  unfold collate_item. simpl fst. simpl snd.
  apply String.eqb_neq in Hk0. rewrite Hk0. apply String.eqb_neq in Hk0.
  destruct (batch_append_spec k0 v0 b) as [b' [Hrun [Hget Hoth]]].
  { intros x Hx. eauto. }
  exists b'. split; [exact Hrun|]. split; [|auto].
  split; [|split].
  - intros k v Hv Hk. destruct (String.string_dec k k0) as [->|Hne].
    + rewrite Hget in Hv. inversion Hv. eauto.
    + rewrite Hoth in Hv by exact Hne. eauto.
  - intros v Hv. rewrite Hoth in Hv by congruence. auto.
  - rewrite Hoth by congruence. exact Hnone.
Qed.

(** one sample: every feature entry lands at the end of the list under
    its key, every label entry at the end of the list under its key in
    the nested dictionary, and nothing else changes *)
Lemma collate_sample_spec (items : pydict) :
  forall b : Dict.t bval,
    sample_ok items -> raw b ->
    exists b',
      collate_sample b items = Ok b'
      /\ raw b'
      /\ (forall k, k <> "label" -> k <> "labels" ->
                    Dict.get k b'
                    = match Dict.get k items with
                      | Some v => Some (BList (entries k b ++ [v]))
                      | None => Dict.get k b
                      end)
      /\ match Dict.get "label" items with
         | Some v =>
             exists ld bl',
               v = PDict ld
               /\ Dict.get "labels" b' = Some (BDict bl')
               /\ forall vk,
                   Dict.get vk bl'
                   = match Dict.get vk ld with
                     | Some x =>
                         Some (BList (entries vk (labels_dict b) ++ [x]))
                     | None => Dict.get vk (labels_dict b)
                     end
         | None => Dict.get "labels" b' = Dict.get "labels" b
         end.
Proof.
  unfold collate_sample, sample_ok.
  induction items as [|[k0 v0] r IH]; intros b [Hwf [Hnl Hlab]] Hraw.
  - exists b. simpl. auto.
  - inversion Hwf as [|? ? Hnot Hwf']; subst.
    assert (Hk0 : k0 <> "labels").
    { intros ->. rewrite get_cons_same in Hnl. discriminate. }
    rewrite get_cons_other in Hnl by exact Hk0.
    apply DictFacts.get_none_not_in in Hnot.
    destruct (String.string_dec k0 "label") as [->|Hne].
    + rewrite get_cons_same in *.
      destruct (Hlab v0 eq_refl) as [ld [-> Hwfld]].
      destruct (collate_label_spec ld b Hwfld Hraw)
        as [b1 [bl' [Hrun [Hraw1 [Hoth [Hget Hbl]]]]]].
      destruct (IH b1) as [b' [Hrun' [Hraw' [Hfeat Hlabels]]]];
        [split; [exact Hwf'|split; [exact Hnl|]]|exact Hraw1|].
      { intros v Hv. rewrite Hnot in Hv. discriminate. }
      rewrite Hnot in Hlabels.
      exists b'. split; [simpl rfold; rewrite Hrun; exact Hrun'|].
      split; [exact Hraw'|]. split.
      * intros k Hk Hk'. rewrite Hfeat by assumption.
        rewrite get_cons_other by congruence.
        rewrite (entries_eq k b b1) by auto. now rewrite Hoth.
      * exists ld, bl'. split; [reflexivity|]. split; [congruence|exact Hbl].
    + rewrite get_cons_other in * by exact Hne.
      destruct (collate_feature_spec k0 v0 b Hne Hk0 Hraw)
        as [b1 [Hrun [Hraw1 [Hget Hoth]]]].
      destruct (IH b1) as [b' [Hrun' [Hraw' [Hfeat Hlabels]]]];
        [split; [exact Hwf'|split; [exact Hnl|exact Hlab]]|exact Hraw1|].
      exists b'. split; [simpl rfold; rewrite Hrun; exact Hrun'|].
      split; [exact Hraw'|]. split.
      * intros k Hk Hk'. rewrite Hfeat by assumption.
        destruct (String.string_dec k0 k) as [->|Hne'].
        -- rewrite get_cons_same, Hnot. exact Hget.
        -- rewrite get_cons_other by exact Hne'.
           rewrite (entries_eq k b b1) by (apply Hoth; congruence).
           rewrite Hoth by congruence. reflexivity.
      * rewrite (labels_dict_eq b b1) in Hlabels by (apply Hoth; congruence).
        rewrite Hoth in Hlabels by congruence. exact Hlabels.
Qed.

Lemma raw_empty : raw [].
Proof.
  split; [|split]; try reflexivity; intros; discriminate.
Qed.

(** the first loop, column by column *)
Lemma collate_all_columns (samples : list pydict) :
  forall b : Dict.t bval,
    Forall sample_ok samples -> raw b ->
    exists b',
      rfold samples collate_sample b = Ok b'
      /\ raw b'
      /\ (forall k, k <> "label" -> k <> "labels" ->
                    Dict.get k b'
                    = match column k samples with
                      | [] => Dict.get k b
                      | vs => Some (BList (entries k b ++ vs))
                      end)
      /\ (forall vk,
             Dict.get vk (labels_dict b')
             = match label_column vk samples with
               | [] => Dict.get vk (labels_dict b)
               | vs => Some (BList (entries vk (labels_dict b) ++ vs))
               end).
Proof.
  induction samples as [|s r IH]; intros b Hok Hraw.
  - exists b. simpl. auto.
  - inversion Hok as [|? ? Hs Hr]; subst.
    destruct (collate_sample_spec s b Hs Hraw)
      as [b1 [Hrun1 [Hraw1 [Hfeat Hlab]]]].
    destruct (IH b1 Hr Hraw1) as [b' [Hrun [Hraw' [HF HL]]]].
    exists b'. split; [simpl; rewrite Hrun1; exact Hrun|].
    split; [exact Hraw'|]. split.
    + intros k Hk Hk'. rewrite (HF k Hk Hk'). specialize (Hfeat k Hk Hk').
      unfold column at 2. cbn [flat_map]. fold (column k r).
      destruct (Dict.get k s) as [v|] eqn:Ev.
      * unfold entries at 1. rewrite Hfeat. cbn [app].
        destruct (column k r) as [|v' vs]; [reflexivity|].
        now rewrite <- app_assoc.
      * cbn [app]. unfold entries at 1. now rewrite Hfeat.
    + intros vk. rewrite (HL vk).
      unfold label_column at 2. cbn [flat_map]. fold (label_column vk r).
      assert (H1 : Dict.get vk (labels_dict b1)
                   = match label_value vk s with
                     | Some x => Some (BList (entries vk (labels_dict b) ++ [x]))
                     | None => Dict.get vk (labels_dict b)
                     end).
      { unfold label_value. destruct (Dict.get "label" s) as [v|].
        - destruct Hlab as [ld [bl' [-> [Hb1 Hbl]]]].
          unfold labels_dict at 1. rewrite Hb1. apply Hbl.
        - now rewrite (labels_dict_eq b b1 Hlab). }
      destruct (label_value vk s) as [x|].
      * unfold entries at 1. rewrite H1. cbn [app].
        destruct (label_column vk r) as [|v' vs]; [reflexivity|].
        now rewrite <- app_assoc.
      * cbn [app]. unfold entries at 1. now rewrite H1.
Qed.

(** *** The batch stays a dictionary: no key twice, at either level *)

Lemma set_wf {V} (k : string) (v : V) (d : Dict.t V) :
  Dict.wf d -> Dict.wf (Dict.set k v d).
Proof.
  unfold Dict.wf. induction d as [|[k0 v0] r IH]; simpl; intros Hwf.
  - repeat constructor. intros [].
  - inversion Hwf as [|? ? Hnot Hr]; subst.
    destruct (String.eqb k0 k) eqn:E; simpl.
    + apply String.eqb_eq in E. subst. now constructor.
    + constructor; [|now apply IH].
      intros Hin. apply (DictFacts.keys_set k k0 v r) in Hin.
      apply String.eqb_neq in E. destruct Hin; congruence.
Qed.

Lemma setdefault_wf {V} (k : string) (v : V) (d : Dict.t V) :
  Dict.wf d -> Dict.wf (Dict.setdefault k v d).
Proof.
  intros Hwf. unfold Dict.setdefault.
  destruct (Dict.get k d); [exact Hwf|now apply set_wf].
Qed.

Lemma in_wf_get {V} (k : string) (v : V) (d : Dict.t V) :
  Dict.wf d -> In (k, v) d -> Dict.get k d = Some v.
Proof.
  unfold Dict.wf. induction d as [|[k0 v0] r IH]; simpl; intros Hwf Hin.
  - destruct Hin.
  - inversion Hwf as [|? ? Hnot Hr]; subst. destruct Hin as [Heq|Hin].
    + inversion Heq; subst. now rewrite String.eqb_refl.
    + destruct (String.eqb k0 k) eqn:E; [|now apply IH].
      apply String.eqb_eq in E. subst. exfalso. apply Hnot.
      apply in_map_iff. now exists (k, v).
Qed.

(** the batch and the dictionary under ["labels"] hold no key twice *)
Definition tidy (b : Dict.t bval) : Prop :=
  Dict.wf b /\ forall ld, Dict.get "labels" b = Some (BDict ld) -> Dict.wf ld.

Lemma rfold_invariant {A B} (P : B -> Prop) (body : B -> A -> result B)
    (l : list A) :
  (forall b a b', P b -> body b a = Ok b' -> P b') ->
  forall b b', P b -> rfold l body b = Ok b' -> P b'.
Proof.
  intros Hbody. induction l as [|a l IH]; intros b b' Hb H; simpl in H.
  - now inversion H; subst.
  - destruct (body b a) as [b1|e] eqn:E; simpl in H; [|discriminate].
    eapply IH; [eapply Hbody; eassumption|exact H].
Qed.

Lemma batch_append_result (k : string) (v : pyval) (d d' : Dict.t bval) :
  batch_append k v d = Ok d' ->
  (Dict.wf d -> Dict.wf d')
  /\ (exists l, Dict.get k d' = Some (BList l))
  /\ forall k', k' <> k -> Dict.get k' d' = Dict.get k' d.
Proof.
  unfold batch_append.
  destruct (Dict.get k (Dict.setdefault k (BList []) d)) as [[l|dd]|];
    intros H; inversion H; subst; clear H.
  split; [|split].
  - intros Hwf. now apply set_wf, setdefault_wf.
  - eexists. apply DictFacts.get_set_same.
  - intros k' Hne. rewrite DictFacts.get_set_other by congruence.
    unfold Dict.setdefault. destruct (Dict.get k d); [reflexivity|].
    apply DictFacts.get_set_other. congruence.
Qed.

Lemma labels_append_tidy (b : Dict.t bval) (kv : string * pyval)
    (b' : Dict.t bval) :
  tidy b -> labels_append b kv = Ok b' -> tidy b'.
Proof.
  intros [Hwf Hld]. unfold labels_append.
  destruct (Dict.get "labels" b) as [[l|ld]|] eqn:E; try discriminate.
  destruct (batch_append (fst kv) (snd kv) ld) as [ld'|e] eqn:Eb; simpl;
    [|discriminate].
  intros H. inversion H; subst. split; [now apply set_wf|].
  intros ld0 H0. rewrite DictFacts.get_set_same in H0. inversion H0; subst.
  apply (proj1 (batch_append_result _ _ _ _ Eb)). now apply Hld.
Qed.

Lemma collate_item_tidy (b : Dict.t bval) (kv : string * pyval)
    (b' : Dict.t bval) :
  tidy b -> collate_item b kv = Ok b' -> tidy b'.
Proof.
  intros Ht. unfold collate_item.
  destruct (String.eqb (fst kv) "label") eqn:Ek.
  - destruct (snd kv) as [| | | |ld]; try discriminate.
    apply (rfold_invariant tidy labels_append ld labels_append_tidy).
    unfold Dict.setdefault.
    destruct (Dict.get "labels" b) eqn:E; [exact Ht|].
    destruct Ht as [Hwf Hld].
    split; [now apply set_wf|].
    intros ld0 H0. rewrite DictFacts.get_set_same in H0.
    inversion H0; subst. constructor.
  - intros H. destruct (batch_append_result _ _ _ _ H) as [Hw [[l Hl] Ho]].
    destruct Ht as [Hwf Hld]. split; [now apply Hw|].
    intros ld H0. destruct (String.string_dec "labels" (fst kv)) as [Heq|Hne].
    + rewrite <- Heq in Hl. congruence.
    + rewrite Ho in H0 by exact Hne. now apply Hld.
Qed.

Lemma collate_all_tidy (samples : list pydict) (b : Dict.t bval) :
  rfold samples collate_sample [] = Ok b -> tidy b.
Proof.
  apply (rfold_invariant tidy collate_sample samples).
  - intros b0 s b'. unfold collate_sample.
    apply (rfold_invariant tidy collate_item s collate_item_tidy).
  - split; [constructor|]. intros ld H. discriminate H.
Qed.

(** *** The conversion pass *)

(** numpy and torch accept the list [l] collected under the key [k]:
    [np.array(l)] returns, and when the key ends with the suffix so does
    [torch.tensor] on the array *)
Definition accepts (k : string) (l : list pyval) : Prop :=
  exists a, np_array X l = Ok a
            /\ (endswith k (FEAT_SUFFIX (keys_of X)) = true ->
                exists t, torch_tensor X a = Ok t).

(** [v] is the leaf the conversion pass leaves under [k] for the list [l]:
    the float tensor made of [np.array(l)] when the key ends with the
    suffix, [np.array(l)] itself when it does not *)
Definition leaf_of (k : string) (l : list pyval) (v : cval X) : Prop :=
  exists a, np_array X l = Ok a
            /\ if endswith k (FEAT_SUFFIX (keys_of X))
               then exists t, torch_tensor X a = Ok t /\ v = CTensor t
               else v = CArray a.

(** numpy and torch accept every container the first loop collects *)
Definition convertible (samples : list pydict) : Prop :=
  (forall k, k <> "label" -> column k samples <> [] ->
             accepts k (column k samples))
  /\ (forall vk, label_column vk samples <> [] ->
                 accepts vk (label_column vk samples)).

Lemma convert_ok (k : string) (l : list pyval) (v : cval X) :
  convert X k l = Ok v <-> leaf_of k l v.
Proof.
  unfold convert, leaf_of. split.
  - destruct (np_array X l) as [a|e]; simpl; [|discriminate].
    intros H. exists a. split; [reflexivity|].
    destruct (endswith k (FEAT_SUFFIX (keys_of X))); simpl in H.
    + destruct (torch_tensor X a) as [t|e]; simpl in H; [|discriminate].
      inversion H. eauto.
    + now inversion H.
  - intros [a [-> H]]. simpl.
    destruct (endswith k (FEAT_SUFFIX (keys_of X))); simpl.
    + destruct H as [t [-> ->]]. reflexivity.
    + now subst.
Qed.

Lemma accepts_convert (k : string) (l : list pyval) :
  accepts k l <-> exists v, convert X k l = Ok v.
Proof.
  split.
  - intros [a [Ha Ht]]. unfold convert. rewrite Ha. simpl.
    destruct (endswith k (FEAT_SUFFIX (keys_of X))); simpl; [|eauto].
    destruct (Ht eq_refl) as [t ->]. simpl. eauto.
  - intros [v Hv]. apply convert_ok in Hv. destruct Hv as [a [Ha H]].
    exists a. split; [exact Ha|]. intros E. rewrite E in H.
    destruct H as [t [Ht _]]. eauto.
Qed.

Lemma make_tensor_val_dict (k : string) (d : Dict.t bval) :
  make_tensor_val X k (BDict d)
  = rbind (make_tensor X d) (fun d' => Ok (CDict d')).
Proof.
  cbn [make_tensor_val].
  assert (H : forall r : list (string * bval),
             (fix each (d0 : list (string * bval))
                : result (list (string * cval X)) :=
                match d0 with
                | [] => Ok []
                | (k', v') :: r0 =>
                    rbind (make_tensor_val X k' v') (fun c =>
                    rbind (each r0) (fun r' => Ok ((k', c) :: r')))
                end) r = make_tensor X r).
  { induction r as [|[k' v'] r IH]; [reflexivity|].
    cbn [make_tensor]. now rewrite <- IH. }
  now rewrite H.
Qed.

(** a conversion pass that returns kept every key in its place and
    replaced every value by its conversion *)
Lemma make_tensor_get (d : Dict.t bval) :
  forall d',
    make_tensor X d = Ok d' ->
    Dict.keys d' = Dict.keys d
    /\ forall k,
        match Dict.get k d with
        | Some v => exists c, make_tensor_val X k v = Ok c
                              /\ Dict.get k d' = Some c
        | None => Dict.get k d' = None
        end.
Proof.
  induction d as [|[k0 v0] r IH]; intros d' H.
  - inversion H. split; [reflexivity|]. intros k. reflexivity.
  - cbn [make_tensor] in H.
    destruct (make_tensor_val X k0 v0) as [c0|e] eqn:E0; cbn [rbind] in H;
      [|discriminate].
    destruct (make_tensor X r) as [r'|e] eqn:Er; cbn [rbind] in H;
      [|discriminate].
    inversion H; subst d'. destruct (IH r' eq_refl) as [Hk Hg].
    split; [simpl; now rewrite Hk|].
    intros k. cbn [Dict.get]. destruct (String.eqb k0 k) eqn:Ek.
    + apply String.eqb_eq in Ek. subst k. eauto.
    + apply Hg.
Qed.

(** the pass returns when every entry converts *)
Lemma make_tensor_returns (d : Dict.t bval) :
  (forall k v, In (k, v) d -> exists c, make_tensor_val X k v = Ok c) ->
  exists d', make_tensor X d = Ok d'.
Proof.
  induction d as [|[k0 v0] r IH]; intros H; cbn [make_tensor].
  - eauto.
  - destruct (H k0 v0 (or_introl eq_refl)) as [c ->]. cbn [rbind].
    destruct IH as [r' ->]; [intros k v Hin; apply H; now right|].
    cbn [rbind]. eauto.
Qed.

(** an exception of the conversion pass is one [np.array] or
    [torch.tensor] raised *)
Definition library_error (e : exn) : Prop :=
  (exists l, np_array X l = Raise e)
  \/ (exists a, torch_tensor X a = Raise e).

Lemma convert_raise (k : string) (l : list pyval) (e : exn) :
  convert X k l = Raise e -> library_error e.
Proof.
  unfold convert. destruct (np_array X l) as [a|e0] eqn:Ea; cbn [rbind].
  - destruct (negb (endswith k (FEAT_SUFFIX (keys_of X)))); [discriminate|].
    destruct (torch_tensor X a) as [t|e1] eqn:Et; cbn [rbind];
      [discriminate|].
    intros H. inversion H; subst. right. eauto.
  - intros H. inversion H; subst. left. eauto.
Qed.

Lemma make_tensor_raise :
  forall (d : Dict.t bval) (e : exn),
    make_tensor X d = Raise e -> library_error e.
Proof.
  assert (Hval : forall (v : bval) (k : string) (e : exn),
             make_tensor_val X k v = Raise e -> library_error e).
  { fix IH 1. intros [l|d] k e.
    - apply convert_raise.
    - rewrite make_tensor_val_dict.
      destruct (make_tensor X d) as [d'|e'] eqn:Ed; cbn [rbind];
        [discriminate|].
      intros H. inversion H; subst. clear H. revert e Ed.
      induction d as [|[k0 v0] r IHr]; intros e Ed; cbn [make_tensor] in Ed.
      + discriminate.
      + destruct (make_tensor_val X k0 v0) as [c|e0] eqn:E0; cbn [rbind] in Ed.
        * destruct (make_tensor X r) as [r'|e1] eqn:Er; cbn [rbind] in Ed;
            [discriminate|].
          inversion Ed; subst. now apply IHr.
        * inversion Ed; subst. exact (IH v0 k0 e E0). }
  intros d e. induction d as [|[k0 v0] r IHr]; cbn [make_tensor]; intros Ed.
  - discriminate.
  - destruct (make_tensor_val X k0 v0) as [c|e0] eqn:E0; cbn [rbind] in Ed.
    + destruct (make_tensor X r) as [r'|e1] eqn:Er; cbn [rbind] in Ed;
        [discriminate|].
      inversion Ed; subst. now apply IHr.
    + inversion Ed; subst. exact (Hval v0 k0 e E0).
Qed.

(** every leaf of [v], stored under [k], is a tensor when its key ends
    with the suffix and an array when it does not, at every depth *)
Fixpoint converted (k : string) (v : cval X) : Prop :=
  match v with
  | CDict d =>
      (fix all (d : list (string * cval X)) : Prop :=
         match d with
         | [] => True
         | (k', v') :: r => converted k' v' /\ all r
         end) d
  | CTensor _ => endswith k (FEAT_SUFFIX (keys_of X)) = true
  | CArray _ => endswith k (FEAT_SUFFIX (keys_of X)) = false
  end.

Lemma converted_dict (k : string) (d : list (string * cval X)) :
  (forall k' v', In (k', v') d -> converted k' v') -> converted k (CDict d).
Proof.
  cbn [converted]. induction d as [|[k0 v0] r IH]; intros H; [exact I|].
  split; [apply H; now left|]. apply IH. intros k' v' Hin. apply H. now right.
Qed.

Lemma make_tensor_converted_from (d : Dict.t bval) :
  (forall k v c, In (k, v) d -> make_tensor_val X k v = Ok c ->
                 converted k c) ->
  forall d', make_tensor X d = Ok d' ->
             forall k c, In (k, c) d' -> converted k c.
Proof.
  induction d as [|[k0 v0] r IH]; intros Hval d' H k c Hin;
    cbn [make_tensor] in H.
  - inversion H; subst. destruct Hin.
  - destruct (make_tensor_val X k0 v0) as [c0|e] eqn:E0; cbn [rbind] in H;
      [|discriminate].
    destruct (make_tensor X r) as [r'|e] eqn:Er; cbn [rbind] in H;
      [|discriminate].
    inversion H; subst d'. destruct Hin as [Heq|Hin].
    + inversion Heq; subst. apply (Hval k v0); [now left|exact E0].
    + apply (IH (fun k1 v1 c1 H1 => Hval k1 v1 c1 (or_intror H1)) r' eq_refl
               k c Hin).
Qed.

Lemma make_tensor_val_converted :
  forall (v : bval) (k : string) (c : cval X),
    make_tensor_val X k v = Ok c -> converted k c.
Proof.
  fix IH 1. intros [l|d] k c H.
  - apply convert_ok in H. destruct H as [a [_ H]]. cbn [make_tensor_val].
    destruct (endswith k (FEAT_SUFFIX (keys_of X))) eqn:E.
    + destruct H as [t [_ ->]]. exact E.
    + subst c. exact E.
  - rewrite make_tensor_val_dict in H.
    destruct (make_tensor X d) as [d'|e] eqn:Ed; cbn [rbind] in H;
      [|discriminate].
    inversion H; subst c. apply converted_dict.
    apply (make_tensor_converted_from d); [|exact Ed].
    clear - IH. induction d as [|[k0 v0] r IHr]; intros k1 v1 c1 Hin Hc.
    + destruct Hin.
    + destruct Hin as [Heq|Hin].
      * injection Heq as Hk Hv. rewrite <- Hv in Hc.
        exact (IH v0 k1 c1 Hc).
      * exact (IHr k1 v1 c1 Hin Hc).
Qed.

Lemma make_tensor_converted (d : Dict.t bval) (d' : Dict.t (cval X)) :
  make_tensor X d = Ok d' -> forall k c, In (k, c) d' -> converted k c.
Proof.
  apply make_tensor_converted_from. intros k v c _.
  apply make_tensor_val_converted.
Qed.

(** *** The two passes together *)

Lemma column_forall2 (k : string) (samples : list pydict) (vs : list pyval) :
  Forall2 (fun s v => Dict.get k s = Some v) samples vs ->
  column k samples = vs.
Proof.
  induction 1 as [|s v r vs' Hv _ IH]; [reflexivity|].
  unfold column in *. cbn [flat_map]. rewrite Hv, IH. reflexivity.
Qed.

Lemma label_column_forall2 (vk : string) (samples : list pydict)
    (vs : list pyval) :
  Forall2 (label_entry vk) samples vs -> label_column vk samples = vs.
Proof.
  induction 1 as [|s v r vs' Hv _ IH]; [reflexivity|].
  unfold label_column in *. cbn [flat_map].
  destruct Hv as [ld [Hld Hvk]]. unfold label_value at 1.
  rewrite Hld, Hvk, IH. reflexivity.
Qed.

Lemma column_source (k : string) (samples : list pydict) :
  column k samples <> [] ->
  exists s, In s samples /\ In k (Dict.keys s).
Proof.
  induction samples as [|s r IH]; [now intros H|].
  unfold column. cbn [flat_map]. fold (column k r).
  destruct (Dict.get k s) as [v|] eqn:E.
  - intros _. exists s. split; [now left|].
    apply DictFacts.get_some_in. eauto.
  - cbn [app]. intros H. destruct (IH H) as [s' [Hin Hk]].
    exists s'. split; [now right|exact Hk].
Qed.

Lemma column_labels_empty (samples : list pydict) :
  Forall sample_ok samples -> column "labels" samples = [].
Proof.
  induction 1 as [|s r [_ [Hs _]] _ IH]; [reflexivity|].
  unfold column in *. cbn [flat_map]. now rewrite Hs, IH.
Qed.

(** the batch the first loop leaves, read off the columns *)
Lemma first_loop_columns (samples : list pydict) :
  Forall sample_ok samples ->
  exists b,
    rfold samples collate_sample [] = Ok b
    /\ raw b /\ tidy b
    /\ (forall k, k <> "label" -> k <> "labels" ->
                  Dict.get k b
                  = match column k samples with
                    | [] => None
                    | vs => Some (BList vs)
                    end)
    /\ (forall vk,
           Dict.get vk (labels_dict b)
           = match label_column vk samples with
             | [] => None
             | vs => Some (BList vs)
             end).
Proof.
  intros Hok.
  destruct (collate_all_columns samples [] Hok raw_empty)
    as [b [Hrun [Hraw [HF HL]]]].
  exists b. split; [exact Hrun|]. split; [exact Hraw|].
  split; [exact (collate_all_tidy samples b Hrun)|]. split.
  - intros k Hk Hk'. rewrite (HF k Hk Hk').
    destruct (column k samples); reflexivity.
  - intros vk. rewrite (HL vk).
    destruct (label_column vk samples); reflexivity.
Qed.

Lemma label_column_source (vk : string) (samples : list pydict) :
  label_column vk samples <> [] ->
  exists s ld,
    In s samples /\ Dict.get "label" s = Some (PDict ld)
    /\ In vk (Dict.keys ld).
Proof.
  induction samples as [|s r IH]; [now intros H|].
  unfold label_column. cbn [flat_map]. fold (label_column vk r).
  destruct (label_value vk s) as [v|] eqn:E.
  - intros _. unfold label_value in E.
    destruct (Dict.get "label" s) as [[| | | |ld]|] eqn:El;
      try discriminate E.
    exists s, ld. split; [now left|]. split; [exact El|].
    apply DictFacts.get_some_in. eauto.
  - cbn [app]. intros H. destruct (IH H) as [s' [ld [Hin H']]].
    exists s', ld. split; [now right|exact H'].
Qed.

(** it is enough that numpy and torch accept the column of every key
    some sample carries *)
Lemma convertible_by_keys (samples : list pydict) :
  (forall s k, In s samples -> In k (Dict.keys s) -> k <> "label" ->
               accepts k (column k samples)) ->
  (forall s ld vk, In s samples -> Dict.get "label" s = Some (PDict ld) ->
                   In vk (Dict.keys ld) ->
                   accepts vk (label_column vk samples)) ->
  convertible samples.
Proof.
  intros Hfeat Hlab. split.
  - intros k Hk Hne. destruct (column_source k samples Hne) as [s [Hs Hin]].
    now apply (Hfeat s).
  - intros vk Hne.
    destruct (label_column_source vk samples Hne) as [s [ld [Hs [Hl Hin]]]].
    now apply (Hlab s ld).
Qed.

(** when numpy and torch accept the columns, the collator returns *)
Lemma data_collator_returns (samples : list pydict) :
  Forall sample_ok samples -> convertible samples ->
  exists batch, data_collator X samples = Ok batch.
Proof.
  intros Hok [Hfeat Hlab].
  destruct (first_loop_columns samples Hok)
    as [b [Hrun [[Hlists [Hlabels Hnone]] [[Hwf Hwfl] [HF HL]]]]].
  unfold data_collator. rewrite Hrun. cbn [rbind].
  apply make_tensor_returns. intros k v Hin.
  pose proof (in_wf_get k v b Hwf Hin) as Hget.
  destruct (String.string_dec k "labels") as [->|Hk'].
  - destruct (Hlabels v Hget) as [ld [-> _]].
    rewrite make_tensor_val_dict.
    destruct (make_tensor_returns ld) as [ld' ->]; [|cbn [rbind]; eauto].
    intros vk v' Hin'.
    pose proof (in_wf_get vk v' ld (Hwfl ld Hget) Hin') as Hget'.
    specialize (HL vk). unfold labels_dict in HL. rewrite Hget in HL.
    rewrite Hget' in HL.
    destruct (label_column vk samples) as [|x vs] eqn:Ec; [discriminate|].
    inversion HL; subst v'. cbn [make_tensor_val].
    apply accepts_convert. rewrite <- Ec. apply Hlab. rewrite Ec. discriminate.
  - assert (Hk : k <> "label") by (intros ->; congruence).
    specialize (HF k Hk Hk'). rewrite Hget in HF.
    destruct (column k samples) as [|x vs] eqn:Ec; [discriminate|].
    inversion HF; subst v. cbn [make_tensor_val].
    apply accepts_convert. rewrite <- Ec. apply Hfeat; [exact Hk|].
    rewrite Ec. discriminate.
Qed.

(** the batch the collator returns, read off the columns: every list the
    first loop collected has been replaced by its conversion *)
Lemma data_collator_leaves (samples : list pydict) (batch : Dict.t (cval X)) :
  Forall sample_ok samples ->
  data_collator X samples = Ok batch ->
  (forall k, k <> "label" -> k <> "labels" ->
             match column k samples with
             | [] => Dict.get k batch = None
             | vs => exists leaf, leaf_of k vs leaf
                                  /\ Dict.get k batch = Some leaf
             end)
  /\ (forall vk,
         match label_column vk samples with
         | [] => Dict.get vk (batch_labels batch) = None
         | vs => exists leaf, leaf_of vk vs leaf
                              /\ Dict.get vk (batch_labels batch) = Some leaf
         end)
  /\ Dict.get "label" batch = None
  /\ (forall v, Dict.get "labels" batch = Some v ->
                exists ld, v = CDict ld /\ ld = batch_labels batch).
Proof.
  intros Hok.
  destruct (first_loop_columns samples Hok)
    as [b [Hrun [[Hlists [Hlabels Hnone]] [_ [HF HL]]]]].
  unfold data_collator. rewrite Hrun. cbn [rbind]. intros Hmt.
  destruct (make_tensor_get b batch Hmt) as [_ Hget].
  assert (Hlab : match Dict.get "labels" b with
                 | Some v => exists ld ld',
                     v = BDict ld /\ make_tensor X ld = Ok ld'
                     /\ Dict.get "labels" batch = Some (CDict ld')
                 | None => Dict.get "labels" batch = None
                 end).
  { specialize (Hget "labels"%string).
    destruct (Dict.get "labels" b) as [v|] eqn:E; [|exact Hget].
    destruct (Hlabels v eq_refl) as [ld [-> _]].
    destruct Hget as [c [Hc Hb]]. rewrite make_tensor_val_dict in Hc.
    destruct (make_tensor X ld) as [ld'|e] eqn:Eld; cbn [rbind] in Hc;
      [|discriminate].
    inversion Hc; subst c. exists ld, ld'. auto. }
  split; [|split; [|split]].
  - intros k Hk Hk'. specialize (Hget k). rewrite (HF k Hk Hk') in Hget.
    destruct (column k samples) as [|x vs]; [exact Hget|].
    destruct Hget as [c [Hc Hb]]. cbn [make_tensor_val] in Hc.
    exists c. split; [now apply convert_ok|exact Hb].
  - intros vk. specialize (HL vk). unfold labels_dict in HL.
    unfold batch_labels.
    destruct (Dict.get "labels" b) as [v|] eqn:E.
    + destruct Hlab as [ld [ld' [-> [Hld Hb]]]]. rewrite Hb.
      destruct (make_tensor_get ld ld' Hld) as [_ Hg]. specialize (Hg vk).
      rewrite HL in Hg.
      destruct (label_column vk samples) as [|x vs]; [exact Hg|].
      destruct Hg as [c [Hc Hb']]. cbn [make_tensor_val] in Hc.
      exists c. split; [now apply convert_ok|exact Hb'].
    + rewrite Hlab.
      destruct (label_column vk samples) as [|x vs]; [reflexivity|].
      discriminate HL.
  - specialize (Hget "label"%string). now rewrite Hnone in Hget.
  - intros v Hv. unfold batch_labels. rewrite Hv.
    destruct (Dict.get "labels" b) as [v0|] eqn:E.
    + destruct Hlab as [ld [ld' [_ [_ Hb]]]]. rewrite Hb in Hv.
      inversion Hv; subst. eauto.
    + congruence.
Qed.

(** C7. In a batch the collator returns, every leaf container, at the
    top level or inside a nested dictionary, is a float tensor exactly
    when its key ends with [FEAT_SUFFIX], and a plain array otherwise.
    For samples the first loop accepts, each leaf is moreover the
    conversion of the list of values collected under its key: [np.array]
    has been called on that list, and the leaf is the tensor
    [torch.tensor] made of the array when the key ends with the suffix;
    under any other key the leaf is the array itself, and [torch.tensor]
    plays no part. *)
Theorem data_collator_converts_by_suffix (samples : list pydict)
    (batch : Dict.t (cval X)) :
  data_collator X samples = Ok batch ->
  (forall k v, In (k, v) batch -> converted k v)
  /\ (Forall sample_ok samples ->
      (forall k v, Dict.get k batch = Some v -> k <> "labels" ->
                   leaf_of k (column k samples) v)
      /\ (forall v, Dict.get "labels" batch = Some v ->
                    exists ld,
                      v = CDict ld
                      /\ forall vk v',
                          Dict.get vk ld = Some v' ->
                          leaf_of vk (label_column vk samples) v')).
Proof.
  intros Hrun. split.
  - unfold data_collator in Hrun.
    destruct (rfold samples collate_sample []) as [b|e]; cbn [rbind] in Hrun;
      [|discriminate].
    exact (make_tensor_converted b batch Hrun).
  - intros Hok.
    destruct (data_collator_leaves samples batch Hok Hrun)
      as [Hfeat [Hlab [Hnone Hdict]]].
    split.
    + intros k v Hv Hk'.
      assert (Hk : k <> "label") by (intros ->; congruence).
      specialize (Hfeat k Hk Hk').
      destruct (column k samples) as [|x vs]; [congruence|].
      destruct Hfeat as [leaf [Hleaf Hget]]. congruence.
    + intros v Hv. destruct (Hdict v Hv) as [ld [-> Hld]].
      exists ld. split; [reflexivity|]. intros vk v' Hv'.
      specialize (Hlab vk). rewrite <- Hld in Hlab.
      destruct (label_column vk samples) as [|x vs]; [congruence|].
      destruct Hlab as [leaf [Hleaf Hget]]. congruence.
Qed.

(** C6 (as amended). For samples that are well-formed dicts, do not use
    ["labels"] as a feature key and hold a dict under ["label"], and
    whose collected values numpy and torch accept, the collator returns a
    batch in which every key other than ["label"] that all N samples
    carry maps to the conversion of the list of their N values in input
    order; the label dicts are gathered under the key ["labels"], where
    every sub-key that all N label dicts carry maps to the conversion of
    the list of the N label values in input order; and the top-level keys
    of the batch are ["labels"] and feature keys of the samples, never
    ["label"]. *)
Theorem data_collator_columns (samples : list pydict) :
  Forall sample_ok samples ->
  convertible samples ->
  exists batch,
    data_collator X samples = Ok batch
    /\ (forall k vs,
          k <> "label" -> samples <> [] ->
          Forall2 (fun s v => Dict.get k s = Some v) samples vs ->
          length vs = length samples
          /\ exists leaf, leaf_of k vs leaf
                          /\ Dict.get k batch = Some leaf)
    /\ (forall vk vs,
          samples <> [] ->
          Forall2 (label_entry vk) samples vs ->
          length vs = length samples
          /\ exists bl leaf,
              Dict.get "labels" batch = Some (CDict bl)
              /\ leaf_of vk vs leaf
              /\ Dict.get vk bl = Some leaf)
    /\ (forall k, In k (Dict.keys batch) ->
                  k = "labels"
                  \/ (k <> "label"
                      /\ exists s, In s samples /\ In k (Dict.keys s))).
Proof.
  intros Hok Hconv.
  destruct (data_collator_returns samples Hok Hconv) as [batch Hrun].
  destruct (data_collator_leaves samples batch Hok Hrun)
    as [Hfeat [Hlab [Hnone Hdict]]].
  exists batch. split; [exact Hrun|]. split; [|split].
  - intros k vs Hk Hne H2.
    split; [symmetry; eapply Forall2_length; exact H2|].
    assert (Hk' : k <> "labels").
    { intros ->. inversion H2 as [|s v r vs' Hv H2']; subst;
        [exact (Hne eq_refl)|].
      inversion Hok as [|? ? [_ [Hnl _]] _]; subst. congruence. }
    specialize (Hfeat k Hk Hk').
    rewrite (column_forall2 k samples vs H2) in Hfeat.
    destruct vs as [|x vs]; [|exact Hfeat].
    inversion H2; subst. exfalso. exact (Hne eq_refl).
  - intros vk vs Hne H2.
    split; [symmetry; eapply Forall2_length; exact H2|].
    specialize (Hlab vk).
    rewrite (label_column_forall2 vk samples vs H2) in Hlab.
    destruct vs as [|x vs];
      [inversion H2; subst; exfalso; exact (Hne eq_refl)|].
    destruct Hlab as [leaf [Hleaf Hget]].
    unfold batch_labels in Hget.
    destruct (Dict.get "labels" batch) as [[a|t|bl]|] eqn:E;
      try discriminate Hget.
    exists bl, leaf. auto.
  - intros k Hin.
    destruct (String.string_dec k "labels") as [->|Hk']; [now left|].
    right.
    assert (Hk : k <> "label").
    { intros ->. apply DictFacts.get_some_in in Hin.
      destruct Hin as [v Hv]. congruence. }
    split; [exact Hk|]. apply (column_source k).
    specialize (Hfeat k Hk Hk'). intros Hc. rewrite Hc in Hfeat.
    apply DictFacts.get_some_in in Hin. destruct Hin as [v Hv]. congruence.
Qed.

End CollatorFacts.

(** ** The factory and its caches *)

Section FactoryFacts.

Variable X : externals.

(** *** Computations that touch no cache

    Fitting, extraction and construction write to the event log and draw
    object identities, and leave every table of the factory alone. *)

Definition tables (st : state X) :=
  (graphs_cache st, load_graphs_memo st,
   op_memo st, grouping_memo st, subgraph_memo st).

Definition quiet {A} (m : M X A) : Prop :=
  forall st, tables (snd (m st)) = tables st.

Lemma quiet_ret {A} (a : A) : quiet (ret X a).
Proof. intros st. reflexivity. Qed.

Lemma quiet_raise {A} (e : exn) : quiet (@raise X A e).
Proof. intros st. reflexivity. Qed.

Lemma quiet_lift {A} (r : result A) : quiet (lift X r).
Proof. intros st. reflexivity. Qed.

Lemma quiet_log (e : event X) : quiet (log X e).
Proof. intros st. reflexivity. Qed.

Lemma quiet_alloc : quiet (alloc X).
Proof. intros st. reflexivity. Qed.

Lemma quiet_bind {A B} (m : M X A) (f : A -> M X B) :
  quiet m -> (forall a, quiet (f a)) -> quiet (bind X m f).
Proof.
  intros Hm Hf st. unfold bind. specialize (Hm st).
  destruct (m st) as [[a|e] st1]; simpl in *; [|exact Hm].
  now rewrite (Hf a st1).
Qed.

Lemma quiet_for_each {A B} (l : list A) (body : B -> A -> M X B) :
  (forall b a, quiet (body b a)) -> forall acc, quiet (for_each X l body acc).
Proof.
  intros Hbody. induction l as [|a l IH]; intros acc; simpl.
  - apply quiet_ret.
  - apply quiet_bind; auto.
Qed.

Lemma quiet_repeat_M {A} (n : nat) (gen : M X A) :
  quiet gen -> quiet (repeat_M X n gen).
Proof.
  intros Hgen. induction n as [|n IH]; simpl.
  - apply quiet_ret.
  - apply quiet_bind; [exact Hgen|]. intros a.
    apply quiet_bind; [exact IH|]. intros r. apply quiet_ret.
Qed.

Ltac quiet_steps :=
  repeat first
    [ apply quiet_ret | apply quiet_raise | apply quiet_lift
    | apply quiet_log | apply quiet_alloc
    | apply quiet_bind; [|intros ?]
    | apply quiet_for_each; intros ? ?
    | match goal with
      | |- quiet ((let '(_, _) := ?p in _) _) => destruct p
      | |- quiet (if ?c then _ else _) => destruct c
      | |- quiet (match ?c with _ => _ end) => destruct c
      end ].

Lemma quiet_fit_scaler (cls : scaler_class) (data : list pyval) :
  quiet (fit_scaler X cls data).
Proof. unfold fit_scaler. quiet_steps. Qed.

Lemma quiet_get_y_scaler_dict (l : list pydict) (cls : scaler_class) :
  quiet (get_y_scaler_dict X l cls).
Proof.
  unfold get_y_scaler_dict. quiet_steps; apply quiet_fit_scaler.
Qed.

Lemma quiet_init_normalizer_impl (v : variant) (f l : list pydict)
    (cls : scaler_class) :
  quiet (init_normalizer_impl X v f l cls).
Proof.
  destruct v; simpl;
    [unfold op_init_normalizer_impl | unfold subgraph_init_normalizer_impl];
    quiet_steps;
    first [apply quiet_fit_scaler | apply quiet_get_y_scaler_dict].
Qed.

Lemma quiet_new_dataset (v : variant) (key : string) (f l : list pydict)
    (normalization : norm_arg X) :
  quiet (new_dataset X v key f l normalization).
Proof.
  unfold new_dataset. apply quiet_bind; [apply quiet_alloc|]. intros o.
  destruct normalization as [[| |s| |]|c]; quiet_steps.
  unfold init_normalizer. quiet_steps; apply quiet_init_normalizer_impl.
Qed.

Lemma quiet_extract_all (kind : DatasetType)
    (extract : Graph X -> result (list pydict * list pydict))
    (graphs : list (Graph X)) :
  quiet (extract_all X kind extract graphs).
Proof. unfold extract_all. quiet_steps. Qed.

Lemma quiet_creator_body (kind : DatasetType) (key : string)
    (normalization : norm_arg X) (kw : kwargs) :
  quiet (creator_body X kind key normalization kw).
Proof.
  assert (Hc : forall k, quiet (cached_graphs X k)) by (intros k st; reflexivity).
  assert (Hb : quiet (bind_kwargs X kw)).
  { unfold bind_kwargs. quiet_steps. }
  destruct kind; simpl;
    [unfold create_op_dataset_body
    |unfold create_graph_grouping_dataset_body
    |unfold create_subgraph_dataset_body];
    (apply quiet_bind; [exact Hb|intros _]);
    (apply quiet_bind; [apply Hc|intros graphs]);
    (apply quiet_bind; [apply quiet_extract_all|intros XY]);
    apply quiet_new_dataset.
Qed.

Lemma quiet_load_graphs_body (e : Environment X) (tv : string) (d : bool) :
  quiet (load_graphs_body X e tv d).
Proof.
  assert (Hnew : forall items, quiet (new_glist X items)).
  { intros items. unfold new_glist. quiet_steps. }
  unfold load_graphs_body. destruct d.
  - apply quiet_bind; [|exact Hnew].
    apply quiet_repeat_M. unfold new_dummy_graph. quiet_steps.
  - apply quiet_bind; [apply quiet_log|intros _; apply Hnew].
Qed.

(** *** Growth of the caches *)

(** every entry of the first state is an entry of the second *)
Definition extends (st st' : state X) : Prop :=
  (forall k g, assoc load_key_eq_dec k (load_graphs_memo st) = Some g ->
               assoc load_key_eq_dec k (load_graphs_memo st') = Some g)
  /\ (forall kind k d,
        assoc creator_key_eq_dec k (creator_memo kind st) = Some d ->
        assoc creator_key_eq_dec k (creator_memo kind st') = Some d)
  /\ (forall k g, Dict.get k (graphs_cache st) = Some g ->
                  Dict.get k (graphs_cache st') = Some g).

Lemma extends_refl (st : state X) : extends st st.
Proof. repeat split; auto. Qed.

Lemma extends_trans (st1 st2 st3 : state X) :
  extends st1 st2 -> extends st2 st3 -> extends st1 st3.
Proof.
  intros [A1 [B1 C1]] [A2 [B2 C2]]. repeat split; auto.
Qed.

Lemma tables_creator_memo (st st' : state X) (kind : DatasetType) :
  tables st' = tables st -> creator_memo kind st' = creator_memo kind st.
Proof.
  unfold tables. intros H. inversion H. destruct kind; simpl; congruence.
Qed.

Lemma extends_tables (st st' : state X) :
  tables st' = tables st -> extends st st'.
Proof.
  intros H. pose proof (tables_creator_memo st st') as Hc.
  unfold tables in H. inversion H as [[H1 H2 H3 H4 H5]].
  repeat split.
  - now rewrite H2.
  - intros kind k d. now rewrite (Hc kind H).
  - now rewrite H1.
Qed.

Lemma assoc_cons {K A} (eq_dec : forall a b : K, {a = b} + {a <> b})
    (k k' : K) (a a' : A) (l : list (K * A)) :
  assoc eq_dec k l = None ->
  assoc eq_dec k' l = Some a' ->
  assoc eq_dec k' ((k, a) :: l) = Some a'.
Proof.
  intros Hk Hk'. simpl. destruct (eq_dec k k') as [->|]; congruence.
Qed.

Lemma assoc_head {K A} (eq_dec : forall a b : K, {a = b} + {a <> b})
    (k : K) (a : A) (l : list (K * A)) :
  assoc eq_dec k ((k, a) :: l) = Some a.
Proof. simpl. destruct (eq_dec k k); congruence. Qed.

(** *** [_load_graphs] *)

Lemma new_dummy_graph_run (st : state X) :
  new_dummy_graph X st
  = (Ok (from_data_dummy X (next_oid st)),
     with_events (events st ++ [EvFromData X (next_oid st)])
       (with_next_oid (S (next_oid st)) st)).
Proof. reflexivity. Qed.

Lemma repeat_dummy_spec (n : nat) :
  forall st : state X,
  exists st1,
    repeat_M X n (new_dummy_graph X) st
    = (Ok (map (from_data_dummy X) (seq (next_oid st) n)), st1)
    /\ next_oid st1 = (next_oid st + n)%nat
    /\ events st1 = events st ++ map (EvFromData X) (seq (next_oid st) n).
Proof.
  induction n as [|n IH]; intros st.
  - exists st. simpl. unfold ret. rewrite app_nil_r, Nat.add_0_r. auto.
  - cbn [repeat_M]. unfold bind at 1. rewrite new_dummy_graph_run.
    unfold bind at 1.
    destruct (IH (with_events (events st ++ [EvFromData X (next_oid st)])
                    (with_next_oid (S (next_oid st)) st)))
      as [st1 [Hrun [Hoid Hev]]].
    rewrite Hrun. simpl in Hoid, Hev.
    exists st1. split; [reflexivity|]. split; [lia|].
    rewrite Hev, <- app_assoc. reflexivity.
Qed.

Lemma load_graphs_body_dummy (e : Environment X) (tv : string)
    (st : state X) :
  exists st1,
    load_graphs_body X e tv true st
    = (Ok {| glist_oid := (next_oid st + 100)%nat;
             glist_items := map (from_data_dummy X) (seq (next_oid st) 100) |},
       st1)
    /\ events st1 = events st ++ map (EvFromData X) (seq (next_oid st) 100).
Proof.
  unfold load_graphs_body. unfold bind at 1.
  destruct (repeat_dummy_spec 100 st) as [st1 [Hrun [Hoid Hev]]].
  rewrite Hrun. unfold new_glist, bind, alloc, ret. rewrite Hoid.
  eexists. split; [reflexivity|]. exact Hev.
Qed.

Lemma load_graphs_body_ok (e : Environment X) (tv : string) (d : bool)
    (st : state X) :
  exists g, fst (load_graphs_body X e tv d st) = Ok g.
Proof.
  destruct d.
  - destruct (load_graphs_body_dummy e tv st) as [st1 [Hrun _]].
    rewrite Hrun. simpl. eauto.
  - unfold load_graphs_body, new_glist, bind, log, alloc, ret. simpl. eauto.
Qed.

Lemma load_graphs_hit (e : Environment X) (tv : string) (d : bool)
    (st : state X) (g : glist X) :
  assoc load_key_eq_dec (e, tv, d) (load_graphs_memo st) = Some g ->
  _load_graphs X e tv d st = (Ok g, st).
Proof. intros H. unfold _load_graphs, lru_cache. now rewrite H. Qed.

Lemma load_graphs_post (e : Environment X) (tv : string) (d : bool)
    (st : state X) :
  exists g,
    fst (_load_graphs X e tv d st) = Ok g
    /\ assoc load_key_eq_dec (e, tv, d)
         (load_graphs_memo (snd (_load_graphs X e tv d st))) = Some g.
Proof.
  unfold _load_graphs, lru_cache.
  destruct (assoc load_key_eq_dec (e, tv, d) (load_graphs_memo st))
    as [g|] eqn:E.
  - exists g. simpl. auto.
  - destruct (load_graphs_body_ok e tv d st) as [g Hg].
    destruct (load_graphs_body X e tv d st) as [[g'|ex] st1];
      simpl in Hg; [|discriminate].
    inversion Hg; subst. exists g. split; [reflexivity|].
    apply assoc_head.
Qed.

Lemma load_graphs_extends (e : Environment X) (tv : string) (d : bool)
    (st : state X) :
  extends st (snd (_load_graphs X e tv d st)).
Proof.
  unfold _load_graphs, lru_cache.
  destruct (assoc load_key_eq_dec (e, tv, d) (load_graphs_memo st))
    as [g|] eqn:E; [apply extends_refl|].
  pose proof (quiet_load_graphs_body e tv d st) as Hq.
  destruct (load_graphs_body X e tv d st) as [[g'|ex] st1]; simpl in *;
    [|now apply extends_tables].
  pose proof (tables_creator_memo st st1) as Hc.
  unfold tables in Hq. inversion Hq as [[H1 H2 H3 H4 H5]].
  repeat split.
  - intros k g Hk. cbn [snd load_graphs_memo with_load_graphs_memo].
    rewrite H2. now apply assoc_cons.
  - intros kind k dd Hk. rewrite <- (Hc kind Hq) in Hk.
    destruct kind; exact Hk.
  - intros k g. simpl. now rewrite H1.
Qed.

(** *** The memoized construction routines *)

Lemma creator_memo_with (kind kind' : DatasetType)
    (m : list (creator_key X * MDataset X)) (st : state X) :
  creator_memo kind' (with_creator_memo kind m st)
  = match kind, kind' with
    | OP, OP | Grouping, Grouping | Subgraph, Subgraph => m
    | _, _ => creator_memo kind' st
    end.
Proof. destruct kind, kind'; reflexivity. Qed.

Lemma creator_hit (kind : DatasetType) (key : string)
    (normalization : norm_arg X) (kw : kwargs) (h : hkey X)
    (d : MDataset X) (st : state X) :
  hash_key X normalization = Ok h ->
  assoc creator_key_eq_dec (key, h, kw) (creator_memo kind st) = Some d ->
  creator X kind key normalization kw st = (Ok d, st).
Proof.
  intros Hh Hd. unfold creator, bind, lift. rewrite Hh.
  unfold lru_cache. now rewrite Hd.
Qed.

Lemma creator_post (kind : DatasetType) (key : string)
    (normalization : norm_arg X) (kw : kwargs) (d : MDataset X)
    (st st' : state X) :
  creator X kind key normalization kw st = (Ok d, st') ->
  exists h,
    hash_key X normalization = Ok h
    /\ assoc creator_key_eq_dec (key, h, kw) (creator_memo kind st') = Some d.
Proof.
  unfold creator, bind, lift.
  destruct (hash_key X normalization) as [h|e]; [|discriminate].
  intros H. exists h. split; [reflexivity|].
  unfold lru_cache in H.
  destruct (assoc creator_key_eq_dec (key, h, kw) (creator_memo kind st))
    as [d0|] eqn:E.
  - inversion H; subst. exact E.
  - destruct (creator_body X kind key normalization kw st) as [[d1|e] st1];
      [|discriminate].
    inversion H; subst. rewrite creator_memo_with.
    destruct kind; apply assoc_head.
Qed.

Lemma creator_extends (kind : DatasetType) (key : string)
    (normalization : norm_arg X) (kw : kwargs) (st : state X) :
  extends st (snd (creator X kind key normalization kw st)).
Proof.
  unfold creator, bind, lift.
  destruct (hash_key X normalization) as [h|e]; [|apply extends_refl].
  unfold lru_cache.
  destruct (assoc creator_key_eq_dec (key, h, kw) (creator_memo kind st))
    as [d0|] eqn:E; [apply extends_refl|].
  pose proof (quiet_creator_body kind key normalization kw st) as Hq.
  destruct (creator_body X kind key normalization kw st) as [[d1|e] st1];
    simpl in *; [|now apply extends_tables].
  pose proof (tables_creator_memo st st1) as Hc.
  unfold tables in Hq. inversion Hq as [[H1 H2 H3 H4 H5]].
  repeat split; simpl.
  - intros k g. now rewrite H2.
  - intros kind' k dd Hk. rewrite creator_memo_with.
    rewrite <- (Hc kind' Hq) in Hk. rewrite <- (Hc kind Hq) in E.
    destruct kind, kind'; try exact Hk; now apply assoc_cons.
  - intros k g. now rewrite H1.
Qed.

(** *** The graphs cache *)

Lemma with_graphs_cache_same (st : state X) :
  with_graphs_cache (graphs_cache st) st = st.
Proof. now destruct st. Qed.

Lemma cache_graphs_hit (key : string) (default g : glist X) (st : state X) :
  Dict.get key (graphs_cache st) = Some g ->
  cache_graphs X key default st = (Ok g, st).
Proof.
  intros H. unfold cache_graphs. rewrite H.
  now rewrite DictFacts.set_same_value, with_graphs_cache_same.
Qed.

Lemma cache_graphs_post (key : string) (default : glist X) (st : state X) :
  Dict.get key (graphs_cache (snd (cache_graphs X key default st)))
  = Some match Dict.get key (graphs_cache st) with
         | Some g => g
         | None => default
         end.
Proof. unfold cache_graphs. simpl. apply DictFacts.get_set_same. Qed.

Lemma cache_graphs_extends (key : string) (default : glist X)
    (st : state X) :
  extends st (snd (cache_graphs X key default st)).
Proof.
  unfold cache_graphs. cbn [snd]. repeat split.
  - intros k g Hk. exact Hk.
  - intros kind k d Hk. destruct kind; exact Hk.
  - intros k g Hk. cbn [graphs_cache with_graphs_cache].
    destruct (String.string_dec key k) as [<-|Hne].
    + rewrite Hk. now rewrite DictFacts.get_set_same.
    + now rewrite DictFacts.get_set_other.
Qed.

(** *** [create_dataset], step by step *)

(** one split of [create_dataset]: load the graphs, then enter them in the
    graphs cache unless the key is there already *)
Definition load_and_cache (e : Environment X) (tv : string) (dummy : bool)
  : M X (glist X) :=
  bind X (_load_graphs X e tv dummy)
    (cache_graphs X (_graphs_cache_key X e tv dummy)).

(** the state in which [create_dataset] turns to the construction routine *)
Definition after_loading (e : Environment X) (dummy : bool) (st : state X)
  : state X :=
  snd (load_and_cache e "val" dummy (snd (load_and_cache e "train" dummy st))).

Lemma load_and_cache_post (e : Environment X) (tv : string) (dummy : bool)
    (st : state X) :
  exists loaded g,
    load_and_cache e tv dummy st
    = (Ok g, snd (load_and_cache e tv dummy st))
    /\ fst (_load_graphs X e tv dummy st) = Ok loaded
    /\ g = match Dict.get (_graphs_cache_key X e tv dummy) (graphs_cache st)
           with
           | Some g0 => g0
           | None => loaded
           end
    /\ Dict.get (_graphs_cache_key X e tv dummy)
         (graphs_cache (snd (load_and_cache e tv dummy st))) = Some g
    /\ assoc load_key_eq_dec (e, tv, dummy)
         (load_graphs_memo (snd (load_and_cache e tv dummy st)))
       = Some loaded.
Proof.
  unfold load_and_cache, bind.
  destruct (load_graphs_post e tv dummy st) as [loaded [Hl Hm]].
  pose proof (load_graphs_extends e tv dummy st) as [_ [_ Hc]].
  pose proof (quiet_load_graphs_body e tv dummy st) as Hq.
  assert (Hsame : graphs_cache (snd (_load_graphs X e tv dummy st))
                  = graphs_cache st).
  { clear - Hq. unfold _load_graphs, lru_cache.
    destruct (assoc _ _ _); [reflexivity|].
    destruct (load_graphs_body X e tv dummy st) as [[g|ex] st1];
      unfold tables in Hq; simpl in *; congruence. }
  destruct (_load_graphs X e tv dummy st) as [r s1]. simpl in *. subst r.
  exists loaded. eexists. split; [reflexivity|]. split; [reflexivity|].
  rewrite Hsame. split; [reflexivity|]. split.
  - rewrite <- Hsame. apply DictFacts.get_set_same.
  - exact Hm.
Qed.

Lemma load_and_cache_extends (e : Environment X) (tv : string)
    (dummy : bool) (st : state X) :
  extends st (snd (load_and_cache e tv dummy st)).
Proof.
  unfold load_and_cache, bind.
  pose proof (load_graphs_extends e tv dummy st) as H1.
  destruct (_load_graphs X e tv dummy st) as [[g|ex] s1]; simpl in *;
    [|exact H1].
  eapply extends_trans; [exact H1|].
  apply (cache_graphs_extends (_graphs_cache_key X e tv dummy) g s1).
Qed.

Lemma load_and_cache_hit (e : Environment X) (tv : string) (dummy : bool)
    (st : state X) (loaded g : glist X) :
  assoc load_key_eq_dec (e, tv, dummy) (load_graphs_memo st) = Some loaded ->
  Dict.get (_graphs_cache_key X e tv dummy) (graphs_cache st) = Some g ->
  load_and_cache e tv dummy st = (Ok g, st).
Proof.
  intros Hm Hc. unfold load_and_cache, bind.
  rewrite (load_graphs_hit e tv dummy st loaded Hm).
  now apply cache_graphs_hit.
Qed.

Lemma after_loading_extends (e : Environment X) (dummy : bool)
    (st : state X) :
  extends st (after_loading e dummy st).
Proof.
  unfold after_loading.
  eapply extends_trans; apply load_and_cache_extends.
Qed.

Lemma create_dataset_steps (e : Environment X) (normalization : norm_arg X)
    (kind : DatasetType) (dummy : bool) (kw : kwargs) (st : state X) :
  create_dataset X e normalization kind dummy kw st
  = bind X (creator X kind (_graphs_cache_key X e "train" dummy)
              normalization kw)
      (fun train =>
         bind X (creator X kind (_graphs_cache_key X e "val" dummy)
                   normalization kw)
           (fun val => ret X (train, val)))
      (after_loading e dummy st).
Proof.
  unfold after_loading.
  destruct (load_and_cache_post e "train" dummy st)
    as [l1 [g1 [H1 _]]].
  destruct (load_and_cache_post e "val" dummy
              (snd (load_and_cache e "train" dummy st)))
    as [l2 [g2 [H2 _]]].
  revert H1 H2.
  generalize (snd (load_and_cache e "train" dummy st)) as s2.
  intros s2 H1.
  generalize (snd (load_and_cache e "val" dummy s2)) as s4.
  intros s4 H2.
  unfold create_dataset.
  unfold load_and_cache in H1, H2.
  unfold bind at 1. unfold bind at 1 in H1.
  destruct (_load_graphs X e "train" dummy st) as [[g|ex] s1];
    [|discriminate].
  unfold bind at 1. rewrite H1.
  unfold bind at 1. unfold bind at 1 in H2.
  destruct (_load_graphs X e "val" dummy s2) as [[g'|ex] s3];
    [|discriminate].
  unfold bind at 1. rewrite H2. reflexivity.
Qed.

Lemma create_dataset_extends (e : Environment X)
    (normalization : norm_arg X) (kind : DatasetType) (dummy : bool)
    (kw : kwargs) (st : state X) :
  extends st (snd (create_dataset X e normalization kind dummy kw st)).
Proof.
  rewrite create_dataset_steps.
  apply (extends_trans _ (after_loading e dummy st));
    [apply after_loading_extends|].
  generalize (after_loading e dummy st) as s4. intros s4.
  unfold bind.
  pose proof (creator_extends kind (_graphs_cache_key X e "train" dummy)
                normalization kw s4) as E45.
  destruct (creator X kind (_graphs_cache_key X e "train" dummy)
              normalization kw s4) as [[t|ex] s5]; cbn [snd] in *;
    [|exact E45].
  pose proof (creator_extends kind (_graphs_cache_key X e "val" dummy)
                normalization kw s5) as E56.
  destruct (creator X kind (_graphs_cache_key X e "val" dummy)
              normalization kw s5) as [[v|ex] s6]; cbn [snd ret] in *;
    exact (extends_trans _ _ _ E45 E56).
Qed.

Lemma creator_again (kind : DatasetType) (key : string)
    (normalization : norm_arg X) (kw : kwargs) (d : MDataset X)
    (st st' st'' : state X) :
  creator X kind key normalization kw st = (Ok d, st') ->
  extends st' st'' ->
  creator X kind key normalization kw st'' = (Ok d, st'').
Proof.
  intros Hrun [_ [Hext _]].
  destruct (creator_post _ _ _ _ _ _ _ Hrun) as [h [Hh Hd]].
  eapply creator_hit; eauto.
Qed.

Lemma create_dataset_again (e : Environment X) (normalization : norm_arg X)
    (kind : DatasetType) (dummy : bool) (kw : kwargs)
    (train val : MDataset X) (st st' st'' : state X) :
  create_dataset X e normalization kind dummy kw st = (Ok (train, val), st') ->
  extends st' st'' ->
  create_dataset X e normalization kind dummy kw st'' = (Ok (train, val), st'').
Proof.
  intros Hrun Hext. rewrite create_dataset_steps in Hrun.
  unfold after_loading in Hrun.
  destruct (load_and_cache_post e "train" dummy st)
    as [l1 [g1 [_ [_ [_ [Hc1 Hm1]]]]]].
  set (s2 := snd (load_and_cache e "train" dummy st)) in *.
  destruct (load_and_cache_post e "val" dummy s2)
    as [l2 [g2 [_ [_ [_ [Hc2 Hm2]]]]]].
  pose proof (load_and_cache_extends e "val" dummy s2) as E24.
  set (s4 := snd (load_and_cache e "val" dummy s2)) in *.
  unfold bind at 1 in Hrun.
  pose proof (creator_extends kind (_graphs_cache_key X e "train" dummy)
                normalization kw s4) as E45.
  destruct (creator X kind (_graphs_cache_key X e "train" dummy)
              normalization kw s4) as [[t|ex] s5] eqn:Htrain; [|discriminate].
  unfold bind at 1 in Hrun.
  pose proof (creator_extends kind (_graphs_cache_key X e "val" dummy)
                normalization kw s5) as E56.
  destruct (creator X kind (_graphs_cache_key X e "val" dummy)
              normalization kw s5) as [[v|ex] s6] eqn:Hval; [|discriminate].
  unfold ret in Hrun. inversion Hrun; subst t v s6. simpl in E45, E56.
  assert (E5 : extends s5 st'') by exact (extends_trans _ _ _ E56 Hext).
  assert (E4 : extends s4 st'') by exact (extends_trans _ _ _ E45 E5).
  assert (E2 : extends s2 st'') by exact (extends_trans _ _ _ E24 E4).
  rewrite create_dataset_steps. unfold after_loading.
  rewrite (load_and_cache_hit e "train" dummy st'' l1 g1);
    [|apply E2; exact Hm1|apply E2; exact Hc1].
  simpl snd.
  rewrite (load_and_cache_hit e "val" dummy st'' l2 g2);
    [|apply E4; exact Hm2|apply E4; exact Hc2].
  simpl snd. unfold bind.
  rewrite (creator_again _ _ _ _ _ _ _ _ Htrain E5).
  rewrite (creator_again _ _ _ _ _ _ _ _ Hval Hext).
  reflexivity.
Qed.

(** C5. A construction routine that has returned a dataset for an argument
    tuple (graphs cache key, normalization, extra parameters) returns that
    same object for the same tuple in every later state of the process, and
    leaves the state as it finds it: nothing is extracted, fitted or
    allocated again.  The same holds of [create_dataset] and the pair of
    datasets it returns. *)
Theorem factory_returns_cached_dataset :
  (forall (kind : DatasetType) (key : string) (normalization : norm_arg X)
          (kw : kwargs) (d : MDataset X) (st st' st'' : state X),
      creator X kind key normalization kw st = (Ok d, st') ->
      extends st' st'' ->
      creator X kind key normalization kw st'' = (Ok d, st''))
  /\ (forall (e : Environment X) (normalization : norm_arg X)
             (kind : DatasetType) (dummy : bool) (kw : kwargs)
             (train val : MDataset X) (st st' st'' : state X),
        create_dataset X e normalization kind dummy kw st
        = (Ok (train, val), st') ->
        extends st' st'' ->
        create_dataset X e normalization kind dummy kw st''
        = (Ok (train, val), st'')).
Proof.
  split.
  - exact creator_again.
  - exact create_dataset_again.
Qed.

(** *** States of a running process *)

(** the states the process can be in: it starts with empty caches and
    calls the factory, or anything that leaves the caches alone *)
Inductive reachable : state X -> Prop :=
| reach_initial : reachable (initial_state X)
| reach_load_graphs (e : Environment X) (tv : string) (d : bool) st :
    reachable st -> reachable (snd (_load_graphs X e tv d st))
| reach_creator kind key normalization kw st :
    reachable st -> reachable (snd (creator X kind key normalization kw st))
| reach_create_dataset e normalization kind dummy kw st :
    reachable st ->
    reachable (snd (create_dataset X e normalization kind dummy kw st))
| reach_quiet (A : Type) (m : M X A) st :
    quiet m -> reachable st -> reachable (snd (m st)).

(** a list of 100 placeholder graphs *)
Definition placeholders (g : glist X) : Prop :=
  exists n, glist_items g = map (from_data_dummy X) (seq n 100).

(** what [_load_graphs] remembers for [dummy=True] are such lists *)
Definition dummy_lists_ok (st : state X) : Prop :=
  forall e tv g,
    assoc load_key_eq_dec (e, tv, true) (load_graphs_memo st) = Some g ->
    placeholders g.

Lemma load_graphs_dummy_lists_ok (e : Environment X) (tv : string)
    (d : bool) (st : state X) :
  dummy_lists_ok st -> dummy_lists_ok (snd (_load_graphs X e tv d st)).
Proof.
  intros Hok. unfold _load_graphs, lru_cache.
  destruct (assoc load_key_eq_dec (e, tv, d) (load_graphs_memo st)) eqn:E;
    [exact Hok|].
  pose proof (quiet_load_graphs_body e tv d st) as Hq.
  destruct d.
  - destruct (load_graphs_body_dummy e tv st) as [st1 [Hrun _]].
    rewrite Hrun in Hq |- *. cbn [snd] in Hq |- *.
    assert (H2 : load_graphs_memo st1 = load_graphs_memo st).
    { unfold tables in Hq. congruence. }
    intros e' tv' g' Hg'.
    cbn [load_graphs_memo with_load_graphs_memo assoc] in Hg'.
    destruct (load_key_eq_dec (e, tv, true) (e', tv', true)) as [Heq|Hne].
    + injection Hg' as <-. exists (next_oid st). reflexivity.
    + rewrite H2 in Hg'. exact (Hok e' tv' g' Hg').
  - destruct (load_graphs_body X e tv false st) as [[g|ex] st1];
      cbn [snd] in Hq |- *;
      assert (H2 : load_graphs_memo st1 = load_graphs_memo st)
        by (unfold tables in Hq; congruence).
    + intros e' tv' g' Hg'.
      cbn [load_graphs_memo with_load_graphs_memo assoc] in Hg'.
      destruct (load_key_eq_dec (e, tv, false) (e', tv', true)) as [Heq|Hne];
        [discriminate Heq|].
      rewrite H2 in Hg'. exact (Hok e' tv' g' Hg').
    + intros e' tv' g' Hg'. rewrite H2 in Hg'. exact (Hok e' tv' g' Hg').
Qed.

Lemma tables_dummy_lists_ok (st st' : state X) :
  tables st' = tables st -> dummy_lists_ok st -> dummy_lists_ok st'.
Proof.
  unfold tables. intros H Hok e tv g. inversion H as [[H1 H2 H3 H4 H5]].
  rewrite H2. apply Hok.
Qed.

Lemma creator_load_graphs_memo (kind : DatasetType) (key : string)
    (normalization : norm_arg X) (kw : kwargs) (st : state X) :
  load_graphs_memo (snd (creator X kind key normalization kw st))
  = load_graphs_memo st
  /\ graphs_cache (snd (creator X kind key normalization kw st))
     = graphs_cache st.
Proof.
  unfold creator, bind, lift.
  destruct (hash_key X normalization) as [h|e]; [|auto].
  unfold lru_cache.
  destruct (assoc creator_key_eq_dec (key, h, kw) (creator_memo kind st));
    [auto|].
  pose proof (quiet_creator_body kind key normalization kw st) as Hq.
  destruct (creator_body X kind key normalization kw st) as [[d1|e] st1];
    unfold tables in Hq; simpl in *; inversion Hq; auto.
Qed.

Lemma load_and_cache_load_graphs_memo (e : Environment X) (tv : string)
    (dummy : bool) (st : state X) :
  load_graphs_memo (snd (load_and_cache e tv dummy st))
  = load_graphs_memo (snd (_load_graphs X e tv dummy st)).
Proof.
  unfold load_and_cache, bind.
  destruct (_load_graphs X e tv dummy st) as [[g|ex] s1]; reflexivity.
Qed.

Lemma create_dataset_dummy_lists_ok (e : Environment X)
    (normalization : norm_arg X) (kind : DatasetType) (dummy : bool)
    (kw : kwargs) (st : state X) :
  dummy_lists_ok st ->
  dummy_lists_ok (snd (create_dataset X e normalization kind dummy kw st)).
Proof.
  intros Hok. rewrite create_dataset_steps.
  assert (H4 : dummy_lists_ok (after_loading e dummy st)).
  { unfold after_loading, dummy_lists_ok.
    rewrite load_and_cache_load_graphs_memo.
    apply load_graphs_dummy_lists_ok.
    unfold dummy_lists_ok. rewrite load_and_cache_load_graphs_memo.
    now apply load_graphs_dummy_lists_ok. }
  revert H4. generalize (after_loading e dummy st) as s4. intros s4 H4.
  unfold bind at 1.
  pose proof (creator_load_graphs_memo kind
                (_graphs_cache_key X e "train" dummy) normalization kw s4)
    as [M5 _].
  destruct (creator X kind (_graphs_cache_key X e "train" dummy)
              normalization kw s4) as [[t|ex] s5]; simpl in *.
  2:{ unfold dummy_lists_ok. now rewrite M5. }
  unfold bind at 1.
  pose proof (creator_load_graphs_memo kind
                (_graphs_cache_key X e "val" dummy) normalization kw s5)
    as [M6 _].
  destruct (creator X kind (_graphs_cache_key X e "val" dummy)
              normalization kw s5) as [[v|ex] s6]; simpl in *;
    unfold dummy_lists_ok; now rewrite M6, M5.
Qed.

Lemma reachable_dummy_lists_ok (st : state X) :
  reachable st -> dummy_lists_ok st.
Proof.
  induction 1.
  - intros e tv g H. discriminate.
  - now apply load_graphs_dummy_lists_ok.
  - unfold dummy_lists_ok.
    now rewrite (proj1 (creator_load_graphs_memo kind key normalization kw st)).
  - now apply create_dataset_dummy_lists_ok.
  - eapply tables_dummy_lists_ok; [apply H|assumption].
Qed.

Lemma load_graphs_again (e : Environment X) (tv : string) (d : bool)
    (st st'' : state X) (g : glist X) :
  fst (_load_graphs X e tv d st) = Ok g ->
  extends (snd (_load_graphs X e tv d st)) st'' ->
  _load_graphs X e tv d st'' = (Ok g, st'').
Proof.
  intros Hg [Hext _].
  destruct (load_graphs_post e tv d st) as [g' [Hg' Hm]].
  rewrite Hg in Hg'. inversion Hg'; subst g'.
  apply load_graphs_hit. now apply Hext.
Qed.

Lemma load_graphs_dummy_events (e : Environment X) (tv : string)
    (st : state X) (p : string) :
  In (EvDataDir X p) (events (snd (_load_graphs X e tv true st))) ->
  In (EvDataDir X p) (events st).
Proof.
  unfold _load_graphs, lru_cache.
  destruct (assoc load_key_eq_dec (e, tv, true) (load_graphs_memo st));
    [auto|].
  destruct (load_graphs_body_dummy e tv st) as [st1 [Hrun Hev]].
  rewrite Hrun. simpl. rewrite Hev. intros H.
  apply in_app_or in H. destruct H as [H|H]; [exact H|].
  apply in_map_iff in H. destruct H as [n [Hn _]]. discriminate.
Qed.

(** C8. [_load_graphs] is memoized on [(environment, train_or_val, dummy)]:
    a call returns a list, and every later call with the same triple
    returns that same list object and leaves the state untouched.  With
    [dummy=True] the list consists of exactly 100 placeholder graphs, and
    the call names no data directory. *)
Theorem load_graphs_memoized (e : Environment X) (tv : string) (d : bool)
    (st : state X) :
  reachable st ->
  exists g,
    fst (_load_graphs X e tv d st) = Ok g
    /\ (forall st'',
          extends (snd (_load_graphs X e tv d st)) st'' ->
          _load_graphs X e tv d st'' = (Ok g, st''))
    /\ (d = true ->
        length (glist_items g) = 100%nat
        /\ placeholders g
        /\ forall p,
            In (EvDataDir X p) (events (snd (_load_graphs X e tv d st))) ->
            In (EvDataDir X p) (events st)).
Proof.
  intros Hreach.
  destruct (load_graphs_post e tv d st) as [g [Hg Hm]].
  exists g. split; [exact Hg|]. split.
  - intros st'' Hext. now apply load_graphs_again with (st := st).
  - intros ->.
    assert (Hp : placeholders g).
    { apply (reachable_dummy_lists_ok _ (reach_load_graphs e tv true st Hreach)
               e tv g Hm). }
    split; [|split; [exact Hp|]].
    + destruct Hp as [n ->]. now rewrite length_map, length_seq.
    + intros p. apply load_graphs_dummy_events.
Qed.

(** *** Cache keys *)

Lemma string_length_append (a b : string) :
  String.length (a ++ b) = (String.length a + String.length b)%nat.
Proof. induction a as [|c a IH]; simpl; [reflexivity|now rewrite IH]. Qed.

Lemma append_cancel_r (s : string) :
  forall a b : string, (a ++ s = b ++ s)%string -> a = b.
Proof.
  induction a as [|c a IH]; intros [|c' b] H; simpl in H.
  - reflexivity.
  - apply (f_equal String.length) in H. simpl in H.
    rewrite string_length_append in H. lia.
  - apply (f_equal String.length) in H. simpl in H.
    rewrite string_length_append in H. lia.
  - injection H as -> H. now rewrite (IH b H).
Qed.

Lemma append_suffix (s t : string) :
  forall b a : string,
    (a ++ s = b ++ t)%string ->
    (String.length s <= String.length t)%nat ->
    exists t', t = (t' ++ s)%string.
Proof.
  induction b as [|c b IH]; intros a H Hlen; simpl in H.
  - exists a. now rewrite H.
  - destruct a as [|c' a]; simpl in H.
    + apply (f_equal String.length) in H. simpl in H.
      rewrite string_length_append in H. lia.
    + injection H as _ H. now apply (IH a).
Qed.

(** the four endings of a cache key built by [create_dataset] differ, and
    none is the tail of another *)
Lemma graphs_cache_key_injective (e1 e2 : Environment X) (tv1 tv2 : string)
    (d1 d2 : bool) :
  (forall a b, env_str X a = env_str X b -> a = b) ->
  tv1 = "train" \/ tv1 = "val" ->
  tv2 = "train" \/ tv2 = "val" ->
  _graphs_cache_key X e1 tv1 d1 = _graphs_cache_key X e2 tv2 d2 ->
  e1 = e2 /\ tv1 = tv2 /\ d1 = d2.
Proof.
  intros Hinj H1 H2 Hk. unfold _graphs_cache_key in Hk.
  destruct H1 as [-> | ->], H2 as [-> | ->], d1, d2; simpl in Hk;
    try (apply append_cancel_r in Hk; apply Hinj in Hk; now subst);
    exfalso;
    first
      [ apply append_suffix in Hk; [|simpl; lia]
      | symmetry in Hk; apply append_suffix in Hk; [|simpl; lia] ];
    destruct Hk as [t' Ht'];
    repeat (destruct t' as [|? t']; simpl in Ht';
            [discriminate Ht'|]; injection Ht' as _ Ht');
    destruct t'; discriminate Ht'.
Qed.

(** *** What the graphs cache holds *)

(** every entry of the graphs cache sits under the key of a split and is
    the list [_load_graphs] remembers for that split *)
Definition coherent (st : state X) : Prop :=
  forall k g,
    Dict.get k (graphs_cache st) = Some g ->
    exists e tv d,
      (tv = "train" \/ tv = "val")
      /\ k = _graphs_cache_key X e tv d
      /\ assoc load_key_eq_dec (e, tv, d) (load_graphs_memo st) = Some g.

Lemma load_graphs_graphs_cache (e : Environment X) (tv : string) (d : bool)
    (st : state X) :
  graphs_cache (snd (_load_graphs X e tv d st)) = graphs_cache st.
Proof.
  pose proof (quiet_load_graphs_body e tv d st) as Hq.
  unfold _load_graphs, lru_cache.
  destruct (assoc _ _ _); [reflexivity|].
  destruct (load_graphs_body X e tv d st) as [[g|ex] st1];
    unfold tables in Hq; simpl in *; congruence.
Qed.

Lemma load_graphs_coherent (e : Environment X) (tv : string) (d : bool)
    (st : state X) :
  coherent st -> coherent (snd (_load_graphs X e tv d st)).
Proof.
  intros Hc k g Hk. rewrite load_graphs_graphs_cache in Hk.
  destruct (Hc k g Hk) as [e0 [tv0 [d0 [Htv [Hkey Hm]]]]].
  exists e0, tv0, d0. split; [exact Htv|]. split; [exact Hkey|].
  now apply (proj1 (load_graphs_extends e tv d st)).
Qed.

Lemma load_and_cache_coherent (e : Environment X) (tv : string)
    (dummy : bool) (st : state X) :
  tv = "train" \/ tv = "val" ->
  coherent st -> coherent (snd (load_and_cache e tv dummy st)).
Proof.
  intros Htv Hc.
  pose proof (load_graphs_coherent e tv dummy st Hc) as Hc1.
  destruct (load_graphs_post e tv dummy st) as [loaded [Hl Hm]].
  unfold load_and_cache, bind.
  destruct (_load_graphs X e tv dummy st) as [r s1]. simpl in *. subst r.
  unfold cache_graphs. simpl. intros k g Hk. simpl in Hk.
  destruct (String.string_dec (_graphs_cache_key X e tv dummy) k)
    as [<-|Hne].
  - rewrite DictFacts.get_set_same in Hk. inversion Hk; subst g. clear Hk.
    destruct (Dict.get (_graphs_cache_key X e tv dummy) (graphs_cache s1))
      as [g0|] eqn:E.
    + exact (Hc1 _ _ E).
    + exists e, tv, dummy. auto.
  - rewrite DictFacts.get_set_other in Hk by exact Hne.
    exact (Hc1 _ _ Hk).
Qed.

Lemma creator_coherent (kind : DatasetType) (key : string)
    (normalization : norm_arg X) (kw : kwargs) (st : state X) :
  coherent st -> coherent (snd (creator X kind key normalization kw st)).
Proof.
  destruct (creator_load_graphs_memo kind key normalization kw st)
    as [Hm Hc].
  unfold coherent. now rewrite Hm, Hc.
Qed.

Lemma after_loading_coherent (e : Environment X) (dummy : bool)
    (st : state X) :
  coherent st -> coherent (after_loading e dummy st).
Proof.
  intros Hc. unfold after_loading.
  apply load_and_cache_coherent; [now right|].
  apply load_and_cache_coherent; [now left|exact Hc].
Qed.

Lemma create_dataset_state (e : Environment X) (normalization : norm_arg X)
    (kind : DatasetType) (dummy : bool) (kw : kwargs) (st : state X) :
  let st' := snd (create_dataset X e normalization kind dummy kw st) in
  load_graphs_memo st' = load_graphs_memo (after_loading e dummy st)
  /\ graphs_cache st' = graphs_cache (after_loading e dummy st).
Proof.
  cbv zeta. rewrite create_dataset_steps.
  generalize (after_loading e dummy st) as s4. intros s4.
  unfold bind.
  destruct (creator_load_graphs_memo kind
              (_graphs_cache_key X e "train" dummy) normalization kw s4)
    as [M5 C5].
  destruct (creator X kind (_graphs_cache_key X e "train" dummy)
              normalization kw s4) as [[t|ex] s5]; cbn [snd] in *; [|auto].
  destruct (creator_load_graphs_memo kind
              (_graphs_cache_key X e "val" dummy) normalization kw s5)
    as [M6 C6].
  destruct (creator X kind (_graphs_cache_key X e "val" dummy)
              normalization kw s5) as [[v|ex] s6]; cbn [snd ret] in *;
    split; congruence.
Qed.

Lemma create_dataset_coherent (e : Environment X)
    (normalization : norm_arg X) (kind : DatasetType) (dummy : bool)
    (kw : kwargs) (st : state X) :
  coherent st ->
  coherent (snd (create_dataset X e normalization kind dummy kw st)).
Proof.
  intros Hc.
  destruct (create_dataset_state e normalization kind dummy kw st) as [Hm Hg].
  pose proof (after_loading_coherent e dummy st Hc) as H4.
  unfold coherent. rewrite Hm, Hg. exact H4.
Qed.

Lemma reachable_coherent (st : state X) : reachable st -> coherent st.
Proof.
  induction 1.
  - intros k g H. discriminate.
  - now apply load_graphs_coherent.
  - now apply creator_coherent.
  - now apply create_dataset_coherent.
  - specialize (H st). unfold tables in H. inversion H as [[H1 H2 H3 H4 H5]].
    unfold coherent. now rewrite H1, H2.
Qed.

(** C10. After a call of [create_dataset], successful or not, the graphs
    cache has an entry under the train key and under the validation key
    of [(environment, split, dummy)], so that [graphs_cache[key]] in the
    construction routines finds it.  In a running process, where distinct
    environments format to distinct strings, each of the two entries is
    the list [_load_graphs] returns for its split. *)
Theorem create_dataset_fills_graphs_cache (e : Environment X)
    (normalization : norm_arg X) (kind : DatasetType) (dummy : bool)
    (kw : kwargs) (st : state X) :
  let st' := snd (create_dataset X e normalization kind dummy kw st) in
  let train_key := _graphs_cache_key X e "train" dummy in
  let val_key := _graphs_cache_key X e "val" dummy in
  exists train_graphs val_graphs,
    Dict.get train_key (graphs_cache st') = Some train_graphs
    /\ Dict.get val_key (graphs_cache st') = Some val_graphs
    /\ cached_graphs X train_key st' = (Ok train_graphs, st')
    /\ cached_graphs X val_key st' = (Ok val_graphs, st')
    /\ (reachable st ->
        (forall a b, env_str X a = env_str X b -> a = b) ->
        _load_graphs X e "train" dummy st' = (Ok train_graphs, st')
        /\ _load_graphs X e "val" dummy st' = (Ok val_graphs, st')).
Proof.
  intros st' train_key val_key. subst train_key val_key.
  destruct (create_dataset_state e normalization kind dummy kw st) as [Hm Hg].
  fold st' in Hm, Hg.
  destruct (load_and_cache_post e "train" dummy st)
    as [l1 [g1 [_ [_ [_ [Hc1 _]]]]]].
  destruct (load_and_cache_post e "val" dummy
              (snd (load_and_cache e "train" dummy st)))
    as [l2 [g2 [_ [_ [_ [Hc2 _]]]]]].
  pose proof (load_and_cache_extends e "val" dummy
                (snd (load_and_cache e "train" dummy st))) as [_ [_ E24]].
  apply E24 in Hc1. fold (after_loading e dummy st) in Hc1, Hc2.
  rewrite <- Hg in Hc1, Hc2.
  exists g1, g2. split; [exact Hc1|]. split; [exact Hc2|].
  split; [unfold cached_graphs, Dict.item; now rewrite Hc1|].
  split; [unfold cached_graphs, Dict.item; now rewrite Hc2|].
  intros Hreach Hinj.
  assert (Hcoh : coherent st').
  { apply reachable_coherent. now apply reach_create_dataset. }
  split.
  - destruct (Hcoh _ _ Hc1) as [e0 [tv0 [d0 [Htv [Hkey Hmemo]]]]].
    apply graphs_cache_key_injective in Hkey; auto.
    destruct Hkey as [<- [<- <-]]. now apply load_graphs_hit.
  - destruct (Hcoh _ _ Hc2) as [e0 [tv0 [d0 [Htv [Hkey Hmemo]]]]].
    apply graphs_cache_key_injective in Hkey; auto.
    destruct Hkey as [<- [<- <-]]. now apply load_graphs_hit.
Qed.

End FactoryFacts.

(** * The properties on explicit inputs *)

Local Open Scope Z_scope.

(** the dataset [_create_op_dataset] builds from two graphs that yield 3
    and 5 operator samples *)
Definition eight_op_samples : MDataset sample_world :=
  built sample_world OPDataset 3 "two"
    (fst (op_samples 0 3) ++ fst (op_samples 100 5))
    (snd (op_samples 0 3) ++ snd (op_samples 100 5)).

Definition subgraph_dataset_1 : MDataset sample_world :=
  built sample_world SubgraphDataset 0 "k" subgraph_features_1 subgraph_labels_1.

Definition op_dataset_1 : MDataset sample_world :=
  built sample_world OPDataset 0 "k" op_features_1 op_labels_1.

Definition min_max : norm_arg sample_world := NormVal (PStr "MinMax").

(** two samples as [get] returns them, and one that uses ["labels"] as a
    feature key *)
Definition two_items : list pydict :=
  [[("x_op_feat", PNum 1); ("op_id", PStr "a");
    ("label", PDict [("y_op_feat", PNum 2)])];
   [("x_op_feat", PNum 3); ("op_id", PStr "b");
    ("label", PDict [("y_op_feat", PNum 4)])]].

Definition clashing_item : pydict :=
  [("labels", PNum 1); ("label", PDict [("y", PNum 2)])].

Example graphs_cache_key_dummy_train :
  _graphs_cache_key sample_world "env" "train" true = "env|train|True".
Proof. reflexivity. Qed.

Example create_op_dataset_two_graphs :
  fst (_create_op_dataset sample_world "two" min_max [] two_graphs_state)
  = Ok eight_op_samples.
Proof. vm_compute. reflexivity. Qed.

(** the fitting routine does return a [Normalizer] with a scaler for the
    grouped key; [__init__] keeps none of it *)
Example subgraph_normalizer_is_built :
  fst (init_normalizer_impl sample_world SubgraphDataset subgraph_features_1
         subgraph_labels_1 MinMaxScaler (initial_state sample_world))
  = Ok {| x_scaler_dict :=
            [("x_subgraph_feat",
              @TMapCall sample_world
                (MinMaxScaler, [PList [PNum 0]; PList [PNum 10]]));
             ("graph_id", TIdentity sample_world)];
          y_scaler_dict :=
            [("y_subgraph_feat",
              @TScaler sample_world (MinMaxScaler, [PList [PNum 5]]))] |}.
Proof. vm_compute. reflexivity. Qed.

(** C1 at [SubgraphDataset("k", features, labels, "MinMax")]: no normalizer
    is attached and [get(0)] is the stored sample. *)
Lemma getitem_string_mode_returns_raw_sample_witness :
  get_normalizer subgraph_dataset_1 = None
  /\ getitem subgraph_dataset_1 0
     = Ok [("x_subgraph_feat", PList [PList [PNum 0]; PList [PNum 10]]);
           ("graph_id", PStr "g0");
           ("label", PDict [("y_subgraph_feat", PList [PNum 5])])].
Proof.
  destruct (getitem_string_mode_returns_raw_sample sample_world
              SubgraphDataset "k" subgraph_features_1 subgraph_labels_1
              "MinMax" (initial_state sample_world)
              (snd (new_dataset sample_world SubgraphDataset "k"
                      subgraph_features_1 subgraph_labels_1 min_max
                      (initial_state sample_world)))
              subgraph_dataset_1)
    as [Hnone Hget].
  - vm_compute. reflexivity.
  - split; [exact Hnone|].
    exact (Hget 0 _ _ eq_refl eq_refl).
Defined.

(** C2, as stated, at the mode string ["min-max"]: construction raises,
    while ["MinMax"] constructs. *)
Lemma min_max_mode_string_rejected :
  fst (new_dataset sample_world OPDataset "k" op_features_1 op_labels_1
         (NormVal (PStr "min-max")) (initial_state sample_world))
  = Raise ValueError
  /\ fst (new_dataset sample_world OPDataset "k" op_features_1 op_labels_1
            (NormVal (PStr "MinMax")) (initial_state sample_world))
     = Ok op_dataset_1.
Proof. split; vm_compute; reflexivity. Qed.

Lemma new_dataset_mode_strings_witness :
  fst (new_dataset sample_world OPDataset "k" op_features_1 op_labels_1
         (NormVal (PStr "MinMax")) (initial_state sample_world))
  = Ok op_dataset_1
  /\ new_dataset sample_world OPDataset "k" op_features_1 op_labels_1
       (NormVal (PStr "min-max")) (initial_state sample_world)
     = (Raise ValueError, with_next_oid 1 (initial_state sample_world)).
Proof.
  split.
  - rewrite (proj1 (new_dataset_mode_strings sample_world OPDataset "k"
                      op_features_1 op_labels_1 "MinMax"
                      (initial_state sample_world)) eq_refl).
    vm_compute. reflexivity.
  - apply (proj2 (new_dataset_mode_strings sample_world OPDataset "k"
                    op_features_1 op_labels_1 "min-max"
                    (initial_state sample_world))); discriminate.
Defined.

(** C3 at one operator sample: the first feature dict has the key
    ["x_op_feat"], the X mapping has no entry for it. *)
Lemma op_scaler_dict_lacks_operator_key_witness :
  In (X_OP_FEAT sample_keys) (Dict.keys (hd [] op_features_1))
  /\ exists nz,
      fst (init_normalizer_impl sample_world OPDataset op_features_1
             op_labels_1 MinMaxScaler (initial_state sample_world)) = Ok nz
      /\ Dict.keys (x_scaler_dict nz) = ["x_subgraph_feat"; "op_id"]%string
      /\ Dict.get (X_OP_FEAT sample_keys) (x_scaler_dict nz) = None.
Proof.
  split; [now left|].
  eexists. split; [vm_compute; reflexivity|]. split; [reflexivity|].
  apply (op_scaler_dict_lacks_operator_key sample_world op_features_1
           op_labels_1 MinMaxScaler (initial_state sample_world)
           (snd (init_normalizer_impl sample_world OPDataset op_features_1
                   op_labels_1 MinMaxScaler (initial_state sample_world)))).
  - discriminate.
  - vm_compute. reflexivity.
Defined.

(** C4, as stated, at the index [-1] of a dataset of one sample: the index
    is outside [[0, 1)] and [get(-1)] returns the sample. *)
Lemma getitem_negative_index_succeeds :
  len op_dataset_1 = 1%nat
  /\ ~ (0 <= -1 < 1)
  /\ getitem op_dataset_1 (-1)
     = Ok [("x_op_feat", PList [PNum 0; PNum 1]); ("op_id", PNum 0);
           ("label", PDict [("y_op_feat", PList [PList [PNum 0]])])].
Proof. split; [reflexivity|]. split; [lia|]. vm_compute. reflexivity. Qed.

(** a dataset with a callable attached and no label at all *)
Definition unlabelled_dataset : MDataset sample_world :=
  {| oid := 0; klass := OPDataset; graphs_cache_key := "k";
     features := op_features_1; labels := [];
     normalizer := Some (0%nat : callable sample_world) |}.

Lemma getitem_index_range_witness :
  len eight_op_samples = 8%nat
  /\ (forall index, 0 <= index <= 7 ->
                    exists item, getitem eight_op_samples index = Ok item)
  /\ getitem eight_op_samples 8 = Raise IndexError
  /\ getitem eight_op_samples (-9) = Raise IndexError
  /\ (exists x y, getitem eight_op_samples (-8)
                  = Ok (Dict.set "label" (PDict y) (dict_copy x)))
  /\ getitem unlabelled_dataset 1 = Raise IndexError
  /\ getitem unlabelled_dataset (-2) = Raise IndexError.
Proof.
  destruct (getitem_index_range sample_world eight_op_samples)
    as [Hout [Hin H8]].
  destruct (getitem_index_range sample_world unlabelled_dataset)
    as [Hout' _].
  split; [reflexivity|].
  destruct (H8 eq_refl) as [Hfail Hall].
  split; [exact (Hall eq_refl eq_refl)|]. split; [exact Hfail|].
  split; [|split; [|split]].
  - apply Hout. vm_compute. left. reflexivity.
  - destruct (Hin eq_refl eq_refl (-8)) as [x [y [_ [_ H]]]].
    + vm_compute. split; [discriminate|reflexivity].
    + exists x, y. exact H.
  - apply Hout'. vm_compute. right. discriminate.
  - apply Hout'. vm_compute. left. reflexivity.
Defined.

(** C9 at [normalization=None]. *)
Lemma new_dataset_rejects_other_normalization_witness :
  new_dataset sample_world OPDataset "k" op_features_1 op_labels_1
    (NormVal PNone) (initial_state sample_world)
  = (Raise ValueError, with_next_oid 1 (initial_state sample_world)).
Proof.
  apply (new_dataset_rejects_other_normalization sample_world OPDataset "k"
           op_features_1 op_labels_1 PNone (initial_state sample_world)).
  intros s. discriminate.
Defined.

Lemma two_items_ok : Forall sample_ok two_items.
Proof.
  repeat constructor; simpl; try (intros H; intuition discriminate).
  all: intros v Hv; inversion Hv; subst; eexists; split; [reflexivity|].
  all: repeat constructor; simpl; tauto.
Qed.

(** the stand-ins at work on a concrete column *)
Ltac accepts_by_computation :=
  eexists; split;
  [vm_compute; reflexivity
  |intros E; first [discriminate E|eexists; vm_compute; reflexivity]].

(** numpy and torch take what the two samples hold *)
Lemma two_items_convertible : convertible sample_world two_items.
Proof.
  apply convertible_by_keys.
  - intros s k Hs Hk Hne.
    destruct Hs as [<-|[<-|[]]];
      destruct Hk as [<-|[<-|[<-|[]]]];
      try (now contradiction Hne); accepts_by_computation.
  - intros s ld vk Hs Hl Hk.
    destruct Hs as [<-|[<-|[]]]; injection Hl as <-;
      destruct Hk as [<-|[]]; accepts_by_computation.
Qed.

(** C6, as stated, at two inputs.  On an ordinary sample the batch has no
    entry under the reserved key ["label"]: the labels are gathered under
    ["labels"].  On a sample that has a feature key ["labels"] beside its
    label dict, the collator raises. *)
Lemma data_collator_label_key_differs :
  (exists batch,
      data_collator sample_world two_items = Ok batch
      /\ Dict.get "label" batch = None
      /\ Dict.get "labels" batch
         = Some (CDict
                   [("y_op_feat",
                     CTensor (X := sample_world) [PNum 2; PNum 4])]))
  /\ Dict.get "label" clashing_item = Some (PDict [("y", PNum 2)])
  /\ data_collator sample_world [clashing_item] = Raise AttributeError.
Proof.
  split; [eexists; split; [vm_compute; reflexivity|split; reflexivity]|].
  split; reflexivity.
Qed.

Lemma data_collator_columns_witness :
  exists batch,
    data_collator sample_world two_items = Ok batch
    /\ Dict.get "x_op_feat" batch
       = Some (CTensor (X := sample_world) [PNum 1; PNum 3])
    /\ Dict.get "op_id" batch
       = Some (CArray (X := sample_world) [PStr "a"; PStr "b"])
    /\ (exists bl, Dict.get "labels" batch = Some (CDict bl)
                   /\ Dict.get "y_op_feat" bl
                      = Some (CTensor (X := sample_world) [PNum 2; PNum 4]))
    /\ ~ In "label"%string (Dict.keys batch).
Proof.
  destruct (data_collator_columns sample_world two_items two_items_ok
              two_items_convertible)
    as [batch [Hrun [Hfeat [Hlab Hkeys]]]].
  exists batch. split; [exact Hrun|]. split; [|split; [|split]].
  - destruct (Hfeat "x_op_feat"%string [PNum 1; PNum 3])
      as [_ [leaf [[a [Ha Hleaf]] Hget]]];
      [discriminate|discriminate|repeat constructor|].
    vm_compute in Ha. injection Ha as <-.
    destruct Hleaf as [t [Ht ->]]. vm_compute in Ht. injection Ht as <-.
    exact Hget.
  - destruct (Hfeat "op_id"%string [PStr "a"; PStr "b"])
      as [_ [leaf [[a [Ha Hleaf]] Hget]]];
      [discriminate|discriminate|repeat constructor|].
    vm_compute in Ha. injection Ha as <-.
    change (leaf = CArray (X := sample_world) [PStr "a"; PStr "b"])
      in Hleaf.
    subst leaf.
    exact Hget.
  - destruct (Hlab "y_op_feat"%string [PNum 2; PNum 4])
      as [_ [bl [leaf [Hbl [[a [Ha Hleaf]] Hget]]]]]; [discriminate| |].
    { repeat constructor; eexists; split; reflexivity. }
    vm_compute in Ha. injection Ha as <-.
    destruct Hleaf as [t [Ht ->]]. vm_compute in Ht. injection Ht as <-.
    exists bl. split; [exact Hbl|exact Hget].
  - intros Hin. destruct (Hkeys _ Hin) as [H|[H _]];
      [discriminate H|now apply H].
Defined.

(** C7 on the batch of the two samples: the numbers under a key with the
    suffix end as a tensor, the identifiers under ["op_id"] as an array,
    and the label values, nested, as a tensor. *)
Lemma data_collator_converts_by_suffix_witness :
  exists batch,
    data_collator sample_world two_items = Ok batch
    /\ Dict.get "x_op_feat" batch
       = Some (CTensor (X := sample_world) [PNum 1; PNum 3])
    /\ leaf_of sample_world "x_op_feat" [PNum 1; PNum 3]
         (CTensor (X := sample_world) [PNum 1; PNum 3])
    /\ Dict.get "op_id" batch
       = Some (CArray (X := sample_world) [PStr "a"; PStr "b"])
    /\ leaf_of sample_world "op_id" [PStr "a"; PStr "b"]
         (CArray (X := sample_world) [PStr "a"; PStr "b"])
    /\ Dict.get "labels" batch
       = Some (CDict
                 [("y_op_feat",
                   CTensor (X := sample_world) [PNum 2; PNum 4])])
    /\ leaf_of sample_world "y_op_feat" [PNum 2; PNum 4]
         (CTensor (X := sample_world) [PNum 2; PNum 4])
    /\ forall k v, In (k, v) batch -> converted sample_world k v.
Proof.
  destruct (data_collator sample_world two_items) as [batch|e] eqn:Hrun;
    [|exfalso; vm_compute in Hrun; discriminate Hrun].
  destruct (data_collator_converts_by_suffix sample_world two_items batch
              Hrun) as [Htags Hcols].
  destruct (Hcols two_items_ok) as [Hfeat Hlab].
  vm_compute in Hrun. injection Hrun as <-.
  eexists. split; [reflexivity|]. split; [reflexivity|].
  split; [apply (Hfeat "x_op_feat"%string _ eq_refl); discriminate|].
  split; [reflexivity|].
  split; [apply (Hfeat "op_id"%string _ eq_refl); discriminate|].
  split; [reflexivity|].
  split; [|exact Htags].
  destruct (Hlab _ eq_refl) as [ld [Hld Hleaf]]. injection Hld as <-.
  apply (Hleaf "y_op_feat"%string _ eq_refl).
Defined.

(** C5 on [_create_op_dataset] over two graphs and on [create_dataset]
    over placeholder graphs: the second call returns what the first
    returned and changes nothing. *)
Lemma factory_returns_cached_dataset_witness :
  (let first := _create_op_dataset sample_world "two" min_max []
                  two_graphs_state in
   fst first = Ok eight_op_samples
   /\ _create_op_dataset sample_world "two" min_max [] (snd first)
      = (Ok eight_op_samples, snd first))
  /\ (let first := create_dataset sample_world "env" min_max Subgraph true []
                     (initial_state sample_world) in
      create_dataset sample_world "env" min_max Subgraph true [] (snd first)
      = first).
Proof.
  split.
  - intros first. split; [vm_compute; reflexivity|].
    apply (proj1 (factory_returns_cached_dataset sample_world) OP
             "two"%string min_max [] eight_op_samples two_graphs_state
             (snd first) (snd first)).
    + vm_compute. reflexivity.
    + apply extends_refl.
  - intros first. subst first.
    destruct (create_dataset sample_world "env" min_max Subgraph true []
                (initial_state sample_world))
      as [[[train val]|ex] st'] eqn:H.
    + apply (proj2 (factory_returns_cached_dataset sample_world) "env"%string
               min_max Subgraph true [] train val (initial_state sample_world)
               st' st' H (extends_refl sample_world st')).
    + exfalso. apply (f_equal fst) in H. vm_compute in H. discriminate H.
Defined.

(** C8 on the first call of a process, with [dummy=True]. *)
Lemma load_graphs_memoized_witness :
  exists g,
    fst (_load_graphs sample_world "env" "train" true
           (initial_state sample_world)) = Ok g
    /\ length (glist_items g) = 100%nat
    /\ _load_graphs sample_world "env" "train" true
         (snd (_load_graphs sample_world "env" "train" true
                 (initial_state sample_world)))
       = (Ok g, snd (_load_graphs sample_world "env" "train" true
                       (initial_state sample_world))).
Proof.
  destruct (load_graphs_memoized sample_world "env"%string "train"%string
              true (initial_state sample_world) (reach_initial sample_world))
    as [g [Hg [Hagain Hdummy]]].
  exists g. split; [exact Hg|]. split.
  - exact (proj1 (Hdummy eq_refl)).
  - apply Hagain. apply extends_refl.
Defined.

(** C10 on the first call of a process. *)
Lemma create_dataset_fills_graphs_cache_witness :
  let st' := snd (create_dataset sample_world "env" min_max Subgraph true []
                    (initial_state sample_world)) in
  exists train_graphs val_graphs,
    Dict.get "env|train|True" (graphs_cache st') = Some train_graphs
    /\ Dict.get "env|val|True" (graphs_cache st') = Some val_graphs
    /\ _load_graphs sample_world "env" "train" true st'
       = (Ok train_graphs, st')
    /\ _load_graphs sample_world "env" "val" true st' = (Ok val_graphs, st').
Proof.
  intros st'.
  destruct (create_dataset_fills_graphs_cache sample_world "env"%string
              min_max Subgraph true [] (initial_state sample_world))
    as [gt [gv [Ht [Hv [_ [_ Hloaded]]]]]].
  exists gt, gv. split; [exact Ht|]. split; [exact Hv|].
  apply Hloaded; [apply reach_initial|].
  intros a b H. exact H.
Defined.

(** * Further properties of the pipeline *)

Local Close Scope Z_scope.

(** ** Datasets: construction and access *)

Section DatasetMore.

Variable X : externals.

Lemma new_dataset_callable (v : variant) (key : string) (f l : list pydict)
    (c : callable X) (st : state X) :
  new_dataset X v key f l (NormCallable c) st
  = (Ok {| oid := next_oid st; klass := v; graphs_cache_key := key;
           features := f; labels := l; normalizer := Some c |},
     with_next_oid (S (next_oid st)) st).
Proof. reflexivity. Qed.

(** X1. With a callable as [normalization] the constructor fits nothing
    and stores the callable.  [get(i)] then returns what the callable
    returns for the stored pair, labelled, or the callable's exception;
    but a callable object that tests false is never called, and [get(i)]
    returns the stored sample as it is. *)
Theorem getitem_custom_normalizer (v : variant) (key : string)
    (f l : list pydict) (c : callable X) (st : state X) (index : Z)
    (x y : pydict) :
  list_index f index = Ok x ->
  list_index l index = Ok y ->
  exists ds st',
    new_dataset X v key f l (NormCallable c) st = (Ok ds, st')
    /\ events st' = events st
    /\ get_normalizer ds = Some c
    /\ getitem ds index
       = if callable_truth X c
         then rbind (call X c x y)
                (fun xy => Ok (Dict.set "label" (snd xy) (dict_copy (fst xy))))
         else Ok (Dict.set "label" (PDict y) (dict_copy x)).
Proof.
  intros Hx Hy. eexists. eexists.
  split; [apply new_dataset_callable|].
  split; [reflexivity|]. split; [reflexivity|].
  unfold getitem. cbn [features labels normalizer]. rewrite Hx, Hy.
  cbn [rbind]. destruct (callable_truth X c); reflexivity.
Qed.

Lemma get_y_scaler_dict_empty (cls : scaler_class) (st : state X) :
  get_y_scaler_dict X [] cls st = (Raise IndexError, st).
Proof. reflexivity. Qed.

Lemma init_normalizer_impl_empty_features (v : variant) (l : list pydict)
    (cls : scaler_class) (st : state X) :
  init_normalizer_impl X v [] l cls st = (Raise IndexError, st).
Proof. destruct v; reflexivity. Qed.

Lemma init_normalizer_impl_empty_labels (v : variant) (f : list pydict)
    (cls : scaler_class) (st : state X) :
  exists e, fst (init_normalizer_impl X v f [] cls st) = Raise e.
Proof.
  destruct v; simpl;
    [unfold op_init_normalizer_impl|unfold subgraph_init_normalizer_impl];
    unfold bind at 1; unfold lift at 1;
    (destruct (list_index f 0) as [x_sample|e]; [|simpl; eauto]);
    unfold bind at 1;
    (destruct (for_each X _ _ _ st) as [[[xsd pool]|e] st1]; [|simpl; eauto]);
    unfold bind at 1; rewrite get_y_scaler_dict_empty; simpl; eauto.
Qed.

(** X2. With one of the two mode strings the code knows, an empty feature
    list makes the constructor raise [IndexError] at [features[0]], before
    anything is fitted; and with an empty label list it never returns a
    dataset, whatever the features are. *)
Theorem new_dataset_empty_lists (v : variant) (key : string)
    (f l : list pydict) (s : string) (st : state X) :
  s = "Standard" \/ s = "MinMax" ->
  (f = [] ->
   new_dataset X v key f l (NormVal (PStr s)) st
   = (Raise IndexError, with_next_oid (S (next_oid st)) st))
  /\ (l = [] ->
      exists e, fst (new_dataset X v key f l (NormVal (PStr s)) st) = Raise e).
Proof.
  intros Hs. split; intros ->; rewrite new_dataset_str; unfold init_normalizer.
  - destruct Hs as [-> | ->]; simpl;
      unfold bind; now rewrite init_normalizer_impl_empty_features.
  - assert (H : forall cls st0, exists e,
                 fst (bind X (init_normalizer_impl X v f [] cls)
                        (fun _ => ret X tt) st0) = Raise e).
    { intros cls st0. unfold bind.
      destruct (init_normalizer_impl_empty_labels v f cls st0) as [e He].
      destruct (init_normalizer_impl X v f [] cls st0) as [[nz|e'] st1];
        simpl in *; [discriminate|eauto]. }
    destruct Hs as [-> | ->]; simpl;
      match goal with
      | |- context [bind X (init_normalizer_impl X v f [] ?cls) _ ?s0] =>
          destruct (H cls s0) as [e He];
          destruct (bind X (init_normalizer_impl X v f [] cls) _ s0)
            as [[u|e'] st1]; simpl in *; [discriminate|eauto]
      end.
Qed.

(** X3. [__len__] counts the feature dicts only, while [__getitem__] also
    indexes the labels: an index that is valid for the features and out of
    range for a shorter label list raises [IndexError]. *)
Theorem getitem_label_out_of_range (ds : MDataset X) (index : Z) :
  (- Z.of_nat (len ds) <= index < Z.of_nat (len ds))%Z ->
  (index < - Z.of_nat (length (labels ds))
   \/ Z.of_nat (length (labels ds)) <= index)%Z ->
  getitem ds index = Raise IndexError.
Proof.
  intros Hf Hl. unfold getitem.
  destruct (list_index_in_range (features ds) index Hf) as [x [_ ->]].
  cbn [rbind]. now rewrite (list_index_out_of_range (labels ds) index Hl).
Qed.

(** X4. The item [get] returns for a stored pair: the label dict sits
    under ["label"], replacing a feature entry of that name if there is
    one, and every other feature entry is there under its own key. *)
Theorem getitem_entries (ds : MDataset X) (index : Z) (x y : pydict) :
  normalizer ds = None ->
  list_index (features ds) index = Ok x ->
  list_index (labels ds) index = Ok y ->
  Dict.wf x ->
  exists item,
    getitem ds index = Ok item
    /\ Dict.get "label" item = Some (PDict y)
    /\ (forall k, k <> "label" -> Dict.get k item = Dict.get k x)
    /\ (forall k, In k (Dict.keys item) <-> k = "label" \/ In k (Dict.keys x)).
Proof.
  intros Hn Hx Hy Hwf.
  exists (Dict.set "label" (PDict y) (dict_copy x)).
  split; [exact (getitem_without_normalizer X ds index x y Hn Hx Hy)|].
  rewrite (dict_copy_wf x Hwf).
  split; [apply DictFacts.get_set_same|]. split.
  - intros k Hk. apply DictFacts.get_set_other. congruence.
  - intros k. apply DictFacts.keys_set.
Qed.

(** *** What the scalers are fitted on *)

(** the values all samples hold under [key], in sample order *)
Definition column_of (key : string) (samples : list pydict)
    (vals : list pyval) : Prop :=
  Forall2 (fun d v => Dict.get key d = Some v) samples vals.

(** the elements of the values all samples hold under [key], sample by
    sample *)
Definition elements_of (key : string) (samples : list pydict)
    (ess : list (list pyval)) : Prop :=
  Forall2 (fun d es => exists v, Dict.get key d = Some v /\ py_iter v = Ok es)
    samples ess.

Lemma pool_values_spec (key : string) (samples : list pydict) :
  forall acc r,
    pool_values key samples acc = Ok r ->
    exists vals, column_of key samples vals /\ r = acc ++ vals.
Proof.
  unfold pool_values, column_of.
  induction samples as [|d samples IH]; intros acc r H; simpl in H.
  - inversion H; subst. exists []. split; [constructor|now rewrite app_nil_r].
  - unfold Dict.item in H. destruct (Dict.get key d) as [v|] eqn:E;
      simpl in H; [|discriminate].
    destruct (IH _ _ H) as [vals [Hcol ->]].
    exists (v :: vals). split; [now constructor|].
    now rewrite <- app_assoc.
Qed.

Lemma pool_elements_spec (key : string) (samples : list pydict) :
  forall acc r,
    pool_elements key samples acc = Ok r ->
    exists ess, elements_of key samples ess /\ r = acc ++ concat ess.
Proof.
  unfold pool_elements, elements_of.
  induction samples as [|d samples IH]; intros acc r H; simpl in H.
  - inversion H; subst. exists []. split; [constructor|].
    simpl. now rewrite app_nil_r.
  - unfold Dict.item in H. destruct (Dict.get key d) as [v|] eqn:E;
      simpl in H; [|discriminate].
    destruct (py_iter v) as [es|e] eqn:Ei; simpl in H; [|discriminate].
    destruct (IH _ _ H) as [ess [Hcol ->]].
    exists (es :: ess). split; [constructor; eauto|].
    simpl. now rewrite <- app_assoc.
Qed.

Lemma fit_scaler_ok (cls : scaler_class) (data : list pyval)
    (st st' : state X) (s : scaler X) :
  fit_scaler X cls data st = (Ok s, st') -> fit X cls data = Ok s.
Proof.
  unfold fit_scaler, bind, log, lift. simpl. now intros [= -> _].
Qed.

(** the entry the label-side builder makes for a key: identity outside the
    two scaled roles, a scaler fitted on the column for the subgraph role,
    an element-wise scaler fitted on the pooled elements for the operator
    role *)
Definition y_entry (l : list pydict) (cls : scaler_class) (k : string)
    (t : transform X) : Prop :=
  (k <> Y_OP_FEAT (keys_of X) /\ k <> Y_SUBGRAPH_FEAT (keys_of X)
   /\ t = TIdentity X)
  \/ (k = Y_SUBGRAPH_FEAT (keys_of X)
      /\ exists vals s,
          column_of k l vals /\ fit X cls vals = Ok s /\ t = TScaler s)
  \/ (k = Y_OP_FEAT (keys_of X) /\ k <> Y_SUBGRAPH_FEAT (keys_of X)
      /\ exists ess s,
          elements_of k l ess /\ fit X cls (concat ess) = Ok s
          /\ t = TMapCall s).

Lemma get_set_cases {V} (k k' : string) (v v' : V) (d : Dict.t V) :
  Dict.get k' (Dict.set k v d) = Some v' ->
  (k' = k /\ v' = v) \/ (k' <> k /\ Dict.get k' d = Some v').
Proof.
  destruct (String.string_dec k k') as [<-|Hne].
  - rewrite DictFacts.get_set_same. intros [= <-]. now left.
  - rewrite DictFacts.get_set_other by exact Hne. intros H. right.
    split; [congruence|exact H].
Qed.

Lemma y_scaler_dict_entries_ok (l : list pydict) (cls : scaler_class)
    (st st' : state X) (d : Dict.t (transform X)) :
  get_y_scaler_dict X l cls st = (Ok d, st') ->
  forall k t, Dict.get k d = Some t -> y_entry l cls k t.
Proof.
  unfold get_y_scaler_dict. unfold bind at 1. unfold lift at 1.
  destruct (list_index l 0) as [y_sample|e]; [|discriminate].
  intros Hrun.
  eapply (for_each_invariant X
            (fun b => forall k t, Dict.get k b = Some t -> y_entry l cls k t));
    [| |exact Hrun]; [|intros k0 t0 H0; discriminate H0].
  clear. intros b a st b' st' Hb H. cbv beta in H.
  destruct (String.eqb a (Y_OP_FEAT (keys_of X))) eqn:Eop;
    destruct (String.eqb a (Y_SUBGRAPH_FEAT (keys_of X))) eqn:Esub;
    cbn [orb negb] in H.
  - (* both roles carry the same name: the subgraph branch runs *)
    apply String.eqb_eq in Esub.
    unfold bind at 1 in H. unfold lift at 1 in H.
    destruct (pool_values a l []) as [vals|e] eqn:Ep; [|discriminate].
    unfold bind at 1 in H.
    destruct (fit_scaler X cls vals st) as [[s|e] st1] eqn:Ef; [|discriminate].
    unfold ret in H. inversion H; subst b' st1. clear H.
    intros k t Hk. apply get_set_cases in Hk.
    destruct Hk as [[-> ->]|[_ Hk]]; [|now apply Hb].
    right. left. split; [exact Esub|].
    destruct (pool_values_spec _ _ _ _ Ep) as [vals' [Hcol Heq]].
    simpl in Heq. subst vals'. exists vals, s.
    split; [exact Hcol|]. split; [now apply fit_scaler_ok in Ef|reflexivity].
  - apply String.eqb_eq in Eop. apply String.eqb_neq in Esub.
    unfold bind at 1 in H. unfold lift at 1 in H.
    destruct (pool_elements (Y_OP_FEAT (keys_of X)) l []) as [pooled|e] eqn:Ep;
      [|discriminate].
    unfold bind at 1 in H.
    destruct (fit_scaler X cls pooled st) as [[s|e] st1] eqn:Ef;
      [|discriminate].
    unfold ret in H. inversion H; subst b' st1. clear H.
    intros k t Hk. apply get_set_cases in Hk.
    destruct Hk as [[-> ->]|[_ Hk]]; [|now apply Hb].
    right. right. split; [exact Eop|]. split; [exact Esub|].
    destruct (pool_elements_spec _ _ _ _ Ep) as [ess [Hcol Heq]].
    simpl in Heq. subst pooled. exists ess, s. rewrite Eop.
    split; [exact Hcol|]. split; [now apply fit_scaler_ok in Ef|reflexivity].
  - apply String.eqb_neq in Eop. apply String.eqb_eq in Esub.
    unfold bind at 1 in H. unfold lift at 1 in H.
    destruct (pool_values a l []) as [vals|e] eqn:Ep; [|discriminate].
    unfold bind at 1 in H.
    destruct (fit_scaler X cls vals st) as [[s|e] st1] eqn:Ef; [|discriminate].
    unfold ret in H. inversion H; subst b' st1. clear H.
    intros k t Hk. apply get_set_cases in Hk.
    destruct Hk as [[-> ->]|[_ Hk]]; [|now apply Hb].
    right. left. split; [exact Esub|].
    destruct (pool_values_spec _ _ _ _ Ep) as [vals' [Hcol Heq]].
    simpl in Heq. subst vals'. exists vals, s.
    split; [exact Hcol|]. split; [now apply fit_scaler_ok in Ef|reflexivity].
  - apply String.eqb_neq in Eop. apply String.eqb_neq in Esub.
    unfold ret in H. inversion H; subst b' st'. clear H.
    intros k t Hk. apply get_set_cases in Hk.
    destruct Hk as [[-> ->]|[_ Hk]]; [|now apply Hb].
    left. auto.
Qed.

(** X5. The label-side scaler dictionary, when the builder returns: every
    key of the first label dict has an entry, which is the identity for a
    key outside the two scaled roles, a scaler fitted on the values of all
    samples for the subgraph role, and an element-wise scaler fitted on
    the elements of all samples' values, pooled in sample order, for the
    operator role. *)
Theorem y_scaler_dict_entries (l : list pydict) (cls : scaler_class)
    (st st' : state X) (d : Dict.t (transform X)) :
  get_y_scaler_dict X l cls st = (Ok d, st') ->
  exists y_sample,
    list_index l 0 = Ok y_sample
    /\ forall k, In k (Dict.keys y_sample) ->
                 exists t, Dict.get k d = Some t /\ y_entry l cls k t.
Proof.
  intros Hrun.
  destruct (y_scaler_dict_covers X l cls st st' d Hrun)
    as [y_sample [Hy Hcov]].
  exists y_sample. split; [exact Hy|].
  intros k Hk. apply Hcov in Hk. apply DictFacts.get_some_in in Hk.
  destruct Hk as [t Ht]. exists t. split; [exact Ht|].
  exact (y_scaler_dict_entries_ok l cls st st' d Hrun k t Ht).
Qed.

(** the body of the loop over the keys in
    [SubgraphDataset._init_normalizer_impl] *)
Definition subgraph_step (f : list pydict) (cls : scaler_class)
  : Dict.t (transform X) * list pyval -> string
    -> M X (Dict.t (transform X) * list pyval) :=
  fun '(x_scaler_dict, group_features) k =>
    if negb (String.eqb k (X_SUBGRAPH_FEAT (keys_of X)))
    then ret X (Dict.set k (TIdentity X) x_scaler_dict, group_features)
    else
      bind X (lift X (pool_elements (X_SUBGRAPH_FEAT (keys_of X)) f
                        group_features))
        (fun group_features =>
           bind X (fit_scaler X cls group_features)
             (fun s =>
                ret X (Dict.set (X_SUBGRAPH_FEAT (keys_of X)) (TMapCall s)
                         x_scaler_dict,
                       group_features))).

(** the entry the per-subgraph variant makes for a feature key *)
Definition x_entry (f : list pydict) (cls : scaler_class) (k : string)
    (t : transform X) : Prop :=
  (k <> X_SUBGRAPH_FEAT (keys_of X) /\ t = TIdentity X)
  \/ (k = X_SUBGRAPH_FEAT (keys_of X)
      /\ exists ess s,
          elements_of k f ess /\ fit X cls (concat ess) = Ok s
          /\ t = TMapCall s).

Lemma subgraph_loop_entries (f : list pydict) (cls : scaler_class)
    (ks : list string) :
  forall xsd pool st r st',
    NoDup ks ->
    pool = [] \/ ~ In (X_SUBGRAPH_FEAT (keys_of X)) ks ->
    (forall k t, Dict.get k xsd = Some t -> x_entry f cls k t) ->
    for_each X ks (subgraph_step f cls) (xsd, pool) st = (Ok r, st') ->
    forall k t, Dict.get k (fst r) = Some t -> x_entry f cls k t.
Proof.
  induction ks as [|a ks IH]; intros xsd pool st r st' Hnd Hpool Hinv Hrun.
  - simpl in Hrun. unfold ret in Hrun. inversion Hrun; subst. exact Hinv.
  - inversion Hnd as [|? ? Hnot Hnd']; subst.
    cbn [for_each] in Hrun. unfold bind at 1 in Hrun.
    unfold subgraph_step at 1 in Hrun.
    destruct (String.eqb a (X_SUBGRAPH_FEAT (keys_of X))) eqn:Ea;
      cbn [negb] in Hrun.
    + apply String.eqb_eq in Ea. subst a.
      destruct Hpool as [-> | Hpool]; [|exfalso; apply Hpool; now left].
      unfold bind at 1 in Hrun. unfold lift at 1 in Hrun.
      destruct (pool_elements (X_SUBGRAPH_FEAT (keys_of X)) f [])
        as [pooled|e] eqn:Ep; [|discriminate].
      unfold bind at 1 in Hrun.
      destruct (fit_scaler X cls pooled st) as [[s|e] st1] eqn:Ef;
        [|discriminate].
      unfold ret at 1 in Hrun.
      eapply IH; [exact Hnd'|right; exact Hnot| |exact Hrun].
      intros k t Hk. apply get_set_cases in Hk.
      destruct Hk as [[-> ->]|[_ Hk]]; [|now apply Hinv].
      right. split; [reflexivity|].
      destruct (pool_elements_spec _ _ _ _ Ep) as [ess [Hcol Heq]].
      simpl in Heq. subst pooled. exists ess, s.
      split; [exact Hcol|]. split; [now apply fit_scaler_ok in Ef|reflexivity].
    + apply String.eqb_neq in Ea. unfold ret at 1 in Hrun.
      eapply IH; [exact Hnd'| | |exact Hrun].
      * destruct Hpool as [->|Hpool]; [now left|].
        right. intros Hin. apply Hpool. now right.
      * intros k t Hk. apply get_set_cases in Hk.
        destruct Hk as [[-> ->]|[_ Hk]]; [|now apply Hinv].
        left. auto.
Qed.

Lemma subgraph_init_normalizer_impl_unfold (f l : list pydict)
    (cls : scaler_class) :
  subgraph_init_normalizer_impl X f l cls
  = bind X (lift X (list_index f 0))
      (fun x_sample =>
         bind X (for_each X (Dict.keys x_sample) (subgraph_step f cls)
                   ([], []))
           (fun acc =>
              let '(x_scaler_dict, _) := acc in
              bind X (get_y_scaler_dict X l cls)
                (fun y_scaler_dict =>
                   ret X {| x_scaler_dict := x_scaler_dict;
                            y_scaler_dict := y_scaler_dict |}))).
Proof. reflexivity. Qed.

(** X6. The feature-side scaler dictionary of the per-subgraph variant,
    when the routine returns and the first feature dict is well formed:
    every key of that dict has an entry, the identity for every key but
    [X_SUBGRAPH_FEAT], and for [X_SUBGRAPH_FEAT] an element-wise scaler
    fitted on the node vectors of all samples, pooled in sample order. *)
Theorem subgraph_x_scaler_dict_entries (f l : list pydict)
    (cls : scaler_class) (st st' : state X) (nz : Normalizer X) :
  subgraph_init_normalizer_impl X f l cls st = (Ok nz, st') ->
  exists x_sample,
    list_index f 0 = Ok x_sample
    /\ (Dict.wf x_sample ->
        forall k, In k (Dict.keys x_sample) ->
                  exists t, Dict.get k (x_scaler_dict nz) = Some t
                            /\ x_entry f cls k t).
Proof.
  intros Hrun.
  destruct (subgraph_x_scaler_dict_covers X f l cls st st' nz Hrun)
    as [x_sample [Hx Hcov]].
  exists x_sample. split; [exact Hx|]. intros Hwf k Hk.
  apply Hcov in Hk. apply DictFacts.get_some_in in Hk.
  destruct Hk as [t Ht]. exists t. split; [exact Ht|].
  revert Hrun. rewrite subgraph_init_normalizer_impl_unfold.
  unfold bind at 1. unfold lift at 1. rewrite Hx.
  unfold bind at 1.
  destruct (for_each X (Dict.keys x_sample) (subgraph_step f cls) ([], []) st)
    as [[[xsd pool]|e] st1] eqn:Hloop; [|discriminate].
  unfold bind, ret.
  destruct (get_y_scaler_dict X l cls st1) as [[ysd|e] st2]; [|discriminate].
  intros H. inversion H; subst. simpl in Ht.
  eapply (subgraph_loop_entries f cls (Dict.keys x_sample) [] [] st
            (xsd, pool) st1); [exact Hwf|now left| |exact Hloop|exact Ht].
  intros k0 t0 H0. discriminate H0.
Qed.

(** *** A sample that lacks the grouped key *)

(** the body of the loop over the keys in
    [OPDataset._init_normalizer_impl] *)
Definition op_step (f : list pydict) (cls : scaler_class)
  : Dict.t (transform X) * list pyval -> string
    -> M X (Dict.t (transform X) * list pyval) :=
  fun '(x_scaler_dict, x_op_features) k =>
    if negb (String.eqb k (X_OP_FEAT (keys_of X)))
    then ret X (Dict.set k (TIdentity X) x_scaler_dict, x_op_features)
    else if String.eqb k (X_OP_FEAT (keys_of X))
    then
      bind X (lift X (pool_values (X_OP_FEAT (keys_of X)) f x_op_features))
        (fun x_op_features =>
           bind X (fit_scaler X cls x_op_features)
             (fun s =>
                ret X (Dict.set (X_SUBGRAPH_FEAT (keys_of X)) (TScaler s)
                         x_scaler_dict,
                       x_op_features)))
    else raise X AssertionError.

Lemma op_init_normalizer_impl_unfold (f l : list pydict)
    (cls : scaler_class) :
  op_init_normalizer_impl X f l cls
  = bind X (lift X (list_index f 0))
      (fun x_sample =>
         bind X (for_each X (Dict.keys x_sample) (op_step f cls) ([], []))
           (fun acc =>
              let '(x_scaler_dict, _) := acc in
              bind X (get_y_scaler_dict X l cls)
                (fun y_scaler_dict =>
                   ret X {| x_scaler_dict := x_scaler_dict;
                            y_scaler_dict := y_scaler_dict |}))).
Proof. reflexivity. Qed.

(** the key under which a variant looks for the values to pool *)
Definition grouped_key (v : variant) : string :=
  match v with
  | OPDataset => X_OP_FEAT (keys_of X)
  | SubgraphDataset => X_SUBGRAPH_FEAT (keys_of X)
  end.

Lemma pool_values_missing (key : string) (samples : list pydict) :
  (exists d, In d samples /\ Dict.get key d = None) ->
  forall acc, pool_values key samples acc = Raise (KeyError key).
Proof.
  unfold pool_values.
  induction samples as [|d0 samples IH]; intros [d [Hin Hd]] acc.
  - destruct Hin.
  - simpl. unfold Dict.item. destruct (Dict.get key d0) as [v|] eqn:E;
      [|reflexivity].
    simpl. apply IH. destruct Hin as [->|Hin]; [congruence|eauto].
Qed.

Lemma pool_elements_missing (key : string) (samples : list pydict) :
  (exists d, In d samples /\ Dict.get key d = None) ->
  (forall d v, In d samples -> Dict.get key d = Some v ->
               exists es, py_iter v = Ok es) ->
  forall acc, pool_elements key samples acc = Raise (KeyError key).
Proof.
  unfold pool_elements.
  induction samples as [|d0 samples IH]; intros [d [Hin Hd]] Hit acc.
  - destruct Hin.
  - simpl. unfold Dict.item. destruct (Dict.get key d0) as [v|] eqn:E;
      [|reflexivity].
    destruct (Hit d0 v (or_introl eq_refl) E) as [es Hes].
    simpl. rewrite Hes. simpl. apply IH.
    + destruct Hin as [->|Hin]; [congruence|eauto].
    + intros d1 v1 Hin1. apply Hit. now right.
Qed.

Lemma subgraph_loop_missing (f : list pydict) (cls : scaler_class)
    (ks : list string) :
  (forall acc, pool_elements (X_SUBGRAPH_FEAT (keys_of X)) f acc
               = Raise (KeyError (X_SUBGRAPH_FEAT (keys_of X)))) ->
  In (X_SUBGRAPH_FEAT (keys_of X)) ks ->
  forall acc st,
    for_each X ks (subgraph_step f cls) acc st
    = (Raise (KeyError (X_SUBGRAPH_FEAT (keys_of X))), st).
Proof.
  intros Hpool. induction ks as [|a ks IH]; intros Hin [xsd pool] st.
  - destruct Hin.
  - cbn [for_each]. unfold bind at 1. unfold subgraph_step at 1.
    destruct (String.eqb a (X_SUBGRAPH_FEAT (keys_of X))) eqn:Ea;
      cbn [negb].
    + unfold bind, lift. now rewrite Hpool.
    + unfold ret. apply IH. apply String.eqb_neq in Ea.
      destruct Hin as [->|Hin]; [congruence|exact Hin].
Qed.

Lemma op_loop_missing (f : list pydict) (cls : scaler_class)
    (ks : list string) :
  (forall acc, pool_values (X_OP_FEAT (keys_of X)) f acc
               = Raise (KeyError (X_OP_FEAT (keys_of X)))) ->
  In (X_OP_FEAT (keys_of X)) ks ->
  forall acc st,
    for_each X ks (op_step f cls) acc st
    = (Raise (KeyError (X_OP_FEAT (keys_of X))), st).
Proof.
  intros Hpool. induction ks as [|a ks IH]; intros Hin [xsd pool] st.
  - destruct Hin.
  - cbn [for_each]. unfold bind at 1. unfold op_step at 1.
    destruct (String.eqb a (X_OP_FEAT (keys_of X))) eqn:Ea; cbn [negb].
    + unfold bind, lift. now rewrite Hpool.
    + unfold ret. apply IH. apply String.eqb_neq in Ea.
      destruct Hin as [->|Hin]; [congruence|exact Hin].
Qed.

(** X7. If the first feature dict carries the key a variant pools
    ([X_OP_FEAT] for the per-operator one, [X_SUBGRAPH_FEAT] for the
    per-subgraph one) and some sample of the dataset lacks it, the fitting
    routine raises [KeyError] for that key and leaves the state as it was:
    no scaler has been fitted.  (For the per-subgraph variant the values
    that are present must be iterable, or pooling stops earlier.) *)
Theorem init_normalizer_impl_missing_key (v : variant) (f l : list pydict)
    (cls : scaler_class) (st : state X) (x_sample : pydict) :
  list_index f 0 = Ok x_sample ->
  In (grouped_key v) (Dict.keys x_sample) ->
  (exists d, In d f /\ Dict.get (grouped_key v) d = None) ->
  (v = SubgraphDataset ->
   forall d val, In d f -> Dict.get (grouped_key v) d = Some val ->
                 exists es, py_iter val = Ok es) ->
  init_normalizer_impl X v f l cls st
  = (Raise (KeyError (grouped_key v)), st).
Proof.
  intros Hx Hin Hmiss Hit. destruct v; simpl in *.
  - rewrite op_init_normalizer_impl_unfold.
    unfold bind at 1. unfold lift at 1. rewrite Hx.
    unfold bind at 1.
    rewrite op_loop_missing; [reflexivity| |exact Hin].
    now apply pool_values_missing.
  - rewrite subgraph_init_normalizer_impl_unfold.
    unfold bind at 1. unfold lift at 1. rewrite Hx.
    unfold bind at 1.
    rewrite subgraph_loop_missing; [reflexivity| |exact Hin].
    apply pool_elements_missing; [exact Hmiss|now apply Hit].
Qed.

(** *** What construction does besides *)

(** events that are all fits of scalers of class [cls] *)
Definition only_fits (cls : scaler_class) (evs : list (event X)) : Prop :=
  Forall (fun e => exists data, e = EvFit X cls data) evs.

(** a computation whose only trace is such fits: it extends the event
    log by them, and touches neither the caches nor the object counter *)
Definition fits_only (cls : scaler_class) {A} (m : M X A) : Prop :=
  forall st,
  exists evs,
    snd (m st) = with_events (events st ++ evs) st /\ only_fits cls evs.

Lemma with_events_same (st : state X) : with_events (events st) st = st.
Proof. now destruct st. Qed.

Lemma fits_only_pure (cls : scaler_class) {A} (m : M X A) :
  (forall st, snd (m st) = st) -> fits_only cls m.
Proof.
  intros H st. exists []. rewrite H, app_nil_r, with_events_same.
  split; [reflexivity|constructor].
Qed.

Lemma fits_only_bind (cls : scaler_class) {A B} (m : M X A)
    (f : A -> M X B) :
  fits_only cls m -> (forall a, fits_only cls (f a)) ->
  fits_only cls (bind X m f).
Proof.
  intros Hm Hf st. unfold bind. destruct (Hm st) as [evs [Hst Hev]].
  destruct (m st) as [[a|e] st1]; simpl in Hst; subst st1.
  - destruct (Hf a (with_events (events st ++ evs) st)) as [evs' [Hst' Hev']].
    exists (evs ++ evs'). rewrite Hst'. simpl. rewrite app_assoc.
    split; [now destruct st|]. now apply Forall_app.
  - exists evs. auto.
Qed.

Lemma fits_only_for_each (cls : scaler_class) {A B} (l : list A)
    (body : B -> A -> M X B) :
  (forall b a, fits_only cls (body b a)) ->
  forall acc, fits_only cls (for_each X l body acc).
Proof.
  intros Hbody. induction l as [|a l IH]; intros acc; simpl.
  - now apply fits_only_pure.
  - apply fits_only_bind; auto.
Qed.

Lemma fits_only_fit_scaler (cls : scaler_class) (data : list pyval) :
  fits_only cls (fit_scaler X cls data).
Proof.
  intros st. exists [EvFit X cls data]. unfold fit_scaler, bind, log, lift.
  simpl. split; [reflexivity|]. repeat constructor. eauto.
Qed.

Ltac fits_steps :=
  repeat first
    [ apply fits_only_fit_scaler
    | apply fits_only_pure; intros ?; reflexivity
    | apply fits_only_bind; [|intros ?]
    | apply fits_only_for_each; intros ? ?
    | match goal with
      | |- fits_only _ ((let '(_, _) := ?p in _) _) => destruct p
      | |- fits_only _ (if ?c then _ else _) => destruct c
      | |- fits_only _ (match ?c with _ => _ end) => destruct c
      end ].

Lemma fits_only_init_normalizer_impl (v : variant) (f l : list pydict)
    (cls : scaler_class) :
  fits_only cls (init_normalizer_impl X v f l cls).
Proof.
  destruct v; simpl;
    [unfold op_init_normalizer_impl | unfold subgraph_init_normalizer_impl];
    unfold get_y_scaler_dict; fits_steps.
Qed.

(** the scaler class a mode string selects *)
Definition mode_class (s : string) : option scaler_class :=
  if String.eqb s "Standard" then Some StandardScaler
  else if String.eqb s "MinMax" then Some MinMaxScaler
  else None.

(** X8. Constructing a dataset with the mode string of a scaler class
    leaves one trace only: fits of scalers of that class.  The state after
    the constructor, whether it returns or raises, is the state before it
    with the object allocated and those fits appended to the event log;
    nothing is extracted or loaded, no cache changes, and no scaler of the
    other class is fitted. *)
Theorem new_dataset_fits_mode_class (v : variant) (key : string)
    (f l : list pydict) (s : string) (cls : scaler_class) (st : state X) :
  mode_class s = Some cls ->
  exists evs,
    snd (new_dataset X v key f l (NormVal (PStr s)) st)
    = with_events (events st ++ evs) (with_next_oid (S (next_oid st)) st)
    /\ only_fits cls evs.
Proof.
  intros Hs. rewrite new_dataset_str.
  assert (Hinit : init_normalizer X v f l s
                  = bind X (init_normalizer_impl X v f l cls)
                      (fun _ => ret X tt)).
  { unfold init_normalizer, mode_class in *.
    destruct (String.eqb s "Standard"); [now inversion Hs|].
    destruct (String.eqb s "MinMax"); [now inversion Hs|discriminate]. }
  rewrite Hinit. unfold bind.
  destruct (fits_only_init_normalizer_impl v f l cls
              (with_next_oid (S (next_oid st)) st)) as [evs [Hst Hev]].
  exists evs. split; [|exact Hev].
  destruct (init_normalizer_impl X v f l cls _) as [[nz|e] st1];
    simpl in *; exact Hst.
Qed.

End DatasetMore.

(** ** The collator on samples of any shape *)

Section CollatorMore.

Variable X : externals.

(** X9. The collator does not compare the key sets of its samples.  For
    samples it accepts, whose collected values numpy and torch accept, it
    returns a batch in which a feature key maps to the conversion of the
    list of the values of those samples that carry the key, in input
    order, so of fewer than N values when some sample lacks it, and is
    absent from the batch when no sample carries it; the same holds of
    every label sub-key inside the dictionary under ["labels"]. *)
Theorem data_collator_ragged (samples : list pydict) :
  Forall sample_ok samples ->
  convertible X samples ->
  exists batch,
    data_collator X samples = Ok batch
    /\ (forall k, k <> "label" -> k <> "labels" ->
                  match column k samples with
                  | [] => Dict.get k batch = None
                  | vs => exists leaf, leaf_of X k vs leaf
                                       /\ Dict.get k batch = Some leaf
                  end)
    /\ (forall vk,
           match label_column vk samples with
           | [] => Dict.get vk (batch_labels batch) = None
           | vs => exists leaf,
                     leaf_of X vk vs leaf
                     /\ Dict.get vk (batch_labels batch) = Some leaf
           end).
Proof.
  intros Hok Hconv.
  destruct (data_collator_returns X samples Hok Hconv) as [batch Hrun].
  destruct (data_collator_leaves X samples batch Hok Hrun)
    as [Hfeat [Hlab _]].
  exists batch. auto.
Qed.

(** *** Errors of the collator *)

Lemma rfold_raises {A B} (body : B -> A -> result B) (l : list A) (a : A) :
  In a l ->
  (forall b, exists e, body b a = Raise e) ->
  forall b, exists e, rfold l body b = Raise e.
Proof.
  intros Hin Ha. induction l as [|a0 l IH]; intros b; [destruct Hin|].
  simpl. destruct Hin as [->|Hin].
  - destruct (Ha b) as [e ->]. simpl. eauto.
  - destruct (body b a0) as [b1|e]; simpl; [now apply IH|eauto].
Qed.

Lemma rfold_raise_only {A B} (body : B -> A -> result B) (ex : exn)
    (l : list A) :
  (forall b a e, body b a = Raise e -> e = ex) ->
  forall b e, rfold l body b = Raise e -> e = ex.
Proof.
  intros Hbody. induction l as [|a l IH]; intros b e H; simpl in H.
  - discriminate.
  - destruct (body b a) as [b1|e1] eqn:E; simpl in H.
    + eapply IH; exact H.
    + inversion H; subst. eapply Hbody; exact E.
Qed.

Lemma batch_append_raise (k : string) (v : pyval) (d : Dict.t bval)
    (e : exn) :
  batch_append k v d = Raise e -> e = AttributeError.
Proof.
  unfold batch_append.
  destruct (Dict.get k (Dict.setdefault k (BList []) d)) as [[l|d']|];
    intros H; now inversion H.
Qed.

Lemma collate_item_raise (b : Dict.t bval) (kv : string * pyval) (e : exn) :
  collate_item b kv = Raise e -> e = AttributeError.
Proof.
  unfold collate_item. destruct (String.eqb (fst kv) "label").
  - destruct (snd kv) as [| | | |ld]; try (intros H; now inversion H).
    apply rfold_raise_only. clear. intros b [vk vv] e. unfold labels_append.
    destruct (Dict.get "labels" b) as [[l|d']|];
      try (intros H; now inversion H).
    simpl. destruct (batch_append vk vv d') as [ld'|e'] eqn:E; simpl.
    + discriminate.
    + intros H. inversion H; subst. now apply batch_append_raise in E.
  - apply batch_append_raise.
Qed.

Lemma first_loop_raise (samples : list pydict) (e : exn) :
  rfold samples collate_sample [] = Raise e -> e = AttributeError.
Proof.
  apply rfold_raise_only. clear. intros b s e.
  unfold collate_sample. apply rfold_raise_only. apply collate_item_raise.
Qed.

Lemma data_collator_raise (samples : list pydict) (e : exn) :
  data_collator X samples = Raise e ->
  e = AttributeError \/ library_error X e.
Proof.
  unfold data_collator.
  destruct (rfold samples collate_sample []) as [b|e'] eqn:E; cbn [rbind].
  - intros H. right. exact (make_tensor_raise X b e H).
  - intros H. inversion H; subst. left.
    exact (first_loop_raise samples e E).
Qed.

(** X10. A sample whose ["label"] entry is not a dict makes the collator
    raise [AttributeError], wherever the sample stands in the batch and
    whatever the other samples are.  [AttributeError] is the only
    exception the first loop of the collator raises, and any other
    exception of the collator is one that [np.array] or [torch.tensor]
    raised in the conversion pass. *)
Theorem data_collator_label_not_dict (samples : list pydict) (s : pydict)
    (v : pyval) :
  In s samples ->
  In ("label", v) s ->
  (forall ld, v <> PDict ld) ->
  data_collator X samples = Raise AttributeError
  /\ (forall samples' e,
         rfold samples' collate_sample [] = Raise e -> e = AttributeError)
  /\ (forall samples' e,
         data_collator X samples' = Raise e ->
         e = AttributeError \/ library_error X e).
Proof.
  intros Hs Hv Hnd.
  split; [|split; [exact first_loop_raise|exact data_collator_raise]].
  assert (H : exists e, rfold samples collate_sample [] = Raise e).
  { apply (rfold_raises collate_sample samples s Hs). intros b.
    unfold collate_sample.
    apply (rfold_raises collate_item s ("label", v) Hv). intros b0.
    unfold collate_item. cbn [fst snd]. rewrite String.eqb_refl.
    destruct v; eauto. now contradiction (Hnd d). }
  destruct H as [e He].
  unfold data_collator. rewrite He. cbn [rbind].
  now rewrite (first_loop_raise samples e He).
Qed.

(** X21. For samples the first loop accepts, the collator returns a batch
    exactly when numpy and torch accept every container the loop
    collected: [np.array] each list, and [torch.tensor] the array of each
    list under a key with the suffix.  When one is rejected the collator
    raises, and what it raises is an exception of [np.array] or
    [torch.tensor]; no partly converted batch is returned. *)
Theorem data_collator_conversion_failure (samples : list pydict) :
  Forall sample_ok samples ->
  ((exists batch, data_collator X samples = Ok batch)
   <-> convertible X samples)
  /\ (~ convertible X samples ->
      exists e, data_collator X samples = Raise e /\ library_error X e).
Proof.
  intros Hok.
  assert (Hiff : (exists batch, data_collator X samples = Ok batch)
                 <-> convertible X samples).
  { split; [|now apply data_collator_returns].
    intros [batch Hrun].
    destruct (data_collator_leaves X samples batch Hok Hrun)
      as [Hfeat [Hlab _]].
    split.
    - intros k Hk Hne.
      assert (Hk' : k <> "labels").
      { intros ->. now rewrite (column_labels_empty samples Hok) in Hne. }
      specialize (Hfeat k Hk Hk').
      destruct (column k samples) as [|x vs]; [now contradiction Hne|].
      destruct Hfeat as [leaf [Hleaf _]].
      apply accepts_convert. exists leaf. now apply convert_ok.
    - intros vk Hne. specialize (Hlab vk).
      destruct (label_column vk samples) as [|x vs]; [now contradiction Hne|].
      destruct Hlab as [leaf [Hleaf _]].
      apply accepts_convert. exists leaf. now apply convert_ok. }
  split; [exact Hiff|].
  intros Hnot.
  destruct (data_collator X samples) as [batch|e] eqn:Hrun.
  - exfalso. apply Hnot, Hiff. eauto.
  - exists e. split; [reflexivity|].
    destruct (first_loop_columns samples Hok) as [b [Hb _]].
    unfold data_collator in Hrun. rewrite Hb in Hrun. cbn [rbind] in Hrun.
    exact (make_tensor_raise X b e Hrun).
Qed.

End CollatorMore.

(** ** The factory: keys, failures and fresh builds *)

Section FactoryMore.

Variable X : externals.

Lemma string_app_assoc (a b c : string) :
  ((a ++ b) ++ c = a ++ (b ++ c))%string.
Proof. induction a as [|x a IH]; simpl; [reflexivity|now rewrite IH]. Qed.

Lemma append_cancel_l (a s t : string) :
  (a ++ s = a ++ t)%string -> s = t.
Proof.
  induction a as [|x a IH]; simpl; intros H; [exact H|].
  injection H as H. now apply IH.
Qed.

Lemma graphs_cache_key_dummy_apart (e e' : Environment X)
    (tv tv' : string) :
  _graphs_cache_key X e tv true <> _graphs_cache_key X e' tv' false.
Proof.
  intros H. unfold _graphs_cache_key in H.
  rewrite <- !string_app_assoc in H.
  apply append_suffix in H; [|simpl; lia].
  destruct H as [t' Ht'].
  repeat (destruct t' as [|? t']; simpl in Ht';
          [discriminate Ht'|]; injection Ht' as _ Ht').
  destruct t'; discriminate Ht'.
Qed.

(** X11. Cache keys do not collide where it matters: the key of a
    [dummy=True] request is never the key of a [dummy=False] request,
    whatever the environments and splits, and for one environment the
    train key is never the validation key. *)
Theorem graphs_cache_keys_apart :
  (forall (e e' : Environment X) (tv tv' : string),
      _graphs_cache_key X e tv true <> _graphs_cache_key X e' tv' false)
  /\ (forall (e : Environment X) (d d' : bool),
         _graphs_cache_key X e "train" d <> _graphs_cache_key X e "val" d').
Proof.
  split.
  - exact graphs_cache_key_dummy_apart.
  - intros e d d' H. unfold _graphs_cache_key in H.
    apply append_cancel_l in H. destruct d, d'; discriminate H.
Qed.

(** *** A construction routine that runs its body *)

Lemma creator_miss (kind : DatasetType) (key : string)
    (normalization : norm_arg X) (kw : kwargs) (h : hkey X) (st : state X) :
  hash_key X normalization = Ok h ->
  assoc creator_key_eq_dec (key, h, kw) (creator_memo kind st) = None ->
  creator X kind key normalization kw st
  = match creator_body X kind key normalization kw st with
    | (Ok d, st') =>
        (Ok d,
         with_creator_memo kind (((key, h, kw), d) :: creator_memo kind st')
           st')
    | (Raise e, st') => (Raise e, st')
    end.
Proof.
  intros Hh Hm. unfold creator, bind, lift. rewrite Hh.
  unfold lru_cache. now rewrite Hm.
Qed.

(** X12. [lru_cache] keeps no exception: a construction routine that
    raises leaves the graphs cache and every memo table exactly as they
    were, so the same call made again runs the body again. *)
Theorem creator_failure_not_cached (kind : DatasetType) (key : string)
    (normalization : norm_arg X) (kw : kwargs) (e : exn)
    (st st' : state X) :
  creator X kind key normalization kw st = (Raise e, st') ->
  tables X st' = tables X st
  /\ creator X kind key normalization kw st'
     = match hash_key X normalization with
       | Ok h =>
           match creator_body X kind key normalization kw st' with
           | (Ok d, st'') =>
               (Ok d,
                with_creator_memo kind
                  (((key, h, kw), d) :: creator_memo kind st'') st'')
           | (Raise e', st'') => (Raise e', st'')
           end
       | Raise e' => (Raise e', st')
       end.
Proof.
  intros Hrun.
  assert (Ht : tables X st' = tables X st
               /\ forall h, hash_key X normalization = Ok h ->
                            assoc creator_key_eq_dec (key, h, kw)
                              (creator_memo kind st) = None).
  { revert Hrun. unfold creator, bind, lift.
    destruct (hash_key X normalization) as [h|e0].
    - unfold lru_cache.
      destruct (assoc creator_key_eq_dec (key, h, kw) (creator_memo kind st))
        as [d|] eqn:E; [discriminate|].
      pose proof (quiet_creator_body X kind key normalization kw st) as Hq.
      destruct (creator_body X kind key normalization kw st)
        as [[d|e1] st1]; [discriminate|].
      intros H. inversion H; subst. split; [exact Hq|].
      intros h0 [= <-]. exact E.
    - intros H. inversion H; subst. split; [reflexivity|discriminate]. }
  destruct Ht as [Ht Hmiss]. split; [exact Ht|].
  destruct (hash_key X normalization) as [h|e0] eqn:Hh.
  - apply creator_miss; [exact Hh|].
    rewrite (tables_creator_memo X st st' kind Ht). now apply Hmiss.
  - unfold creator, bind, lift. now rewrite Hh.
Qed.

(** the extraction a construction routine runs on each graph, and the
    class of dataset it builds *)
Definition extractor (kind : DatasetType) (kw : kwargs)
  : Graph X -> result (list pydict * list pydict) :=
  match kind with
  | OP => node_features X
  | Grouping =>
      fun g => rbind (full_graph_feature X g (kwarg "subgraph_count" 10 kw))
                 (fun xy => Ok ([fst xy], [snd xy]))
  | Subgraph =>
      fun g => subgraph_features X g (kwarg "subgraph_node_size" 10 kw)
  end.

Definition class_of (kind : DatasetType) : variant :=
  match kind with
  | OP => OPDataset
  | Grouping | Subgraph => SubgraphDataset
  end.

Lemma creator_body_unfold (kind : DatasetType) (key : string)
    (normalization : norm_arg X) (kw : kwargs) :
  creator_body X kind key normalization kw
  = bind X (bind_kwargs X kw)
      (fun _ =>
         bind X (cached_graphs X key)
           (fun graphs =>
              bind X (extract_all X kind (extractor kind kw)
                        (glist_items graphs))
                (fun XY =>
                   new_dataset X (class_of kind) key (fst XY) (snd XY)
                     normalization))).
Proof. destruct kind; reflexivity. Qed.

(** the extraction loop from any accumulator: it stops at the first graph
    whose extraction raises *)
Lemma extract_loop_ok (kind : DatasetType)
    (extract : Graph X -> result (list pydict * list pydict))
    (graphs : list (Graph X)) :
  forall rs acc st,
    Forall2 (fun g r => extract g = Ok r) graphs rs ->
    for_each X graphs
      (fun acc graph =>
         bind X (log X (EvExtract X kind graph))
           (fun _ => bind X (lift X (extract graph))
                       (fun XY => ret X (fst acc ++ fst XY,
                                         snd acc ++ snd XY))))
      acc st
    = (Ok (fst acc ++ concat (map fst rs), snd acc ++ concat (map snd rs)),
       with_events (events st ++ map (EvExtract X kind) graphs) st).
Proof.
  induction graphs as [|g graphs IH]; intros rs acc st H.
  - inversion H; subst. simpl. unfold ret.
    rewrite !app_nil_r, with_events_same. now destruct acc.
  - inversion H as [|? r ? rs' Hg Hrest]; subst.
    cbn [for_each]. unfold bind at 1. unfold bind at 1. unfold log at 1.
    unfold bind at 1. unfold lift at 1. rewrite Hg. unfold ret at 1.
    rewrite (IH rs' _ _ Hrest). cbn [fst snd map concat events with_events].
    rewrite <- !app_assoc. reflexivity.
Qed.

Lemma extract_loop_fail (kind : DatasetType)
    (extract : Graph X -> result (list pydict * list pydict))
    (pre : list (Graph X)) (g : Graph X) (post : list (Graph X)) (e : exn) :
  forall rs acc st,
    Forall2 (fun g r => extract g = Ok r) pre rs ->
    extract g = Raise e ->
    for_each X (pre ++ g :: post)
      (fun acc graph =>
         bind X (log X (EvExtract X kind graph))
           (fun _ => bind X (lift X (extract graph))
                       (fun XY => ret X (fst acc ++ fst XY,
                                         snd acc ++ snd XY))))
      acc st
    = (Raise e,
       with_events (events st ++ map (EvExtract X kind) (pre ++ [g])) st).
Proof.
  induction pre as [|g0 pre IH]; intros rs acc st H Hg.
  - cbn [app for_each]. unfold bind at 1. unfold bind at 1. unfold log at 1.
    unfold bind at 1. unfold lift at 1. rewrite Hg. reflexivity.
  - inversion H as [|? r ? rs' Hg0 Hrest]; subst.
    cbn [app for_each]. unfold bind at 1. unfold bind at 1. unfold log at 1.
    unfold bind at 1. unfold lift at 1. rewrite Hg0. unfold ret at 1.
    rewrite (IH rs' _ _ Hrest Hg). cbn [map events with_events app].
    rewrite <- !app_assoc. reflexivity.
Qed.

Lemma extract_all_inv (kind : DatasetType)
    (extract : Graph X -> result (list pydict * list pydict))
    (graphs : list (Graph X)) :
  (exists rs, Forall2 (fun g r => extract g = Ok r) graphs rs)
  \/ (exists pre g post rs e,
         graphs = pre ++ g :: post
         /\ Forall2 (fun g r => extract g = Ok r) pre rs
         /\ extract g = Raise e).
Proof.
  induction graphs as [|g graphs IH].
  - left. exists []. constructor.
  - destruct (extract g) as [r|e] eqn:Eg.
    + destruct IH as [[rs Hrs]|[pre [g1 [post [rs [e [-> [Hpre Hg1]]]]]]]].
      * left. exists (r :: rs). now constructor.
      * right. exists (g :: pre), g1, post, (r :: rs), e.
        split; [reflexivity|]. split; [now constructor|exact Hg1].
    + right. exists [], g, graphs, [], e.
      split; [reflexivity|]. split; [constructor|exact Eg].
Qed.

Lemma new_dataset_ok_fields (v : variant) (key : string)
    (f l : list pydict) (normalization : norm_arg X) (st st' : state X)
    (ds : MDataset X) :
  new_dataset X v key f l normalization st = (Ok ds, st') ->
  oid ds = next_oid st /\ klass ds = v /\ graphs_cache_key ds = key
  /\ features ds = f /\ labels ds = l.
Proof.
  destruct normalization as [[| |s| |]|c]; try discriminate.
  - intros H. apply new_dataset_str_normalizer in H. subst ds.
    repeat split.
  - rewrite new_dataset_callable. intros H. inversion H; subst.
    repeat split.
Qed.

Lemma bind_kwargs_run (kw : kwargs) (st : state X) :
  bind_kwargs X kw st
  = (match Dict.get "graphs_cache_key" kw, Dict.get "normalization" kw with
     | None, None => Ok tt
     | _, _ => Raise TypeError
     end, st).
Proof.
  unfold bind_kwargs.
  destruct (Dict.get "graphs_cache_key" kw), (Dict.get "normalization" kw);
    reflexivity.
Qed.

(** X13. A construction routine that runs its body and returns: the graph
    list is the one the graphs cache holds under the key, every graph of
    it was extracted in order, and the samples of the dataset are the
    per-graph samples one after the other in graph order, features and
    labels alike.  The dataset is tagged with the key and has the class
    of its kind; its identity is the next free one. *)
Theorem creator_fresh_build (kind : DatasetType) (key : string)
    (normalization : norm_arg X) (kw : kwargs) (d : MDataset X)
    (st st' : state X) :
  (forall h, hash_key X normalization = Ok h ->
             assoc creator_key_eq_dec (key, h, kw) (creator_memo kind st)
             = None) ->
  creator X kind key normalization kw st = (Ok d, st') ->
  exists graphs rs,
    Dict.get key (graphs_cache st) = Some graphs
    /\ Forall2 (fun g r => extractor kind kw g = Ok r) (glist_items graphs) rs
    /\ features d = concat (map fst rs)
    /\ labels d = concat (map snd rs)
    /\ klass d = class_of kind
    /\ graphs_cache_key d = key
    /\ oid d = next_oid st.
Proof.
  intros Hmiss Hrun.
  destruct (creator_post X _ _ _ _ _ _ _ Hrun) as [h [Hh _]].
  rewrite (creator_miss kind key normalization kw h st Hh (Hmiss h Hh))
    in Hrun.
  rewrite creator_body_unfold in Hrun.
  unfold bind at 1 in Hrun. rewrite bind_kwargs_run in Hrun.
  destruct (match Dict.get "graphs_cache_key" kw with
            | Some _ => _ | None => _ end) as [[]|e0]; [|discriminate].
  unfold bind at 1 in Hrun. unfold cached_graphs at 1 in Hrun.
  unfold Dict.item in Hrun.
  destruct (Dict.get key (graphs_cache st)) as [graphs|] eqn:Eg;
    [|discriminate].
  exists graphs.
  unfold bind at 1 in Hrun. unfold extract_all in Hrun.
  destruct (extract_all_inv kind (extractor kind kw) (glist_items graphs))
    as [[rs Hrs]|[pre [g [post [rs [e [Hgs [Hpre Hg]]]]]]]].
  - rewrite (extract_loop_ok kind _ _ rs ([], []) st Hrs) in Hrun.
    cbn [fst snd app] in Hrun.
    destruct (new_dataset X (class_of kind) key (concat (map fst rs))
                (concat (map snd rs)) normalization _)
      as [[ds|e] st1] eqn:Hnew; [|discriminate].
    inversion Hrun; subst ds. clear Hrun.
    apply new_dataset_ok_fields in Hnew.
    destruct Hnew as [Ho [Hk [Hkey [Hf Hl]]]].
    exists rs. repeat split; assumption.
  - rewrite Hgs in Hrun.
    rewrite (extract_loop_fail kind _ pre g post e rs ([], []) st Hpre Hg)
      in Hrun. discriminate.
Qed.

(** X14. A graph-grouping dataset that was just built has exactly one
    sample per cached graph, in graph order, each the whole-graph feature
    and label of that graph for the requested [subgraph_count] (10 when
    it is not given); so it has as many labels as features. *)
Theorem grouping_one_sample_per_graph (key : string)
    (normalization : norm_arg X) (kw : kwargs) (d : MDataset X)
    (st st' : state X) :
  (forall h, hash_key X normalization = Ok h ->
             assoc creator_key_eq_dec (key, h, kw) (creator_memo Grouping st)
             = None) ->
  _create_graph_grouping_dataset X key normalization kw st = (Ok d, st') ->
  exists graphs,
    Dict.get key (graphs_cache st) = Some graphs
    /\ Forall2 (fun g xy =>
                  full_graph_feature X g (kwarg "subgraph_count" 10 kw)
                  = Ok xy)
         (glist_items graphs) (combine (features d) (labels d))
    /\ length (features d) = length (glist_items graphs)
    /\ length (labels d) = length (features d).
Proof.
  intros Hmiss Hrun.
  assert (Hloop : forall graphs rs,
             Forall2 (fun g r => extractor Grouping kw g = Ok r) graphs rs ->
             Forall2 (fun g xy =>
                        full_graph_feature X g (kwarg "subgraph_count" 10 kw)
                        = Ok xy)
               graphs (combine (concat (map fst rs)) (concat (map snd rs)))
             /\ length (concat (map fst rs)) = length graphs
             /\ length (concat (map snd rs)) = length graphs).
  { clear. induction 1 as [|g r graphs rs Hg Hrest IH].
    - simpl. repeat split. constructor.
    - simpl in Hg.
      destruct (full_graph_feature X g (kwarg "subgraph_count" 10 kw))
        as [[x y]|e] eqn:E; simpl in Hg; [|discriminate].
      inversion Hg; subst r. destruct IH as [IH1 [IH2 IH3]].
      simpl. repeat split; [constructor; [exact E|exact IH1]|lia|lia]. }
  unfold _create_graph_grouping_dataset in Hrun.
  destruct (creator_post X _ _ _ _ _ _ _ Hrun) as [h [Hh _]].
  rewrite (creator_miss Grouping key normalization kw h st Hh (Hmiss h Hh))
    in Hrun.
  rewrite creator_body_unfold in Hrun.
  unfold bind at 1 in Hrun. rewrite bind_kwargs_run in Hrun.
  destruct (match Dict.get "graphs_cache_key" kw with
            | Some _ => _ | None => _ end) as [[]|e0]; [|discriminate].
  unfold bind at 1 in Hrun. unfold cached_graphs at 1 in Hrun.
  unfold Dict.item in Hrun.
  destruct (Dict.get key (graphs_cache st)) as [graphs|] eqn:Eg;
    [|discriminate].
  exists graphs. split; [reflexivity|].
  unfold bind at 1 in Hrun. unfold extract_all in Hrun.
  destruct (extract_all_inv Grouping (extractor Grouping kw)
              (glist_items graphs))
    as [[rs Hrs]|[pre [g [post [rs [e [Hgs [Hpre Hg]]]]]]]].
  - rewrite (extract_loop_ok Grouping _ _ rs ([], []) st Hrs) in Hrun.
    cbn [fst snd app] in Hrun.
    destruct (new_dataset X (class_of Grouping) key (concat (map fst rs))
                (concat (map snd rs)) normalization _)
      as [[ds|e] st1] eqn:Hnew; [|discriminate].
    inversion Hrun; subst ds. clear Hrun.
    apply new_dataset_ok_fields in Hnew.
    destruct Hnew as [_ [_ [_ [Hf Hl]]]]. rewrite Hf, Hl.
    destruct (Hloop _ _ Hrs) as [Hall [Hlf Hll]].
    split; [exact Hall|]. split; [exact Hlf|congruence].
  - rewrite Hgs in Hrun.
    rewrite (extract_loop_fail Grouping _ pre g post e rs ([], []) st Hpre Hg)
      in Hrun. discriminate.
Qed.

(** X15. A graph whose extraction raises aborts the construction: the
    routine raises that exception, the graphs before it have been
    extracted and no graph after it, nothing has been fitted or
    allocated, and no cache has changed. *)
Theorem creator_extraction_failure (kind : DatasetType) (key : string)
    (normalization : norm_arg X) (kw : kwargs) (h : hkey X) (st : state X)
    (graphs : glist X) (pre : list (Graph X)) (g : Graph X)
    (post : list (Graph X)) (rs : list (list pydict * list pydict))
    (e : exn) :
  hash_key X normalization = Ok h ->
  assoc creator_key_eq_dec (key, h, kw) (creator_memo kind st) = None ->
  Dict.get "graphs_cache_key" kw = None ->
  Dict.get "normalization" kw = None ->
  Dict.get key (graphs_cache st) = Some graphs ->
  glist_items graphs = pre ++ g :: post ->
  Forall2 (fun g r => extractor kind kw g = Ok r) pre rs ->
  extractor kind kw g = Raise e ->
  creator X kind key normalization kw st
  = (Raise e,
     with_events (events st ++ map (EvExtract X kind) (pre ++ [g])) st).
Proof.
  intros Hh Hmiss Hk1 Hk2 Hg Hitems Hpre Hfail.
  rewrite (creator_miss kind key normalization kw h st Hh Hmiss).
  rewrite creator_body_unfold.
  unfold bind at 1. rewrite bind_kwargs_run, Hk1, Hk2.
  unfold bind at 1. unfold cached_graphs at 1. unfold Dict.item. rewrite Hg.
  unfold bind at 1. unfold extract_all. rewrite Hitems.
  now rewrite (extract_loop_fail kind _ pre g post e rs ([], []) st Hpre Hfail).
Qed.

(** X16. What a construction routine checks before it extracts anything,
    in this order: an unhashable [normalization] (a list or a dict) raises
    [TypeError] from [lru_cache]; on a miss, a keyword argument named like
    one of the two positional parameters raises [TypeError]; and a key the
    graphs cache does not hold raises [KeyError] for that key.  In each
    case the state is left as it was. *)
Theorem creator_early_errors (kind : DatasetType) (key : string)
    (normalization : norm_arg X) (kw : kwargs) (st : state X) :
  ((forall h, hash_key X normalization <> Ok h) ->
   creator X kind key normalization kw st = (Raise TypeError, st))
  /\ (forall h,
         hash_key X normalization = Ok h ->
         assoc creator_key_eq_dec (key, h, kw) (creator_memo kind st) = None ->
         (Dict.get "graphs_cache_key" kw <> None
          \/ Dict.get "normalization" kw <> None ->
          creator X kind key normalization kw st = (Raise TypeError, st))
         /\ (Dict.get "graphs_cache_key" kw = None ->
             Dict.get "normalization" kw = None ->
             Dict.get key (graphs_cache st) = None ->
             creator X kind key normalization kw st
             = (Raise (KeyError key), st))).
Proof.
  split.
  - intros Hh. unfold creator, bind, lift.
    destruct normalization as [[| |s|l|d]|c]; simpl in *;
      try reflexivity; exfalso; eapply Hh; reflexivity.
  - intros h Hh Hmiss. split.
    + intros Hkw.
      rewrite (creator_miss kind key normalization kw h st Hh Hmiss).
      rewrite creator_body_unfold. unfold bind at 1. rewrite bind_kwargs_run.
      destruct (Dict.get "graphs_cache_key" kw), (Dict.get "normalization" kw);
        try reflexivity.
      destruct Hkw as [Hkw|Hkw]; now contradiction Hkw.
    + intros Hk1 Hk2 Hg.
      rewrite (creator_miss kind key normalization kw h st Hh Hmiss).
      rewrite creator_body_unfold.
      unfold bind at 1. rewrite bind_kwargs_run, Hk1, Hk2.
      unfold bind at 1. unfold cached_graphs at 1. unfold Dict.item.
      now rewrite Hg.
Qed.

(** *** Loading without [dummy] *)

Lemma load_graphs_body_real (e : Environment X) (tv : string)
    (st : state X) :
  load_graphs_body X e tv false st
  = (Ok {| glist_oid := next_oid st; glist_items := [] |},
     with_next_oid (S (next_oid st))
       (with_events
          (events st ++ [EvDataDir X (datasets_path X ++ "/" ++ env_str X e)])
          st)).
Proof. reflexivity. Qed.

(** what a process holds for [dummy=False]: empty graph lists, in the memo
    of [_load_graphs] and in the graphs cache, and no dataset built with a
    string mode from such a list *)
Definition stub_inv (st : state X) : Prop :=
  (forall e tv g,
      assoc load_key_eq_dec (e, tv, false) (load_graphs_memo st) = Some g ->
      glist_items g = [])
  /\ (forall e tv g,
         Dict.get (_graphs_cache_key X e tv false) (graphs_cache st) = Some g ->
         glist_items g = [])
  /\ (forall kind e tv s kw,
         assoc creator_key_eq_dec (_graphs_cache_key X e tv false, HStr X s, kw)
           (creator_memo kind st) = None).

Lemma stub_inv_tables (st st' : state X) :
  tables X st' = tables X st -> stub_inv st -> stub_inv st'.
Proof.
  intros Ht [I1 [I2 I3]]. pose proof (tables_creator_memo X st st') as Hc.
  unfold tables in Ht. inversion Ht as [[H1 H2 H3 H4 H5]].
  split; [|split].
  - intros e tv g. rewrite H2. apply I1.
  - intros e tv g. rewrite H1. apply I2.
  - intros kind e tv s kw. rewrite (Hc kind Ht). apply I3.
Qed.

Lemma load_graphs_creator_memo (e : Environment X) (tv : string) (d : bool)
    (st : state X) (kind : DatasetType) :
  creator_memo kind (snd (_load_graphs X e tv d st)) = creator_memo kind st.
Proof.
  pose proof (quiet_load_graphs_body X e tv d st) as Hq.
  unfold _load_graphs, lru_cache.
  destruct (assoc _ _ _); [reflexivity|].
  destruct (load_graphs_body X e tv d st) as [[g|ex] st1]; cbn [snd] in *.
  - rewrite <- (tables_creator_memo X st st1 kind Hq). now destruct kind.
  - exact (tables_creator_memo X st st1 kind Hq).
Qed.

Lemma load_graphs_stub_inv (e : Environment X) (tv : string) (d : bool)
    (st : state X) :
  stub_inv st -> stub_inv (snd (_load_graphs X e tv d st)).
Proof.
  intros [I1 [I2 I3]]. split; [|split].
  - unfold _load_graphs, lru_cache.
    destruct (assoc load_key_eq_dec (e, tv, d) (load_graphs_memo st)) eqn:E;
      [exact I1|].
    pose proof (quiet_load_graphs_body X e tv d st) as Hq.
    destruct d.
    + destruct (load_graphs_body X e tv true st) as [[g|ex] st1];
        cbn [snd] in Hq |- *;
        assert (H2 : load_graphs_memo st1 = load_graphs_memo st)
          by (unfold tables in Hq; congruence).
      * intros e' tv' g' Hg'.
        cbn [load_graphs_memo with_load_graphs_memo assoc] in Hg'.
        destruct (load_key_eq_dec (e, tv, true) (e', tv', false))
          as [Heq|Hne]; [discriminate Heq|].
        rewrite H2 in Hg'. exact (I1 e' tv' g' Hg').
      * intros e' tv' g' Hg'. rewrite H2 in Hg'. exact (I1 e' tv' g' Hg').
    + rewrite load_graphs_body_real. cbn [snd].
      intros e' tv' g' Hg'.
      cbn [load_graphs_memo with_load_graphs_memo with_next_oid with_events
             assoc] in Hg'.
      destruct (load_key_eq_dec (e, tv, false) (e', tv', false))
        as [Heq|Hne].
      * injection Hg' as <-. reflexivity.
      * exact (I1 e' tv' g' Hg').
  - intros e' tv' g'. rewrite (load_graphs_graphs_cache X). apply I2.
  - intros kind e' tv' s kw. rewrite load_graphs_creator_memo. apply I3.
Qed.

Lemma load_and_cache_stub_inv (e : Environment X) (tv : string)
    (dummy : bool) (st : state X) :
  stub_inv st -> stub_inv (snd (load_and_cache X e tv dummy st)).
Proof.
  intros Hinv.
  pose proof (load_graphs_stub_inv e tv dummy st Hinv) as [I1 [I2 I3]].
  destruct (load_graphs_post X e tv dummy st) as [loaded [Hl Hm]].
  unfold load_and_cache, bind.
  destruct (_load_graphs X e tv dummy st) as [r s1]. cbn [fst snd] in *.
  subst r. unfold cache_graphs. cbn [snd].
  split; [exact I1|]. split;
    [|intros kind e' tv' s kw; specialize (I3 kind e' tv' s kw);
      destruct kind; exact I3].
  intros e' tv' g' Hg'. cbn [graphs_cache with_graphs_cache] in Hg'.
  destruct (String.string_dec (_graphs_cache_key X e tv dummy)
              (_graphs_cache_key X e' tv' false)) as [Heq|Hne].
  - rewrite Heq, DictFacts.get_set_same in Hg'. injection Hg' as <-.
    rewrite <- Heq.
    destruct (Dict.get (_graphs_cache_key X e tv dummy) (graphs_cache s1))
      as [g0|] eqn:E.
    + rewrite Heq in E. exact (I2 e' tv' g0 E).
    + destruct dummy.
      * now contradiction (graphs_cache_key_dummy_apart e e' tv tv').
      * exact (I1 e tv loaded Hm).
  - rewrite DictFacts.get_set_other in Hg' by exact Hne.
    exact (I2 e' tv' g' Hg').
Qed.

Lemma new_dataset_str_empty (v : variant) (key : string) (l : list pydict)
    (s : string) (st : state X) :
  exists ex,
    fst (new_dataset X v key [] l (NormVal (PStr s)) st) = Raise ex
    /\ (mode_class s <> None -> ex = IndexError).
Proof.
  rewrite new_dataset_str. unfold init_normalizer, mode_class.
  destruct (String.eqb s "Standard").
  { unfold bind. rewrite init_normalizer_impl_empty_features. simpl. eauto. }
  destruct (String.eqb s "MinMax").
  { unfold bind. rewrite init_normalizer_impl_empty_features. simpl. eauto. }
  simpl. exists ValueError. split; [reflexivity|]. intros H. now contradiction H.
Qed.

(** a construction routine on an empty graph list, with a string mode *)
Lemma creator_body_empty (kind : DatasetType) (key : string) (s : string)
    (kw : kwargs) (st : state X) (g : glist X) :
  Dict.get key (graphs_cache st) = Some g ->
  glist_items g = [] ->
  exists ex,
    fst (creator_body X kind key (NormVal (PStr s)) kw st) = Raise ex
    /\ (Dict.get "graphs_cache_key" kw = None ->
        Dict.get "normalization" kw = None ->
        mode_class s <> None -> ex = IndexError).
Proof.
  intros Hg Hitems. rewrite creator_body_unfold.
  unfold bind at 1. rewrite bind_kwargs_run.
  destruct (Dict.get "graphs_cache_key" kw) as [z|];
    [exists TypeError; split; [reflexivity|discriminate]|].
  destruct (Dict.get "normalization" kw) as [z|];
    [exists TypeError; split; [reflexivity|discriminate]|].
  unfold bind at 1. unfold cached_graphs at 1. unfold Dict.item. rewrite Hg.
  unfold bind at 1. unfold extract_all. rewrite Hitems. cbn [for_each].
  unfold ret at 1. cbn [fst snd].
  destruct (new_dataset_str_empty (class_of kind) key [] s st) as [ex [He Hm]].
  exists ex. split; [|auto].
  destruct (new_dataset X (class_of kind) key [] [] (NormVal (PStr s)) st)
    as [[d|e] st1]; simpl in *; [discriminate|exact He].
Qed.

Lemma creator_stub_inv (kind : DatasetType) (key : string)
    (normalization : norm_arg X) (kw : kwargs) (st : state X) :
  stub_inv st -> stub_inv (snd (creator X kind key normalization kw st)).
Proof.
  intros [I1 [I2 I3]].
  destruct (creator_load_graphs_memo X kind key normalization kw st)
    as [Hm Hc].
  split; [|split].
  - intros e tv g. rewrite Hm. apply I1.
  - intros e tv g. rewrite Hc. apply I2.
  - clear Hm Hc. intros kind' e tv s kw'.
    unfold creator, bind, lift.
    destruct (hash_key X normalization) as [h|e0] eqn:Hh; [|apply I3].
    unfold lru_cache.
    destruct (assoc creator_key_eq_dec (key, h, kw) (creator_memo kind st))
      as [d0|] eqn:E; [apply I3|].
    pose proof (quiet_creator_body X kind key normalization kw st) as Hq.
    destruct (creator_body X kind key normalization kw st)
      as [[d1|e1] st1] eqn:Hbody; cbn [snd] in *.
    + rewrite creator_memo_with.
      assert (Hold : assoc creator_key_eq_dec
                       (_graphs_cache_key X e tv false, HStr X s, kw')
                       (creator_memo kind' st1) = None).
      { rewrite (tables_creator_memo X st st1 kind' Hq). apply I3. }
      assert (Hnew : (key, h, kw)
                     <> (_graphs_cache_key X e tv false, HStr X s, kw')).
      { intros Heq. inversion Heq; subst key h kw'.
        destruct normalization as [[| |s0| |]|c]; try discriminate Hh.
        inversion Hh; subst s0.
        destruct (Dict.get (_graphs_cache_key X e tv false) (graphs_cache st))
          as [g|] eqn:Eg.
        - destruct (creator_body_empty kind _ s kw st g Eg (I2 e tv g Eg))
            as [ex [He _]].
          rewrite Hbody in He. discriminate He.
        - revert Hbody. rewrite creator_body_unfold.
          unfold bind at 1. rewrite bind_kwargs_run.
          destruct (match Dict.get "graphs_cache_key" kw with
                    | Some _ => _ | None => _ end) as [[]|e2];
            [|discriminate].
          unfold bind at 1. unfold cached_graphs at 1. unfold Dict.item.
          rewrite Eg. discriminate. }
      destruct kind, kind'; try exact Hold;
        cbn [assoc];
        (destruct (creator_key_eq_dec (key, h, kw)
                     (_graphs_cache_key X e tv false, HStr X s, kw'))
          as [Heq|_]; [now contradiction Hnew|exact Hold]).
    + rewrite (tables_creator_memo X st st1 kind' Hq). apply I3.
Qed.

Lemma after_loading_stub_inv (e : Environment X) (dummy : bool)
    (st : state X) :
  stub_inv st -> stub_inv (after_loading X e dummy st).
Proof.
  intros H. unfold after_loading.
  now apply load_and_cache_stub_inv, load_and_cache_stub_inv.
Qed.

Lemma create_dataset_stub_inv (e : Environment X)
    (normalization : norm_arg X) (kind : DatasetType) (dummy : bool)
    (kw : kwargs) (st : state X) :
  stub_inv st ->
  stub_inv (snd (create_dataset X e normalization kind dummy kw st)).
Proof.
  intros H. rewrite create_dataset_steps.
  pose proof (after_loading_stub_inv e dummy st H) as H4.
  revert H4. generalize (after_loading X e dummy st) as s4. intros s4 H4.
  unfold bind.
  pose proof (creator_stub_inv kind (_graphs_cache_key X e "train" dummy)
                normalization kw s4 H4) as H5.
  destruct (creator X kind (_graphs_cache_key X e "train" dummy)
              normalization kw s4) as [[t|ex] s5]; cbn [snd] in *;
    [|exact H5].
  pose proof (creator_stub_inv kind (_graphs_cache_key X e "val" dummy)
                normalization kw s5 H5) as H6.
  destruct (creator X kind (_graphs_cache_key X e "val" dummy)
              normalization kw s5) as [[v|ex] s6]; cbn [snd ret] in *;
    exact H6.
Qed.

Lemma reachable_stub_inv (st : state X) : reachable X st -> stub_inv st.
Proof.
  induction 1.
  - split; [|split]; intros; try discriminate.
    destruct kind; reflexivity.
  - now apply load_graphs_stub_inv.
  - now apply creator_stub_inv.
  - now apply create_dataset_stub_inv.
  - eapply stub_inv_tables; [apply H|assumption].
Qed.

(** X17. Without [dummy], [_load_graphs] loads nothing: in every state of
    a process it returns a list of no graphs, and a call that is not
    answered from the memo only names the directory of the environment
    under [datasets_path]. *)
Theorem load_graphs_real_is_empty (e : Environment X) (tv : string)
    (st : state X) :
  reachable X st ->
  exists g,
    fst (_load_graphs X e tv false st) = Ok g
    /\ glist_items g = []
    /\ (assoc load_key_eq_dec (e, tv, false) (load_graphs_memo st) = None ->
        events (snd (_load_graphs X e tv false st))
        = events st
          ++ [EvDataDir X (datasets_path X ++ "/" ++ env_str X e)]).
Proof.
  intros Hreach.
  destruct (load_graphs_post X e tv false st) as [g [Hg Hm]].
  exists g. split; [exact Hg|]. split.
  - apply (proj1 (reachable_stub_inv _
                    (reach_load_graphs X e tv false st Hreach)) e tv g Hm).
  - intros Hmiss. unfold _load_graphs, lru_cache. rewrite Hmiss.
    now rewrite load_graphs_body_real.
Qed.

(** X18. With [dummy=False] and a string as [normalization],
    [create_dataset] never returns datasets, in any state of a process:
    the graph lists are empty, so the construction routine raises.  With
    one of the two mode strings the code knows and no keyword argument
    named like a positional parameter, the exception is the [IndexError]
    of [features[0]]. *)
Theorem create_dataset_real_never_returns (e : Environment X) (s : string)
    (kind : DatasetType) (kw : kwargs) (st : state X) :
  reachable X st ->
  exists ex,
    fst (create_dataset X e (NormVal (PStr s)) kind false kw st) = Raise ex
    /\ (Dict.get "graphs_cache_key" kw = None ->
        Dict.get "normalization" kw = None ->
        mode_class s <> None -> ex = IndexError).
Proof.
  intros Hreach. rewrite create_dataset_steps.
  pose proof (after_loading_stub_inv e false st (reachable_stub_inv st Hreach))
    as [_ [I2 I3]].
  destruct (load_and_cache_post X e "train" false st)
    as [l1 [g1 [_ [_ [_ [Hc1 _]]]]]].
  pose proof (load_and_cache_extends X e "val" false
                (snd (load_and_cache X e "train" false st))) as [_ [_ E24]].
  apply E24 in Hc1. fold (after_loading X e false st) in Hc1.
  revert I2 I3 Hc1. generalize (after_loading X e false st) as s4.
  intros s4 I2 I3 Hc1.
  destruct (creator_body_empty kind (_graphs_cache_key X e "train" false) s kw
              s4 g1 Hc1 (I2 e "train" g1 Hc1)) as [ex [He Hex]].
  exists ex. split; [|exact Hex].
  unfold bind at 1.
  rewrite (creator_miss kind (_graphs_cache_key X e "train" false)
             (NormVal (PStr s)) kw (HStr X s) s4 eq_refl (I3 kind e "train" s kw)).
  destruct (creator_body X kind (_graphs_cache_key X e "train" false)
              (NormVal (PStr s)) kw s4) as [[d|e1] s5];
    simpl in *; [discriminate|].
  injection He as ->. reflexivity.
Qed.

End FactoryMore.

(** ** [executor/metric.py]

    [MetricUtil.compute_duration_metrics] pairs every graph with its
    prediction and hands the two lists to numpy.  The pairing is embedded;
    the numbers, [graph.ID], [graph.graph_duration] and the two numpy
    expressions are collaborators. *)

Section Metric.

Variable X : externals.

Variable num : Type.

(** [graph.ID] and [graph.graph_duration] *)
Variable ID : Graph X -> string.
Variable graph_duration : Graph X -> num.

(** [np.sum(np.abs(y - y_hat) / y) / len(y)] and
    [np.sqrt(np.sum(np.power(y - y_hat, 2)) / len(y))], as functions of
    [y_hat] and [y] *)
Variable MRE : list num -> list num -> num.
Variable RMSE : list num -> list num -> num.

Definition compute_duration_metrics (graphs : list (Graph X))
    (graph_id_to_duration_pred : Dict.t num) : result (Dict.t num) :=
  rbind
    (rfold graphs
       (fun acc graph =>
          rbind (Dict.item (ID graph) graph_id_to_duration_pred)
            (fun pred =>
               Ok (fst acc ++ [pred], snd acc ++ [graph_duration graph])))
       ([], []))
    (fun acc =>
       Ok [("MRE", MRE (fst acc) (snd acc));
           ("RMSE", RMSE (fst acc) (snd acc))]).

Lemma metric_loop_ok (preds : Dict.t num) (graphs : list (Graph X)) :
  forall y_hat acc,
    Forall2 (fun g p => Dict.get (ID g) preds = Some p) graphs y_hat ->
    rfold graphs
      (fun acc graph =>
         rbind (Dict.item (ID graph) preds)
           (fun pred =>
              Ok (fst acc ++ [pred], snd acc ++ [graph_duration graph])))
      acc
    = Ok (fst acc ++ y_hat, snd acc ++ map graph_duration graphs).
Proof.
  induction graphs as [|g graphs IH]; intros y_hat acc H.
  - inversion H; subst. simpl. rewrite !app_nil_r. now destruct acc.
  - inversion H as [|? p ? ps Hg Hrest]; subst.
    cbn [rfold]. unfold Dict.item at 1. rewrite Hg. cbn [rbind].
    rewrite (IH ps _ Hrest). cbn [fst snd map]. now rewrite <- !app_assoc.
Qed.

(** X19. A graph without a prediction makes the metric computation raise
    [KeyError] for the ID of the first such graph; no metric is
    computed. *)
Theorem metrics_missing_prediction (preds : Dict.t num)
    (pre : list (Graph X)) (g : Graph X) (post : list (Graph X)) :
  (forall g0, In g0 pre -> Dict.get (ID g0) preds <> None) ->
  Dict.get (ID g) preds = None ->
  compute_duration_metrics (pre ++ g :: post) preds = Raise (KeyError (ID g)).
Proof.
  intros Hpre Hg. unfold compute_duration_metrics.
  generalize (@nil num, @nil num) as acc.
  induction pre as [|g0 pre IH]; intros acc.
  - cbn [app rfold]. unfold Dict.item at 1. now rewrite Hg.
  - cbn [app rfold]. unfold Dict.item at 1.
    destruct (Dict.get (ID g0) preds) as [p|] eqn:E.
    + cbn [rbind]. apply IH. intros g1 Hin. apply Hpre. now right.
    + exfalso. apply (Hpre g0 (or_introl eq_refl) E).
Qed.

(** X20. When every graph has a prediction, the metrics are computed from
    two lists of one entry per graph, in graph order: the prediction
    stored under the graph's ID, and the graph's measured duration.  A
    prediction stored for no graph of the list plays no part, and a graph
    listed twice counts twice. *)
Theorem metrics_aligned (preds : Dict.t num) (graphs : list (Graph X))
    (y_hat : list num) :
  Forall2 (fun g p => Dict.get (ID g) preds = Some p) graphs y_hat ->
  compute_duration_metrics graphs preds
  = Ok [("MRE", MRE y_hat (map graph_duration graphs));
        ("RMSE", RMSE y_hat (map graph_duration graphs))]
  /\ length y_hat = length graphs.
Proof.
  intros H. split; [|symmetry; eapply Forall2_length; exact H].
  unfold compute_duration_metrics.
  now rewrite (metric_loop_ok preds graphs y_hat ([], []) H).
Qed.

End Metric.

(** ** The further properties on explicit inputs *)

Local Open Scope Z_scope.

(** a dataset with two feature dicts and one label dict *)
Definition short_labels_dataset : MDataset sample_world :=
  built sample_world OPDataset 0 "k"
    (fst (op_samples 0 2)) (snd (op_samples 0 1)).

(** two subgraph samples, the second without the grouped key *)
Definition ragged_features : list pydict :=
  [[("x_subgraph_feat", PList [PList [PNum 0]; PList [PNum 10]]);
    ("graph_id", PStr "g0")];
   [("graph_id", PStr "g1")]].

(** two items with different key sets, and an item whose label is a
    number *)
Definition ragged_items : list pydict :=
  [[("x_op_feat", PNum 1); ("extra", PNum 5);
    ("label", PDict [("y_op_feat", PNum 2)])];
   [("x_op_feat", PNum 3);
    ("label", PDict [("y_op_feat", PNum 4); ("z", PNum 6)])]].

Definition bad_label_item : pydict := [("label", PNum 1)].

(** the sample collaborators, but the node features of graph 1 cannot be
    extracted *)
Definition failing_world : externals :=
  {| keys_of := sample_keys;
     scaler := scaler_class * list pyval;
     fit := symbolic_fit;
     callable := nat;
     callable_eq_dec := Nat.eq_dec;
     callable_truth := fun _ => true;
     call := fun _ x y => Ok (x, PDict y);
     ndarray := list pyval;
     np_array := sample_np_array;
     tensor := list pyval;
     torch_tensor := sample_torch_tensor;
     Environment := string;
     env_eq_dec := String.string_dec;
     env_str := fun e => e;
     datasets_path := "datasets";
     Graph := nat;
     from_data_dummy := fun n => n;
     node_features := fun g => match g with
                               | 1%nat => Raise ValueError
                               | _ => sample_node_features g
                               end;
     subgraph_features := sample_subgraph_features;
     full_graph_feature := sample_full_graph_feature |}.

Definition failing_state : state failing_world :=
  with_graphs_cache
    [("three", Build_glist failing_world 3 [0%nat; 1%nat; 2%nat])]
    (with_next_oid 4 (initial_state failing_world)).

(** graph IDs, durations and stand-ins for the two numpy expressions *)
Definition sample_ID (g : nat) : string :=
  match g with
  | O => "g0"
  | _ => "g1"
  end.

Definition sample_duration (g : nat) : Z := Z.of_nat g + 10.

Definition count_entries (y_hat y : list Z) : Z := Z.of_nat (length y_hat).

Lemma getitem_custom_normalizer_witness :
  exists ds : MDataset sample_world,
    fst (new_dataset sample_world OPDataset "k" op_features_1 op_labels_1
           (NormCallable (X := sample_world) 0%nat)
           (initial_state sample_world)) = Ok ds
    /\ getitem ds 0
       = Ok [("x_op_feat", PList [PNum 0; PNum 1]); ("op_id", PNum 0);
             ("label", PDict [("y_op_feat", PList [PList [PNum 0]])])].
Proof.
  destruct (getitem_custom_normalizer sample_world OPDataset "k"%string
              op_features_1 op_labels_1 0%nat (initial_state sample_world)
              0 _ _ eq_refl eq_refl)
    as [ds [st' [Hnew [_ [_ Hget]]]]].
  exists ds. split; [now rewrite Hnew|exact Hget].
Defined.

Lemma new_dataset_empty_lists_witness :
  new_dataset sample_world OPDataset "k" [] [] (NormVal (PStr "MinMax"))
    (initial_state sample_world)
  = (Raise IndexError, with_next_oid 1 (initial_state sample_world)).
Proof.
  exact (proj1 (new_dataset_empty_lists sample_world OPDataset "k"%string
                  [] [] "MinMax"%string (initial_state sample_world)
                  (or_intror eq_refl)) eq_refl).
Defined.

Lemma getitem_label_out_of_range_witness :
  len short_labels_dataset = 2%nat
  /\ getitem short_labels_dataset 1 = Raise IndexError.
Proof.
  split; [reflexivity|].
  apply (getitem_label_out_of_range sample_world short_labels_dataset 1).
  - vm_compute. split; [discriminate|reflexivity].
  - right. vm_compute. discriminate.
Defined.

Lemma getitem_entries_witness :
  exists item,
    getitem op_dataset_1 0 = Ok item
    /\ Dict.get "label" item
       = Some (PDict [("y_op_feat", PList [PList [PNum 0]])])
    /\ Dict.get "op_id" item = Some (PNum 0).
Proof.
  destruct (getitem_entries sample_world op_dataset_1 0 _ _
              eq_refl eq_refl eq_refl)
    as [item [Hget [Hlabel [Hother _]]]].
  - repeat constructor; simpl; intuition discriminate.
  - exists item. split; [exact Hget|]. split; [exact Hlabel|].
    rewrite Hother; [reflexivity|discriminate].
Defined.

Lemma y_scaler_dict_entries_witness :
  exists d t,
    fst (get_y_scaler_dict sample_world op_labels_1 MinMaxScaler
           (initial_state sample_world)) = Ok d
    /\ Dict.get "y_op_feat" d = Some t
    /\ y_entry sample_world op_labels_1 MinMaxScaler "y_op_feat" t.
Proof.
  destruct (get_y_scaler_dict sample_world op_labels_1 MinMaxScaler
              (initial_state sample_world)) as [[d|e] st'] eqn:H.
  - destruct (y_scaler_dict_entries sample_world op_labels_1 MinMaxScaler
                _ _ d H) as [y_sample [Hy Hall]].
    vm_compute in Hy. injection Hy as <-.
    destruct (Hall "y_op_feat"%string (or_introl eq_refl)) as [t [Ht Hent]].
    exists d, t. auto.
  - exfalso. apply (f_equal fst) in H. vm_compute in H. discriminate H.
Defined.

Lemma subgraph_x_scaler_dict_entries_witness :
  exists nz t,
    fst (subgraph_init_normalizer_impl sample_world subgraph_features_1
           subgraph_labels_1 MinMaxScaler (initial_state sample_world))
    = Ok nz
    /\ Dict.get "x_subgraph_feat" (x_scaler_dict nz) = Some t
    /\ x_entry sample_world subgraph_features_1 MinMaxScaler
         "x_subgraph_feat" t.
Proof.
  destruct (subgraph_init_normalizer_impl sample_world subgraph_features_1
              subgraph_labels_1 MinMaxScaler (initial_state sample_world))
    as [[nz|e] st'] eqn:H.
  - destruct (subgraph_x_scaler_dict_entries sample_world
                subgraph_features_1 subgraph_labels_1 MinMaxScaler _ _ nz H)
      as [x_sample [Hx Hall]].
    vm_compute in Hx. injection Hx as <-.
    destruct (Hall ltac:(repeat constructor; simpl; intuition discriminate)
                "x_subgraph_feat"%string (or_introl eq_refl))
      as [t [Ht Hent]].
    exists nz, t. auto.
  - exfalso. apply (f_equal fst) in H. vm_compute in H. discriminate H.
Defined.

Lemma init_normalizer_impl_missing_key_witness :
  init_normalizer_impl sample_world SubgraphDataset ragged_features
    subgraph_labels_1 MinMaxScaler (initial_state sample_world)
  = (Raise (KeyError "x_subgraph_feat"), initial_state sample_world).
Proof.
  apply (init_normalizer_impl_missing_key sample_world SubgraphDataset
           ragged_features subgraph_labels_1 MinMaxScaler
           (initial_state sample_world)
           [("x_subgraph_feat", PList [PList [PNum 0]; PList [PNum 10]]);
            ("graph_id", PStr "g0")]).
  - reflexivity.
  - left. reflexivity.
  - exists [("graph_id", PStr "g1")]. split; [right; left|]; reflexivity.
  - intros _ d val [<-|[<-|[]]] Hval; simpl in Hval.
    + injection Hval as <-. eexists. reflexivity.
    + discriminate Hval.
Defined.

Lemma new_dataset_fits_mode_class_witness :
  exists evs,
    snd (new_dataset sample_world OPDataset "k" op_features_1 op_labels_1
           (NormVal (PStr "MinMax")) (initial_state sample_world))
    = with_events (events (initial_state sample_world) ++ evs)
        (with_next_oid 1 (initial_state sample_world))
    /\ only_fits sample_world MinMaxScaler evs.
Proof.
  exact (new_dataset_fits_mode_class sample_world OPDataset "k"%string
           op_features_1 op_labels_1 "MinMax"%string MinMaxScaler
           (initial_state sample_world) eq_refl).
Defined.

Lemma ragged_items_ok : Forall sample_ok ragged_items.
Proof.
  repeat constructor; simpl; try (intros H; intuition discriminate).
  all: intros v Hv; inversion Hv; subst; eexists; split; [reflexivity|].
  all: repeat constructor; simpl; intuition discriminate.
Qed.

Lemma ragged_items_convertible : convertible sample_world ragged_items.
Proof.
  apply convertible_by_keys.
  - intros s k Hs Hk Hne.
    destruct Hs as [<-|[<-|[]]].
    + destruct Hk as [<-|[<-|[<-|[]]]];
        try (now contradiction Hne); accepts_by_computation.
    + destruct Hk as [<-|[<-|[]]];
        try (now contradiction Hne); accepts_by_computation.
  - intros s ld vk Hs Hl Hk.
    destruct Hs as [<-|[<-|[]]]; injection Hl as <-.
    + destruct Hk as [<-|[]]; accepts_by_computation.
    + destruct Hk as [<-|[<-|[]]]; accepts_by_computation.
Qed.

Lemma data_collator_ragged_witness :
  exists batch,
    data_collator sample_world ragged_items = Ok batch
    /\ Dict.get "x_op_feat" batch
       = Some (CTensor (X := sample_world) [PNum 1; PNum 3])
    /\ Dict.get "extra" batch = Some (CArray (X := sample_world) [PNum 5])
    /\ Dict.get "missing" batch = None
    /\ Dict.get "z" (batch_labels batch)
       = Some (CArray (X := sample_world) [PNum 6]).
Proof.
  destruct (data_collator_ragged sample_world ragged_items ragged_items_ok
              ragged_items_convertible)
    as [batch [Hrun [Hfeat Hlab]]].
  exists batch. split; [exact Hrun|]. split; [|split; [|split]].
  - destruct (Hfeat "x_op_feat"%string) as [leaf [[a [Ha Hleaf]] Hget]];
      [discriminate|discriminate|].
    vm_compute in Ha. injection Ha as <-.
    destruct Hleaf as [t [Ht ->]]. vm_compute in Ht. injection Ht as <-.
    exact Hget.
  - destruct (Hfeat "extra"%string) as [leaf [[a [Ha Hleaf]] Hget]];
      [discriminate|discriminate|].
    vm_compute in Ha. injection Ha as <-.
    change (leaf = CArray (X := sample_world) [PNum 5]) in Hleaf.
    subst leaf. exact Hget.
  - apply (Hfeat "missing"%string); discriminate.
  - destruct (Hlab "z"%string) as [leaf [[a [Ha Hleaf]] Hget]].
    vm_compute in Ha. injection Ha as <-.
    change (leaf = CArray (X := sample_world) [PNum 6]) in Hleaf.
    subst leaf. exact Hget.
Defined.

Lemma data_collator_label_not_dict_witness :
  data_collator sample_world (two_items ++ [bad_label_item])
  = Raise AttributeError.
Proof.
  apply (proj1 (data_collator_label_not_dict sample_world
                  (two_items ++ [bad_label_item]) bad_label_item (PNum 1)
                  ltac:(simpl; tauto) ltac:(left; reflexivity)
                  ltac:(intros ld; discriminate))).
Defined.

(** a batch with an identifier under a key that carries the suffix, and
    a batch whose node lists differ in length *)
Definition string_feature_items : list pydict :=
  [[("x_op_feat", PStr "conv"); ("label", PDict [("y_op_feat", PNum 2)])]].

Definition uneven_items : list pydict :=
  [[("x_subgraph_feat", PList [PNum 1; PNum 2]); ("label", PDict [])];
   [("x_subgraph_feat", PList [PNum 3]); ("label", PDict [])]].

Lemma string_feature_items_ok : Forall sample_ok string_feature_items.
Proof.
  repeat constructor; simpl; try (intros H; intuition discriminate).
  intros v Hv; inversion Hv; subst; eexists; split; [reflexivity|].
  repeat constructor; simpl; intuition discriminate.
Qed.

Lemma uneven_items_ok : Forall sample_ok uneven_items.
Proof.
  repeat constructor; simpl; try (intros H; intuition discriminate).
  all: intros v Hv; inversion Hv; subst; eexists; split; [reflexivity|].
  all: constructor.
Qed.

Lemma data_collator_conversion_failure_witness :
  data_collator sample_world string_feature_items = Raise TypeError
  /\ data_collator sample_world uneven_items = Raise ValueError.
Proof.
  split.
  - destruct (proj2 (data_collator_conversion_failure sample_world
                       string_feature_items string_feature_items_ok))
      as [e [Hrun _]].
    + intros [Hfeat _].
      destruct (Hfeat "x_op_feat"%string) as [a [Ha Ht]];
        [discriminate|discriminate|].
      vm_compute in Ha. injection Ha as <-.
      destruct (Ht eq_refl) as [t Hbad]. discriminate Hbad.
    + rewrite Hrun. vm_compute in Hrun. exact (eq_sym Hrun).
  - destruct (proj2 (data_collator_conversion_failure sample_world
                       uneven_items uneven_items_ok))
      as [e [Hrun _]].
    + intros [Hfeat _].
      destruct (Hfeat "x_subgraph_feat"%string) as [a [Ha _]];
        [discriminate|discriminate|].
      discriminate Ha.
    + rewrite Hrun. vm_compute in Hrun. exact (eq_sym Hrun).
Defined.

Lemma creator_failure_not_cached_witness :
  tables sample_world
    (snd (_create_op_dataset sample_world "missing" min_max []
            (initial_state sample_world)))
  = tables sample_world (initial_state sample_world).
Proof.
  apply (proj1 (creator_failure_not_cached sample_world OP "missing"%string
                  min_max [] (KeyError "missing")
                  (initial_state sample_world) (initial_state sample_world)
                  eq_refl)).
Defined.

Lemma creator_fresh_build_witness :
  exists graphs,
    Dict.get "two" (graphs_cache two_graphs_state) = Some graphs
    /\ features eight_op_samples
       = fst (op_samples 0 3) ++ fst (op_samples 100 5)
    /\ klass eight_op_samples = OPDataset.
Proof.
  destruct (creator_fresh_build sample_world OP "two"%string min_max []
              eight_op_samples two_graphs_state
              (snd (creator sample_world OP "two" min_max []
                      two_graphs_state)))
    as [graphs [rs [Hg [_ [_ [_ [Hk _]]]]]]].
  - intros h _. reflexivity.
  - vm_compute. reflexivity.
  - exists graphs. split; [exact Hg|]. split; [reflexivity|exact Hk].
Defined.

Lemma grouping_one_sample_per_graph_witness :
  exists d,
    fst (_create_graph_grouping_dataset sample_world "two" min_max []
           two_graphs_state) = Ok d
    /\ length (features d) = 2%nat
    /\ length (labels d) = length (features d).
Proof.
  destruct (_create_graph_grouping_dataset sample_world "two" min_max []
              two_graphs_state) as [[d|e] st'] eqn:H.
  - destruct (grouping_one_sample_per_graph sample_world "two"%string
                min_max [] d two_graphs_state st')
      as [graphs [Hg [_ [Hlen Hlab]]]].
    + intros h _. reflexivity.
    + exact H.
    + exists d. split; [reflexivity|].
      vm_compute in Hg. injection Hg as <-. split; [exact Hlen|exact Hlab].
  - exfalso. apply (f_equal fst) in H. vm_compute in H. discriminate H.
Defined.

Lemma creator_extraction_failure_witness :
  creator failing_world OP "three" (NormVal (PStr "MinMax")) [] failing_state
  = (Raise ValueError,
     with_events [EvExtract failing_world OP 0%nat;
                  EvExtract failing_world OP 1%nat] failing_state).
Proof.
  apply (creator_extraction_failure failing_world OP "three"%string
           (NormVal (PStr "MinMax")) [] (HStr failing_world "MinMax")
           failing_state (Build_glist failing_world 3 [0%nat; 1%nat; 2%nat])
           [0%nat] 1%nat [2%nat] [op_samples 0 3] ValueError);
    try reflexivity.
  repeat constructor.
Defined.

Lemma load_graphs_real_is_empty_witness :
  exists g,
    fst (_load_graphs sample_world "env" "train" false
           (initial_state sample_world)) = Ok g
    /\ glist_items g = []
    /\ events (snd (_load_graphs sample_world "env" "train" false
                      (initial_state sample_world)))
       = [EvDataDir sample_world "datasets/env"].
Proof.
  destruct (load_graphs_real_is_empty sample_world "env"%string
              "train"%string (initial_state sample_world)
              (reach_initial sample_world)) as [g [Hg [Hitems Hev]]].
  exists g. split; [exact Hg|]. split; [exact Hitems|].
  exact (Hev eq_refl).
Defined.

Lemma create_dataset_real_never_returns_witness :
  fst (create_dataset sample_world "env" min_max OP false []
         (initial_state sample_world)) = Raise IndexError.
Proof.
  destruct (create_dataset_real_never_returns sample_world "env"%string
              "MinMax"%string OP [] (initial_state sample_world)
              (reach_initial sample_world)) as [ex [Hrun Hex]].
  rewrite (Hex eq_refl eq_refl ltac:(discriminate)) in Hrun. exact Hrun.
Defined.

Lemma metrics_missing_prediction_witness :
  compute_duration_metrics sample_world Z sample_ID sample_duration
    count_entries count_entries [0%nat; 1%nat; 2%nat] [("g0", 7)]
  = Raise (KeyError "g1").
Proof.
  apply (metrics_missing_prediction sample_world Z sample_ID sample_duration
           count_entries count_entries [("g0", 7)] [0%nat] 1%nat [2%nat]).
  - intros g0 [<-|[]]. discriminate.
  - reflexivity.
Defined.

Lemma metrics_aligned_witness :
  compute_duration_metrics sample_world Z sample_ID sample_duration
    count_entries count_entries [0%nat; 1%nat; 0%nat]
    [("g1", 8); ("g0", 7); ("unused", 9)]
  = Ok [("MRE", count_entries [7; 8; 7] [10; 11; 10]);
        ("RMSE", count_entries [7; 8; 7] [10; 11; 10])].
Proof.
  apply (metrics_aligned sample_world Z sample_ID sample_duration
           count_entries count_entries
           [("g1", 8); ("g0", 7); ("unused", 9)] [0%nat; 1%nat; 0%nat]
           [7; 8; 7]).
  repeat constructor.
Defined.

Lemma creator_early_errors_witness :
  creator sample_world OP "k" (NormVal (PList [])) []
    (initial_state sample_world)
  = (Raise TypeError, initial_state sample_world)
  /\ creator sample_world OP "k" min_max [("normalization", 1)]
       (initial_state sample_world)
     = (Raise TypeError, initial_state sample_world)
  /\ creator sample_world OP "k" min_max [] (initial_state sample_world)
     = (Raise (KeyError "k"), initial_state sample_world).
Proof.
  split; [|split].
  - apply (proj1 (creator_early_errors sample_world OP "k"%string
                    (NormVal (PList [])) [] (initial_state sample_world))).
    intros h. discriminate.
  - apply (proj1 (proj2 (creator_early_errors sample_world OP "k"%string
                           min_max [("normalization"%string, 1)]
                           (initial_state sample_world))
                    (HStr sample_world "MinMax") eq_refl eq_refl)).
    right. discriminate.
  - exact (proj2 (proj2 (creator_early_errors sample_world OP "k"%string
                           min_max [] (initial_state sample_world))
                    (HStr sample_world "MinMax") eq_refl eq_refl)
             eq_refl eq_refl eq_refl).
Defined.
